(** * TAAR: the similarity recommender and the recommendation manager

    A shallow embedding of [taar/recommenders/similarity_recommender.py],
    [taar/recommenders/recommendation_manager.py] and the interface of
    [taar/recommenders/base_recommender.py].

    Numbers are IEEE 754 binary64 values (Rocq's primitive [float]), which is
    what Python's [float] and numpy's [float64] are.  Python objects that are
    mutated or returned by reference (the lists of add-on identifiers) live in
    a heap; the attributes of the recommender object are a record that the
    methods read and write through a state monad with exceptions. *)

From Stdlib Require Import ZArith Lia Floats.
From stdpp Require Import gmap strings list sorting.

Set Default Proof Using "Type".
#[local] Set Warnings "-inexact-float,-level-tolerance".

(** * Part I: the model *)

(** ** Python values, exceptions, and the state monad *)

(** A reference to a Python list object (a list of add-on identifiers). *)
Definition loc := positive.

(** The values that the JSON payloads and the telemetry profiles carry. *)
Inductive value :=
| VNone
| VNum (x : float)
| VStr (s : string)
| VList (l : loc).

(** A Python [dict] with string keys. *)
Abbreviation dict := (gmap string value).

(** The exceptions that the modelled code can raise. *)
Inductive exn :=
| AttributeError
| IndexError
| KeyError
| TypeError
| ValueError
| ZeroDivisionError.

Inductive result (A : Type) :=
| Ok (a : A)
| Raise (e : exn).
Arguments Ok {A} a.
Arguments Raise {A} e.

#[export] Instance result_ret : MRet result := fun A a => Ok a.

#[export] Instance result_bind : MBind result := fun A B f r =>
  match r with
  | Ok a => f a
  | Raise e => Raise e
  end.

(** A computation over a state [S] that returns or raises; a raised exception
    keeps the state reached so far, as in Python. *)
Definition M (S A : Type) : Type := S -> result A * S.

#[export] Instance M_ret {S} : MRet (M S) := fun A a s => (Ok a, s).

#[export] Instance M_bind {S} : MBind (M S) := fun A B f m s =>
  match m s with
  | (Ok a, s') => f a s'
  | (Raise e, s') => (Raise e, s')
  end.

Definition raise {S A} (e : exn) : M S A := fun s => (Raise e, s).

Definition gets {S A} (f : S -> A) : M S A := fun s => (Ok (f s), s).

Definition modify {S} (f : S -> S) : M S unit := fun s => (Ok tt, f s).

Definition lift {S A} (r : result A) : M S A := fun s => (r, s).

(** [[f x for x in l]] *)
Fixpoint list_comp {S A B} (f : A -> M S B) (l : list A) : M S (list B) :=
  match l with
  | [] => mret []
  | x :: l' => y ← f x; ys ← list_comp f l'; mret (y :: ys)
  end.

(** [d.get(k)] and [d.get(k, None)] *)
Definition dict_get (d : dict) (k : string) : value := default VNone (d !! k).

(** [d[k]] *)
Definition dict_getitem {S} (d : dict) (k : string) : M S value :=
  match d !! k with
  | Some v => mret v
  | None => raise KeyError
  end.

(** [l[i]] for a non-negative index *)
Definition index {S A} (l : list A) (i : nat) : M S A :=
  match l !! i with
  | Some x => mret x
  | None => raise IndexError
  end.

(** [v is not None] *)
Definition is_not_None (v : value) : bool :=
  match v with
  | VNone => false
  | _ => true
  end.

(** [l[:limit]]: a negative bound counts from the end of the list. *)
Definition slice_to {A} (l : list A) (limit : Z) : list A :=
  if (limit <? 0)%Z
  then take (Z.to_nat (Z.of_nat (length l) + limit)) l
  else take (Z.to_nat limit) l.

(** ** numpy and scipy

    What the library calls of the code do, as the current releases of numpy
    and scipy do it. *)

(** One entry of a row that is assigned into a [float64] matrix
    ([matrix[idx] = features]): a number is stored as it is and [None] as NaN.
    Text is handed to Python's [float], which parses it; of that only the
    failure is modelled, a [ValueError], so no statement below is about donors
    with text in a continuous feature.  A list is no scalar: [ValueError]. *)
Definition store_double (v : value) : result float :=
  match v with
  | VNum x => Ok x
  | VNone => Ok nan
  | VStr _ => Raise ValueError
  | VList _ => Raise ValueError
  end.

Fixpoint row_store_double (vs : list value) : result (list float) :=
  match vs with
  | [] => Ok []
  | v :: vs' =>
      match store_double v with
      | Ok x =>
          match row_store_double vs' with
          | Ok xs => Ok (x :: xs)
          | Raise e => Raise e
          end
      | Raise e => Raise e
      end
  end.

(** One entry of the row that is given to [cdist] as [np.array([row])] with
    the metric 'canberra'.  The array is a [float64] array when every entry is
    a number.  With [None] among the entries it is an object array, which the
    Canberra kernel of [cdist] refuses with a [ValueError] ("Unsupported
    dtype"), whatever the other entries are.  A row with text and no [None]
    is a text array and is refused too; the statements below use the
    exception for a missing or [None] entry only. *)
Definition as_double (v : value) : result float :=
  match v with
  | VNum x => Ok x
  | VNone => Raise ValueError
  | VStr _ => Raise ValueError
  | VList _ => Raise ValueError
  end.

Fixpoint row_as_double (vs : list value) : result (list float) :=
  match vs with
  | [] => Ok []
  | v :: vs' =>
      match as_double v with
      | Ok x =>
          match row_as_double vs' with
          | Ok xs => Ok (x :: xs)
          | Raise e => Raise e
          end
      | Raise e => Raise e
      end
  end.

(** scipy's Canberra kernel ([CanberraDistance] of [distance_metrics.h]): the
    terms are added from the left, starting at 0; a term is
    [num / (denom + (denom == 0))], so a denominator that is zero is replaced
    by 1, and a NaN is carried along. *)
Definition canberra_step (tot : float) (xy : float * float) : float :=
  let num := abs (xy.1 - xy.2)%float in
  let denom := (abs xy.1 + abs xy.2)%float in
  (tot + num / (denom + (if (denom =? 0)%float then 1 else 0)))%float.

Definition canberra (u v : list float) : float :=
  fold_left canberra_step (zip u v) 0%float.

(** Python's [==] on the values of a categorical feature: no conversion
    between text and numbers.  (Two list objects are compared by identity
    here; they are no feature values.) *)
Definition py_eq (a b : value) : bool :=
  match a, b with
  | VNone, VNone => true
  | VNum x, VNum y => (x =? y)%float
  | VStr s, VStr t => bool_decide (s = t)
  | VList l, VList l' => bool_decide (l = l')
  | _, _ => false
  end.

Definition py_ne (a b : value) : bool := negb (py_eq a b).

Definition float_of_nat (n : nat) : float := of_uint63 (Uint63.of_Z (Z.of_nat n)).

(** [numpy.mean] of a boolean array: the sum is taken in [float64] and divided
    by the number of entries. *)
Definition mean_bool (bs : list bool) : float :=
  (fold_left (fun acc (b : bool) => acc + (if b then 1 else 0)) bs 0
   / float_of_nat (length bs))%float.

(** [scipy.spatial.distance.hamming] on two rows of Python objects. *)
Definition hamming (u v : list value) : float := mean_bool (zip_with py_ne u v).

(** [cdist(XA, [y], metric)]: one distance per row of [XA]. *)
Definition cdist {A B} (XA : list (list A)) (y : list B)
    (metric : list A -> list B -> float) : list float :=
  map (fun x => metric x y) XA.

(** numpy's [argmin] on [float64]: the first NaN, else the first least entry. *)
Fixpoint argmin_from (mp : float) (min_ind i : nat) (l : list float) : nat :=
  match l with
  | [] => min_ind
  | x :: l' =>
      if negb (mp <=? x)%float
      then if is_nan x then i else argmin_from x i (S i) l'
      else argmin_from mp min_ind (S i) l'
  end.

Definition argmin (l : list float) : result nat :=
  match l with
  | [] => Raise ValueError
  | x :: l' => Ok (if is_nan x then 0 else argmin_from x 0 1 l')
  end.

(** ** The recommender object and its world *)

(** One point of the calibration curve, [[score, [numerator, denominator]]]. *)
Abbreviation curve_point := (float * (float * float))%type.

(** The attributes of a [SimilarityRecommender] object.  An attribute that
    was never assigned is [None] here, and reading it is an [AttributeError];
    [donors_pool] and [lr_curves] hold Python's [None] (the inner [None]) when
    the download failed. *)
Record SimilarityRecommender := {
  donors_pool : option (option (list dict));
  lr_curves : option (option (list curve_point));
  num_donors : option nat;
  continuous_features : option (list (list float));
  categorical_features : option (list (list value));
  lr_curves_cache : option (list float)
}.

Inductive level := INFO | WARNING | ERROR.

Record log_record := {
  log_level : level;
  log_msg : string;
  log_extra : list (string * value)
}.

(** The state that the methods of the recommender run in: the object, the
    heap of list objects, and the records handed to the logger so far. *)
Record world := {
  self : SimilarityRecommender;
  heap : gmap loc (list string);
  logged : list log_record
}.

Definition with_self (f : SimilarityRecommender -> SimilarityRecommender) (w : world) : world :=
  {| self := f (self w); heap := heap w; logged := logged w |}.

Definition with_heap (f : gmap loc (list string) -> gmap loc (list string)) (w : world) : world :=
  {| self := self w; heap := f (heap w); logged := logged w |}.

Definition with_logged (f : list log_record -> list log_record) (w : world) : world :=
  {| self := self w; heap := heap w; logged := f (logged w) |}.

(** [self.name], read *)
Definition attr {A} (name : SimilarityRecommender -> option A) : M world A :=
  fun w =>
    match name (self w) with
    | Some v => (Ok v, w)
    | None => (Raise AttributeError, w)
    end.

(** [self.name = v]: the object with one attribute assigned, and the
    assignment as a computation, for each attribute. *)
Definition upd_donors_pool (v : option (list dict)) (s : SimilarityRecommender) : SimilarityRecommender :=
  {| donors_pool := Some v;
     lr_curves := lr_curves s;
     num_donors := num_donors s;
     continuous_features := continuous_features s;
     categorical_features := categorical_features s;
     lr_curves_cache := lr_curves_cache s |}.

Definition upd_lr_curves (v : option (list curve_point)) (s : SimilarityRecommender) : SimilarityRecommender :=
  {| donors_pool := donors_pool s;
     lr_curves := Some v;
     num_donors := num_donors s;
     continuous_features := continuous_features s;
     categorical_features := categorical_features s;
     lr_curves_cache := lr_curves_cache s |}.

Definition upd_num_donors (v : nat) (s : SimilarityRecommender) : SimilarityRecommender :=
  {| donors_pool := donors_pool s;
     lr_curves := lr_curves s;
     num_donors := Some v;
     continuous_features := continuous_features s;
     categorical_features := categorical_features s;
     lr_curves_cache := lr_curves_cache s |}.

Definition upd_continuous_features (v : list (list float)) (s : SimilarityRecommender) : SimilarityRecommender :=
  {| donors_pool := donors_pool s;
     lr_curves := lr_curves s;
     num_donors := num_donors s;
     continuous_features := Some v;
     categorical_features := categorical_features s;
     lr_curves_cache := lr_curves_cache s |}.

Definition upd_categorical_features (v : list (list value)) (s : SimilarityRecommender) : SimilarityRecommender :=
  {| donors_pool := donors_pool s;
     lr_curves := lr_curves s;
     num_donors := num_donors s;
     continuous_features := continuous_features s;
     categorical_features := Some v;
     lr_curves_cache := lr_curves_cache s |}.

Definition upd_lr_curves_cache (v : list float) (s : SimilarityRecommender) : SimilarityRecommender :=
  {| donors_pool := donors_pool s;
     lr_curves := lr_curves s;
     num_donors := num_donors s;
     continuous_features := continuous_features s;
     categorical_features := categorical_features s;
     lr_curves_cache := Some v |}.

Definition set_donors_pool (v : option (list dict)) : M world unit :=
  modify (with_self (upd_donors_pool v)).

Definition set_lr_curves (v : option (list curve_point)) : M world unit :=
  modify (with_self (upd_lr_curves v)).

Definition set_num_donors (v : nat) : M world unit :=
  modify (with_self (upd_num_donors v)).

Definition set_continuous_features (v : list (list float)) : M world unit :=
  modify (with_self (upd_continuous_features v)).

Definition set_categorical_features (v : list (list value)) : M world unit :=
  modify (with_self (upd_categorical_features v)).

Definition set_lr_curves_cache (v : list float) : M world unit :=
  modify (with_self (upd_lr_curves_cache v)).

(** [logger.error], [logger.warning] *)
Definition logger (lv : level) (msg : string) (extra : list (string * value)) : M world unit :=
  modify (with_logged (fun l =>
    l ++ [{| log_level := lv; log_msg := msg; log_extra := extra |}])).

(** A new list object, e.g. [[]] *)
Definition list_new (l : list string) : M world loc :=
  fun w =>
    let r := fresh (dom (heap w)) in
    (Ok r, with_heap (insert r l) w).

(** The contents of a list object.  Every reference that a Python object holds
    is allocated, so the default is not met on the heaps of a run. *)
Definition list_read (r : loc) : M world (list string) :=
  gets (fun w => default [] (heap w !! r)).

(** [r.extend(items)] *)
Definition list_extend (r : loc) (items : list string) : M world unit :=
  modify (with_heap (alter (fun l => l ++ items) r)).

(** [len(r)] *)
Definition list_len (r : loc) : M world nat :=
  l ← list_read r; mret (length l).

(** [r[:limit]], a new list object *)
Definition list_slice_to (r : loc) (limit : Z) : M world loc :=
  l ← list_read r; list_new (slice_to l limit).

(** The characters of a text, as Python iterates over them.  A [string] holds
    the UTF-8 bytes of the text: a character is a byte that is no continuation
    byte (10xxxxxx) together with the continuation bytes that follow it. *)
Definition is_continuation (c : Ascii.ascii) : bool :=
  (128 <=? Ascii.nat_of_ascii c)%nat && (Ascii.nat_of_ascii c <? 192)%nat.

Fixpoint chars_of (bs : list Ascii.ascii) : list string :=
  match bs with
  | [] => []
  | b :: bs' =>
      match chars_of bs' with
      | String c rest :: chars' =>
          if is_continuation c
          then String b (String c rest) :: chars'
          else String b EmptyString :: String c rest :: chars'
      | chars' => String b EmptyString :: chars'
      end
  end.

Definition chars (s : string) : list string := chars_of (String.list_ascii_of_string s).

(** The items that iterating over a value yields: the entries of a list, the
    characters of a text; the other values are not iterable. *)
Definition iterate (v : value) : M world (list string) :=
  match v with
  | VList r => list_read r
  | VStr s => mret (chars s)
  | VNone => raise TypeError
  | VNum _ => raise TypeError
  end.

(** ** [similarity_recommender.py] *)

Definition CATEGORICAL_FEATURES : list string := ["geo_city"; "locale"; "os"].

Definition CONTINUOUS_FEATURES : list string :=
  ["subsession_length"; "bookmark_count"; "tab_open_count"; "total_uri"; "unique_tlds"].

Definition DONOR_LIST_KEY : string := "taar/similarity/donors.json".

Definition LR_CURVES_SIMILARITY_TO_PROBABILITY : string := "taar/similarity/lr_curves.json".

(** The two [for idx, d in enumerate(self.donors_pool)] loops of
    [build_features_caches]: each stores one row of the matrix. *)
Fixpoint fill_continuous (idx : nat) (ds : list dict) : M world unit :=
  match ds with
  | [] => mret tt
  | d :: ds' =>
      let features := dict_get d <$> CONTINUOUS_FEATURES in
      row ← lift (row_store_double features);
      m ← attr continuous_features;
      set_continuous_features (<[idx := row]> m);;
      fill_continuous (S idx) ds'
  end.

Fixpoint fill_categorical (idx : nat) (ds : list dict) : M world unit :=
  match ds with
  | [] => mret tt
  | d :: ds' =>
      let features := dict_get d <$> CATEGORICAL_FEATURES in
      m ← attr categorical_features;
      set_categorical_features (<[idx := features]> m);;
      fill_categorical (S idx) ds'
  end.

Definition build_features_caches : M world unit :=
  pool ← attr donors_pool;
  match pool with
  | None => mret tt
  | Some pool =>
      curves ← attr lr_curves;
      match curves with
      | None => mret tt
      | Some curves =>
          set_num_donors (length pool);;
          set_continuous_features
            (replicate (length pool) (replicate (length CONTINUOUS_FEATURES) 0%float));;
          fill_continuous 0 pool;;
          set_categorical_features
            (replicate (length pool) (replicate (length CATEGORICAL_FEATURES) (VNum 0)));;
          fill_categorical 0 pool;;
          set_lr_curves_cache (fst <$> curves)
      end
  end.

(** [__init__]; the two arguments are what [utils.get_s3_json_content]
    returned for the donor list and for the curves ([None]: no content). *)
Definition init (donors : option (list dict)) (curves : option (list curve_point)) : M world unit :=
  set_donors_pool donors;;
  (if donors is None
   then logger ERROR ("Cannot download the donor list: " +:+ DONOR_LIST_KEY) []
   else mret tt);;
  set_lr_curves curves;;
  (if curves is None
   then logger ERROR ("Cannot download the lr curves: " +:+ LR_CURVES_SIMILARITY_TO_PROBABILITY) []
   else mret tt);;
  build_features_caches.

Definition can_recommend (client_data : dict) : M world bool :=
  pool ← attr donors_pool;
  match pool with
  | None => mret false
  | Some _ =>
      curves ← attr lr_curves;
      match curves with
      | None => mret false
      | Some _ =>
          let REQUIRED_FIELDS := CATEGORICAL_FEATURES ++ CONTINUOUS_FEATURES in
          let has_fields :=
            forallb (fun f => is_not_None (dict_get client_data f)) REQUIRED_FIELDS in
          (if negb has_fields
           then logger ERROR "Unusable client data encountered" []
           else mret tt);;
          mret has_fields
      end
  end.

Definition get_lr (score : float) : M world float :=
  cache ← attr lr_curves_cache;
  idx ← lift (argmin ((fun c => abs (score - c)%float) <$> cache));
  curves ← attr lr_curves;
  match curves with
  | None => raise TypeError
  | Some curves =>
      point ← index curves idx;
      let numer_val := point.2.1 in
      let denum_val := point.2.2 in
      if (denum_val =? 0)%float
      then raise ZeroDivisionError
      else mret (numer_val / denum_val)%float
  end.

Section Ranking.

(** numpy's [argsort] with its default sort: which of the permutations that
    sort the keys it returns when keys are equal is left to numpy, so the
    function is a parameter here. *)
Variable argsort : list float -> list nat.

(** [np.array([client_categorical_feats])] keeps a row of texts as it is, and
    a row with [None] in it as objects.  A row that mixes text and numbers
    would be turned into text by numpy; such rows are outside the model: the
    statements about the ranking take the three categorical values of the
    profile to be text, as the specification types them. *)
Definition get_similar_donors (client_data : dict) : M world (list float * list nat) :=
  let client_categorical_feats := dict_get client_data <$> CATEGORICAL_FEATURES in
  let client_continuous_feats := dict_get client_data <$> CONTINUOUS_FEATURES in
  XA ← attr continuous_features;
  y ← lift (row_as_double client_continuous_feats);
  let cont_features := cdist XA y canberra in
  XC ← attr categorical_features;
  let cat_features := cdist XC client_categorical_feats (fun x y => hamming x y) in
  let distances := zip_with (fun c h => (c + 0.001) * h)%float cont_features cat_features in
  n ← attr num_donors;
  lrs_from_scores ← list_comp (fun i => d ← index distances i; get_lr d) (seq 0 n);
  let indices := argsort (opp <$> lrs_from_scores) in
  ranking ← list_comp (index lrs_from_scores) indices;
  mret (ranking, indices).

(** The body of [for good_candidate_index in highest_scores_indices], with its
    [break]. *)
Fixpoint extend_loop (recommendations : loc) (limit : Z) (idxs : list nat) : M world unit :=
  match idxs with
  | [] => mret tt
  | good_candidate_index :: rest =>
      pool ← attr donors_pool;
      match pool with
      | None => raise TypeError
      | Some pool =>
          donor ← index pool good_candidate_index;
          addons ← dict_getitem donor "active_addons";
          items ← iterate addons;
          list_extend recommendations items;;
          n ← list_len recommendations;
          if (limit <? Z.of_nat n)%Z
          then mret tt
          else extend_loop recommendations limit rest
      end
  end.

(** [indices[donor_set_ranking > 1.0]] *)
Definition select_good (donor_set_ranking : list float) (indices : list nat) : list nat :=
  fst <$> filter (fun il => (1 <? il.2)%float = true) (zip indices donor_set_ranking).

Definition recommend (client_data : dict) (limit : Z) : M world loc :=
  '(donor_set_ranking, indices) ← get_similar_donors client_data;
  top ← index donor_set_ranking 0;
  (if (top <? 2)%float
   then logger WARNING
          "Addons recommended with very low similarity score, perhaps donor set is unrepresentative"
          [("maximum_similarity", VNum top)]
   else mret tt);;
  let highest_scores_indices := select_good donor_set_ranking indices in
  recommendations ← list_new [];
  extend_loop recommendations limit highest_scores_indices;;
  list_slice_to recommendations limit.

End Ranking.

(** ** [base_recommender.py] and [recommendation_manager.py] *)

(** What the manager does to its collaborators, in order: the profile fetch,
    the methods of the recommenders (by position in the tuple), the logger. *)
Inductive event :=
| CallGet (client_id : string)
| CallCanRecommend (i : nat) (client_data : dict)
| CallRecommend (i : nat) (client_data : dict) (limit : Z)
| LogInfo (msg : string) (extra : list (string * string)).

Section Manager.

(** The state of the recommenders and of the profile fetcher. *)
Context {W : Type}.

(** [BaseRecommender]: the two abstract methods and [__str__].  [recommend]
    yields the identifiers of the list it returns. *)
Record BaseRecommender := {
  r_can_recommend : dict -> M W bool;
  r_recommend : dict -> Z -> M W (list string);
  r_str : string
}.

Record RecommendationManager := {
  profile_fetcher_get : string -> M W (option dict);
  recommenders : list BaseRecommender
}.

(** A call of a collaborator: the event is recorded, then the call runs. *)
Definition call {A} (e : event) (m : M W A) : M (W * list event) A :=
  fun wt =>
    let (a, w') := m wt.1 in
    (a, (w', wt.2 ++ [e])).

Definition logger_info (msg : string) (extra : list (string * string)) : M (W * list event) unit :=
  modify (fun wt => (wt.1, wt.2 ++ [LogInfo msg extra])).

(** [for r in self.recommenders], from position [i] on *)
Fixpoint recommend_loop (client_id : string) (client_info : dict) (limit : Z)
    (i : nat) (rs : list BaseRecommender) : M (W * list event) (list string) :=
  match rs with
  | [] =>
      logger_info "No recommender can recommend addons" [("client_id", client_id)];;
      mret []
  | r :: rs' =>
      b ← call (CallCanRecommend i client_info) (r_can_recommend r client_info);
      if b : bool
      then
        logger_info "Recommender selected"
          [("client_id", client_id); ("recommender", r_str r)];;
        recommendations ← call (CallRecommend i client_info limit)
                            (r_recommend r client_info limit);
        (if recommendations is []
         then logger_info "No recommendations"
                [("client_id", client_id); ("recommender", r_str r)]
         else mret tt);;
        mret recommendations
      else recommend_loop client_id client_info limit (S i) rs'
  end.

Definition manager_recommend (mgr : RecommendationManager) (client_id : string) (limit : Z)
    : M (W * list event) (list string) :=
  client_info ← call (CallGet client_id) (profile_fetcher_get mgr client_id);
  match client_info with
  | None => mret []
  | Some client_info => recommend_loop client_id client_info limit 0 (recommenders mgr)
  end.

End Manager.
Arguments BaseRecommender : clear implicits.
Arguments RecommendationManager : clear implicits.

(** The similarity recommender as a [BaseRecommender]. *)
Definition similarity_recommender (argsort : list float -> list nat) : BaseRecommender world :=
  {| r_can_recommend := can_recommend;
     r_recommend := fun client_data limit =>
       r ← recommend argsort client_data limit; list_read r;
     r_str := "SimilarityRecommender" |}.

(** ** Definitions that the statements use *)

(** The rows that a donor record gives to the two feature matrices. *)
Definition continuous_row (d : dict) : result (list float) :=
  row_store_double (dict_get d <$> CONTINUOUS_FEATURES).

Definition categorical_row (d : dict) : list value :=
  dict_get d <$> CATEGORICAL_FEATURES.

(** The object that [__init__] leaves when both payloads are there and the
    continuous features of every donor record could be stored ([rows]). *)
Definition built (pool : list dict) (curves : list curve_point) (rows : list (list float))
    : SimilarityRecommender :=
  {| donors_pool := Some (Some pool);
     lr_curves := Some (Some curves);
     num_donors := Some (length pool);
     continuous_features := Some rows;
     categorical_features := Some (categorical_row <$> pool);
     lr_curves_cache := Some (fst <$> curves) |}.

(** The test that [can_recommend] makes on the profile: each of the eight
    required fields is there and is not [None]. *)
Definition has_required_fields (client_data : dict) : bool :=
  forallb (fun f => is_not_None (dict_get client_data f))
    (CATEGORICAL_FEATURES ++ CONTINUOUS_FEATURES).

(** An object on which no attribute was assigned yet. *)
Definition new_object : SimilarityRecommender :=
  {| donors_pool := None; lr_curves := None; num_donors := None;
     continuous_features := None; categorical_features := None;
     lr_curves_cache := None |}.

(** [k] is the position of the first least entry of [l]. *)
Definition first_least (l : list float) (k : nat) : Prop :=
  exists xk, l !! k = Some xk
    /\ (forall j xj, l !! j = Some xj -> (xk <=? xj)%float = true)
    /\ (forall j xj, j < k -> l !! j = Some xj -> (xk <? xj)%float = true).

(** The two feature vectors of the client, as [get_similar_donors] takes
    them from the profile. *)
Definition client_continuous (client_data : dict) : result (list float) :=
  row_as_double (dict_get client_data <$> CONTINUOUS_FEATURES).

Definition client_categorical (client_data : dict) : list value :=
  dict_get client_data <$> CATEGORICAL_FEATURES.

(** The entry of [distances] for one donor, as the code computes it (donor
    first), and the likelihood ratio that [get_lr] gives for it. *)
Definition donor_distance (client_data donor : dict) : result float :=
  y ← client_continuous client_data;
  x ← continuous_row donor;
  mret ((canberra x y + 0.001)
        * hamming (categorical_row donor) (client_categorical client_data))%float.

Definition donor_lr (w : world) (client_data donor : dict) : result float :=
  d ← donor_distance client_data donor; (get_lr d w).1.

(** The add-ons that the loop of [recommend] takes from a donor record. *)
Definition active_addons (h : gmap loc (list string)) (donor : dict) : result (list string) :=
  match donor !! "active_addons" with
  | None => Raise KeyError
  | Some (VList r) => Ok (default [] (h !! r))
  | Some (VStr s) => Ok (chars s)
  | Some VNone => Raise TypeError
  | Some (VNum _) => Raise TypeError
  end.

(** Every list that a donor record refers to is allocated. *)
Definition closed (h : gmap loc (list string)) (pool : list dict) : Prop :=
  forall d r, d ∈ pool -> d !! "active_addons" = Some (VList r) -> is_Some (h !! r).

(** [l[i]] as a result. *)
Definition lookup_result {A} (l : list A) (i : nat) : result A :=
  match l !! i with
  | Some x => Ok x
  | None => Raise IndexError
  end.

(** What [get_similar_donors] returns on a built object, from the likelihood
    ratios of the donors. *)
Definition similar_donors (argsort : list float -> list nat) (w : world)
    (client_data : dict) (pool : list dict) : result (list float * list nat) :=
  _ ← client_continuous client_data;
  lrs ← mapM (donor_lr w client_data) pool;
  let indices := argsort (opp <$> lrs) in
  ranking ← mapM (lookup_result lrs) indices;
  mret (ranking, indices).

(** The loop of [recommend] on the contents of the working list: the outcome,
    and the working list when the loop is left. *)
Fixpoint gather (pool : list dict) (h : gmap loc (list string)) (limit : Z)
    (acc : list string) (idxs : list nat) : result unit * list string :=
  match idxs with
  | [] => (Ok tt, acc)
  | i :: rest =>
      match pool !! i with
      | None => (Raise IndexError, acc)
      | Some donor =>
          match active_addons h donor with
          | Raise e => (Raise e, acc)
          | Ok items =>
              let acc' := acc ++ items in
              if (limit <? Z.of_nat (length acc'))%Z
              then (Ok tt, acc')
              else gather pool h limit acc' rest
          end
      end
  end.

(** The record that [recommend] hands to [logger.warning]. *)
Definition low_similarity_warning (top : float) : log_record :=
  {| log_level := WARNING;
     log_msg := "Addons recommended with very low similarity score, perhaps donor set is unrepresentative";
     log_extra := [("maximum_similarity", VNum top)] |}.

(** What [recommend] does on a built object: the outcome and the world. *)
Definition recommend_outcome (argsort : list float -> list nat) (client_data : dict)
    (limit : Z) (pool : list dict) (w : world) : result loc * world :=
  match similar_donors argsort w client_data pool with
  | Raise e => (Raise e, w)
  | Ok (ranking, indices) =>
      match ranking with
      | [] => (Raise IndexError, w)
      | top :: _ =>
          let w1 :=
            if (top <? 2)%float
            then with_logged (fun l => l ++ [low_similarity_warning top]) w
            else w in
          let r0 := fresh (dom (heap w)) in
          let '(res, acc) := gather pool (heap w) limit [] (select_good ranking indices) in
          let h1 := <[r0 := acc]> (heap w) in
          match res with
          | Raise e => (Raise e, with_heap (fun _ => h1) w1)
          | Ok _ =>
              (Ok (fresh (dom h1)),
               with_heap (fun _ => <[fresh (dom h1) := slice_to acc limit]> h1) w1)
          end
      end
  end.

(** The add-ons of the donor at a position of the pool, empty when the record
    has none to give. *)
Definition addons_at (h : gmap loc (list string)) (pool : list dict) (i : nat) : list string :=
  match pool !! i with
  | Some d =>
      match active_addons h d with
      | Ok items => items
      | Raise _ => []
      end
  | None => []
  end.

(** What numpy's [argsort] guarantees: the result is a permutation of the
    positions, and no later position holds a smaller key. *)
Definition sorts (argsort : list float -> list nat) : Prop :=
  forall keys : list float,
    argsort keys ≡ₚ seq 0 (length keys)
    /\ forall a b i j ki kj,
         a < b ->
         argsort keys !! a = Some i -> argsort keys !! b = Some j ->
         keys !! i = Some ki -> keys !! j = Some kj ->
         (kj <? ki)%float = false.

(** A ranking in descending order: no later likelihood ratio is larger. *)
Definition descending (ranking : list float) : Prop :=
  forall a b x y,
    a < b -> ranking !! a = Some x -> ranking !! b = Some y -> (x <? y)%float = false.

(** An argsort by insertion, for the examples: it keeps equal keys in the
    order of their positions, and a NaN key where the insertion leaves it.  It
    is one function that does what [sorts] asks for; numpy's [argsort] is
    another, which may order equal keys differently and puts NaN keys last. *)
Definition key_at (keys : list float) (i : nat) : float := default nan (keys !! i).

Fixpoint insert_by (keys : list float) (i : nat) (l : list nat) : list nat :=
  match l with
  | [] => [i]
  | j :: l' =>
      if (key_at keys i <? key_at keys j)%float
      then i :: l
      else j :: insert_by keys i l'
  end.

Definition stable_argsort (keys : list float) : list nat :=
  foldl (fun acc i => insert_by keys i acc) [] (seq 0 (length keys)).

(** The recommenders of a prefix of the tuple all answer [False] to
    [can_recommend], one after the other, from world [w] to world [w']. *)
Inductive declines {W} (client_info : dict) : list (BaseRecommender W) -> W -> W -> Prop :=
| declines_nil (w : W) : declines client_info [] w w
| declines_cons (r : BaseRecommender W) (rs : list (BaseRecommender W)) (w w1 w2 : W) :
    r_can_recommend r client_info w = (Ok false, w1) ->
    declines client_info rs w1 w2 ->
    declines client_info (r :: rs) w w2.

(** The [can_recommend] calls on positions [i], ..., [i + n - 1]. *)
Definition can_recommend_calls (client_info : dict) (i n : nat) : list event :=
  (fun j => CallCanRecommend j client_info) <$> seq i n.

(** The log records of the manager. *)
Definition selected_record {W} (client_id : string) (r : BaseRecommender W) : event :=
  LogInfo "Recommender selected" [("client_id", client_id); ("recommender", r_str r)].

Definition no_recommendations_record {W} (client_id : string) (r : BaseRecommender W) : event :=
  LogInfo "No recommendations" [("client_id", client_id); ("recommender", r_str r)].

Definition no_recommender_record (client_id : string) : event :=
  LogInfo "No recommender can recommend addons" [("client_id", client_id)].

(** A recommender whose [recommend] returns at most [limit] identifiers. *)
Definition bounded {W} (limit : Z) (r : BaseRecommender W) : Prop :=
  forall client_data w out w',
    r_recommend r client_data limit w = (Ok out, w') ->
    (Z.of_nat (length out) <= limit)%Z.

(** The list that a call returned, or the exception that it raised. *)
Definition returned (o : result loc * world) : result (list string) :=
  match o.1 with
  | Ok r => Ok (default [] (heap o.2 !! r))
  | Raise e => Raise e
  end.

(** [closed], decided. *)
Definition closedb (h : gmap loc (list string)) (pool : list dict) : bool :=
  forallb (fun d : dict =>
             match d !! "active_addons" with
             | Some (VList r) => bool_decide (is_Some (h !! r))
             | _ => true
             end) pool.

(** ** Example data *)

Module Example.

Definition record (city locale os : string) (a b c d e : float) : dict :=
  <["geo_city" := VStr city]> (<["locale" := VStr locale]> (<["os" := VStr os]>
  (<["subsession_length" := VNum a]> (<["bookmark_count" := VNum b]>
  (<["tab_open_count" := VNum c]> (<["total_uri" := VNum d]>
  (<["unique_tlds" := VNum e]> ∅))))))).

Definition donor (city locale os : string) (a b c d e : float) (addons : loc) : dict :=
  <["active_addons" := VList addons]> (record city locale os a b c d e).

(** Three list objects, one per donor. *)
Definition lists : gmap loc (list string) :=
  <[1%positive := ["a1"; "a2"; "a3"]]> (<[2%positive := ["b1"; "b2"; "b3"]]>
  (<[3%positive := ["c1"; "c2"; "c3"]]> ∅)).

Definition fresh_world : world :=
  {| self := new_object; heap := lists; logged := [] |}.

Definition pool : list dict :=
  [ donor "Berlin" "de" "Linux" 10 2 3 40 5 1%positive;
    donor "Berlin" "en" "Linux" 10 2 3 40 5 2%positive;
    donor "Paris" "fr" "Mac" 100 20 30 400 50 3%positive ].

(** A calibration curve that is not sorted by score. *)
Definition curve : list curve_point :=
  [ (1, (0.2, 0.8)); (0, (0.9, 0.1)); (0.5, (0.6, 0.3)) ]%float.

(** The world after [__init__]. *)
Definition ready : world := (init (Some pool) (Some curve) fresh_world).2.

(** The world after [__init__] with an empty donor list. *)
Definition ready_empty : world := (init (Some []) (Some curve) fresh_world).2.

(** A profile that matches the first donor, the same without its locale, and
    one that is far from every donor. *)
Definition profile : dict := record "Berlin" "de" "Linux" 10 2 3 40 5.

Definition profile_without_locale : dict := delete "locale" profile.

Definition far_profile : dict := record "Tokyo" "ja" "BSD" 1 200 1 4 500.

(** A manager with three recommenders: one that never applies, the
    similarity recommender, and a fallback that always applies. *)
Definition fetcher (client_id : string) : M world (option dict) :=
  if bool_decide (client_id = "near") then mret (Some profile)
  else if bool_decide (client_id = "far") then mret (Some far_profile)
  else mret None.

Definition never : BaseRecommender world :=
  {| r_can_recommend := fun _ => mret false;
     r_recommend := fun _ _ => mret ["never"];
     r_str := "Never" |}.

Definition fallback : BaseRecommender world :=
  {| r_can_recommend := fun _ => mret true;
     r_recommend := fun _ limit => mret (slice_to ["f1"; "f2"] limit);
     r_str := "Fallback" |}.

Definition manager : RecommendationManager world :=
  {| profile_fetcher_get := fetcher;
     recommenders := [never; similarity_recommender stable_argsort; fallback] |}.

End Example.

(** The list that [recommend] returns on a built object, or the exception. *)
Definition recommendation (argsort : list float -> list nat) (w : world)
    (client_data : dict) (limit : Z) (pool : list dict) : result (list string) :=
  match similar_donors argsort w client_data pool with
  | Raise e => Raise e
  | Ok (ranking, indices) =>
      match ranking with
      | [] => Raise IndexError
      | _ :: _ =>
          match gather pool (heap w) limit [] (select_good ranking indices) with
          | (Ok _, acc) => Ok (slice_to acc limit)
          | (Raise e, _) => Raise e
          end
      end
  end.

(** ** [locale_recommender.py]

    The methods that the manager calls, [can_recommend] and [recommend].
    They use one attribute, [top_addons_per_locale]: the JSON object that
    maps a locale to its list of add-ons, or [None] when the download failed.
    ([top_addons_by_locale] serves [get_weighted_recommendations] only, which
    no code here calls.) *)

Module Locale.

Record LocaleRecommender := {
  top_addons_per_locale : option (option (gmap string (list string)))
}.

(** [self.top_addons_per_locale], read *)
Definition attr : M LocaleRecommender (option (gmap string (list string))) :=
  fun s =>
    match top_addons_per_locale s with
    | Some v => (Ok v, s)
    | None => (Raise AttributeError, s)
    end.

(** [k in self.top_addons_per_locale] for a text key; [None] has no [in]. *)
Definition contains (k : string) : M LocaleRecommender bool :=
  per_locale ← attr;
  match per_locale with
  | None => raise TypeError
  | Some per_locale => mret (bool_decide (is_Some (per_locale !! k)))
  end.

(** [self.top_addons_per_locale.get(k)]: the keys of the JSON object are
    text, so [None] and numbers are not among them; a list cannot be hashed;
    [None] has no [get]. *)
Definition get (k : value) : M LocaleRecommender (option (list string)) :=
  per_locale ← attr;
  match per_locale with
  | None => raise AttributeError
  | Some per_locale =>
      match k with
      | VStr s => mret (per_locale !! s)
      | VList _ => raise TypeError
      | VNone => mret None
      | VNum _ => mret None
      end
  end.

Definition can_recommend (client_data : dict) : M LocaleRecommender bool :=
  per_locale ← attr;
  if per_locale is None then mret false
  else
    let client_locale := dict_get client_data "locale" in
    match client_locale with
    | VStr s =>
        present ← contains s;
        if negb present then mret false
        else
          addons ← get client_locale;
          match addons with
          | None => mret false
          | Some [] => mret false
          | Some (_ :: _) => mret true
          end
    | _ => mret false
    end.

Definition recommend (client_data : dict) (limit : Z) : M LocaleRecommender (list string) :=
  let client_locale := dict_get client_data "locale" in
  addons ← get client_locale;
  mret (slice_to (default [] addons) limit).

End Locale.

(** The locale recommender as a [BaseRecommender]. *)
Definition locale_recommender : BaseRecommender Locale.LocaleRecommender :=
  {| r_can_recommend := Locale.can_recommend;
     r_recommend := Locale.recommend;
     r_str := "LocaleRecommender" |}.

(** ** Recommenders side by side

    Each recommender object has its own state; a manager that holds two of
    them runs in the pair of the states. *)
Definition on_fst {S T A} (m : M S A) : M (S * T) A :=
  fun st => let (a, s') := m st.1 in (a, (s', st.2)).

Definition on_snd {S T A} (m : M T A) : M (S * T) A :=
  fun st => let (a, t') := m st.2 in (a, (st.1, t')).

Definition recommender_on_fst {S T} (r : BaseRecommender S) : BaseRecommender (S * T) :=
  {| r_can_recommend := fun client_data => on_fst (r_can_recommend r client_data);
     r_recommend := fun client_data limit => on_fst (r_recommend r client_data limit);
     r_str := r_str r |}.

Definition recommender_on_snd {S T} (r : BaseRecommender T) : BaseRecommender (S * T) :=
  {| r_can_recommend := fun client_data => on_snd (r_can_recommend r client_data);
     r_recommend := fun client_data limit => on_snd (r_recommend r client_data limit);
     r_str := r_str r |}.

(** The last two recommenders of the default tuple of the manager, in its
    order: the similarity recommender, then the locale recommender. *)
Definition similarity_then_locale (argsort : list float -> list nat)
    : list (BaseRecommender (world * Locale.LocaleRecommender)) :=
  [recommender_on_fst (similarity_recommender argsort);
   recommender_on_snd locale_recommender].

(** ** Definitions that the further statements use *)

(** The records that [__init__] hands to [logger.error]. *)
Definition donors_error : log_record :=
  {| log_level := ERROR;
     log_msg := "Cannot download the donor list: " +:+ DONOR_LIST_KEY;
     log_extra := [] |}.

Definition curves_error : log_record :=
  {| log_level := ERROR;
     log_msg := "Cannot download the lr curves: " +:+ LR_CURVES_SIMILARITY_TO_PROBABILITY;
     log_extra := [] |}.

(** The record that [can_recommend] hands to [logger.error]. *)
Definition unusable_error : log_record :=
  {| log_level := ERROR; log_msg := "Unusable client data encountered"; log_extra := [] |}.

(** ** The ranking, as the statements name it *)

(** A profile whose three categorical features are text, which is how the
    specification types a profile that [can_recommend] accepts. *)
Definition text_categories (client_data : dict) : Prop :=
  forall f, f ∈ CATEGORICAL_FEATURES -> exists s, client_data !! f = Some (VStr s).

(** [indices] ranks the donors by their likelihood ratios [lrs]: every donor
    is there once, and no later one has a larger likelihood ratio. *)
Definition ranks (lrs : list float) (indices : list nat) : Prop :=
  indices ≡ₚ seq 0 (length lrs)
  /\ forall a b i j x y,
       a < b ->
       indices !! a = Some i -> indices !! b = Some j ->
       lrs !! i = Some x -> lrs !! j = Some y ->
       (x <? y)%float = false.

(** The likelihood ratio of donor [i] is above 1.0. *)
Definition above_one (lrs : list float) (i : nat) : bool :=
  match lrs !! i with
  | Some lr => (1 <? lr)%float
  | None => false
  end.

(** The donors that qualify, in the order of the ranking. *)
Definition good_donors (lrs : list float) (indices : list nat) : list nat :=
  filter (fun i => above_one lrs i = true) indices.

(** ** The composite distance, written out *)

(** What a continuous feature of a donor record is in its row of the matrix:
    the number, or NaN when the feature is missing or [None]. *)
Definition stored (v : value) (x : float) : Prop :=
  v = VNum x \/ (v = VNone /\ x = nan).

(** One term of the Canberra distance: |x - y| / (|x| + |y|), where a
    denominator of zero counts as 1. *)
Definition canberra_term (x y : float) : float :=
  (abs (x - y) / (abs x + abs y + (if (abs x + abs y =? 0) then 1 else 0)))%float.

(** Whether a value is a given text is decidable. *)
#[export] Instance value_is_text_dec (v : value) (s : string) : Decision (v = VStr s).
Proof.
  destruct v as [| x | t | l]; try (right; discriminate).
  destruct (decide (t = s)) as [Heq|Hne]; [left; congruence|right; congruence].
Defined.

(** The number of the three categorical features in which a donor record does
    not have the text that the client has. *)
Definition differing_categories (donor : dict) (c1 c2 c3 : string) : nat :=
  (if bool_decide (dict_get donor "geo_city" = VStr c1) then 0 else 1)
  + (if bool_decide (dict_get donor "locale" = VStr c2) then 0 else 1)
  + (if bool_decide (dict_get donor "os" = VStr c3) then 0 else 1).

(** The Hamming distance of three values when [k] of them differ. *)
Definition hamming_share (k : nat) : float :=
  match k with
  | 0 => 0
  | 1 => 1 / 3
  | 2 => 2 / 3
  | _ => 1
  end%float.

(** The Canberra distance of the continuous values [ys] of a client and [xs]
    of a donor: the terms of the positions, added from the left. *)
Definition canberra_distance (ys xs : list float) : float :=
  foldl (fun acc yx => acc + canberra_term yx.1 yx.2)%float 0%float (zip ys xs).

(** The composite distance when [k] categorical features differ. *)
Definition composite_distance (ys xs : list float) (k : nat) : float :=
  ((canberra_distance ys xs + 0.001) * hamming_share k)%float.

(** The row that [__init__] stores for a donor record whose continuous
    features are numbers, missing or [None]. *)
Definition number_or_nan (d : dict) (f : string) : float :=
  match d !! f with
  | Some (VNum x) => x
  | _ => nan
  end.

(** ** Further example data *)

Module Cases.

(** A recommender whose [can_recommend] raises. *)
Definition broken : BaseRecommender world :=
  {| r_can_recommend := fun _ => raise KeyError;
     r_recommend := fun _ _ => mret ["broken"];
     r_str := "Broken" |}.

Definition manager : RecommendationManager world :=
  {| profile_fetcher_get := Example.fetcher;
     recommenders := [Example.never; broken; Example.fallback] |}.

End Cases.

(** What a run of the loop of the manager over [rs] did, from position [i]
    and world [w], for the profile [client_info]: the recommenders before
    position [k] of [rs] answered [False]; then either none was left, or the
    one at [k] raised in [can_recommend], or it answered [True] and its
    [recommend] gave the outcome.  [res], [w'] and [evs] are the outcome, the
    world and the events of the run. *)
Definition loop_run {W} (client_id : string) (client_info : dict) (limit : Z) (i : nat)
    (rs : list (BaseRecommender W)) (w : W) (res : result (list string)) (w' : W)
    (evs : list event) : Prop :=
  exists k w2,
    declines client_info (take k rs) w w2
    /\ ((k = length rs /\ res = Ok [] /\ w' = w2
         /\ evs = can_recommend_calls client_info i k ++ [no_recommender_record client_id])
        \/ exists r,
             rs !! k = Some r
             /\ ((exists e,
                    r_can_recommend r client_info w2 = (Raise e, w')
                    /\ res = Raise e
                    /\ evs = can_recommend_calls client_info i (S k))
                 \/ exists w3,
                      r_can_recommend r client_info w2 = (Ok true, w3)
                      /\ r_recommend r client_info limit w3 = (res, w')
                      /\ evs = can_recommend_calls client_info i (S k)
                               ++ [selected_record client_id r;
                                   CallRecommend (i + k) client_info limit]
                               ++ (if res is Ok [] then [no_recommendations_record client_id r]
                                   else []))).

Module LocaleCases.

(** A table with add-ons for two locales and none for a third, and a locale
    recommender that holds it. *)
Definition table : gmap string (list string) :=
  <["de" := ["d1"; "d2"; "d3"]]> (<["en" := ["e1"]]> (<["fr" := []]> ∅)).

Definition loaded : Locale.LocaleRecommender :=
  {| Locale.top_addons_per_locale := Some (Some table) |}.

(** The same after a failed download. *)
Definition failed : Locale.LocaleRecommender :=
  {| Locale.top_addons_per_locale := Some None |}.

(** A profile without [os], and a manager of the last two recommenders of
    the default tuple whose fetcher returns it. *)
Definition partial_profile : dict := delete "os" Example.profile.

Definition manager : RecommendationManager (world * Locale.LocaleRecommender) :=
  {| profile_fetcher_get := fun _ => mret (Some partial_profile);
     recommenders := similarity_then_locale stable_argsort |}.

End LocaleCases.

Module NaNCases.

(** A donor list whose second record has no [total_uri], and the world after
    [__init__] with it. *)
Definition pool : list dict :=
  [ Example.donor "Berlin" "de" "Linux" 10 2 3 40 5 1%positive;
    delete "total_uri" (Example.donor "Berlin" "en" "Linux" 10 2 3 40 5 2%positive) ].

Definition ready : world := (init (Some pool) (Some Example.curve) Example.fresh_world).2.

End NaNCases.

(** * Part II: lemmas *)

(** ** Facts about binary64 comparison and arithmetic

  All of them are read off the specification of the primitive operations
  ([FloatAxioms]) by case analysis on the specification floats. *)

Module FloatFacts.
#[local] Open Scope float_scope.

Ltac sf_cases :=
  repeat match goal with s : bool |- _ => destruct s end;
  simpl in *;
  repeat match goal with
  | H : context [Z.compare ?a ?b] |- _ =>
      destruct (Z.compare_spec a b); simpl in *
  | |- context [Z.compare ?a ?b] =>
      destruct (Z.compare_spec a b); simpl in *
  | H : context [Pos.compare_cont Eq ?a ?b] |- _ =>
      change (Pos.compare_cont Eq a b) with (Pos.compare a b) in *;
      destruct (Pos.compare_spec a b); simpl in *
  | |- context [Pos.compare_cont Eq ?a ?b] =>
      change (Pos.compare_cont Eq a b) with (Pos.compare a b) in *;
      destruct (Pos.compare_spec a b); simpl in *
  end;
  try congruence; try lia.

Ltac to_spec :=
  unfold is_nan in *;
  rewrite ?FloatAxioms.eqb_spec, ?FloatAxioms.leb_spec, ?FloatAxioms.ltb_spec,
    ?opp_spec in *;
  unfold SFeqb, SFleb, SFltb in *.

Lemma ltb_trans x y z :
  (x <? y) = true -> (y <? z) = true -> (x <? z) = true.
Proof.
  to_spec.
  destruct (Prim2SF x), (Prim2SF y), (Prim2SF z); simpl; try congruence; sf_cases.
Qed.

Lemma ltb_leb_trans x y z :
  (x <? y) = true -> (y <=? z) = true -> (x <? z) = true.
Proof.
  to_spec.
  destruct (Prim2SF x), (Prim2SF y), (Prim2SF z); simpl; try congruence; sf_cases.
Qed.

Lemma leb_trans x y z :
  (x <=? y) = true -> (y <=? z) = true -> (x <=? z) = true.
Proof.
  to_spec.
  destruct (Prim2SF x), (Prim2SF y), (Prim2SF z); simpl; try congruence; sf_cases.
Qed.

Lemma ltb_leb x y : (x <? y) = true -> (x <=? y) = true.
Proof.
  to_spec. destruct (Prim2SF x), (Prim2SF y); simpl; try congruence; sf_cases.
Qed.

Lemma ltb_irrefl x : (x <? x) = false.
Proof. to_spec. destruct (Prim2SF x); simpl; try congruence; sf_cases. Qed.

Lemma leb_refl x : is_nan x = false -> (x <=? x) = true.
Proof.
  intros H. to_spec. destruct (Prim2SF x); simpl in *; try congruence; sf_cases.
Qed.

(** Without NaN the order is total: [not (y >= x)] is [y < x]. *)
Lemma leb_false_ltb x y :
  is_nan x = false -> is_nan y = false -> (x <=? y) = false -> (y <? x) = true.
Proof.
  intros Hx Hy H. to_spec.
  destruct (Prim2SF x), (Prim2SF y); simpl in *; try congruence; sf_cases.
Qed.

Lemma leb_true_ltb x y : (x <=? y) = true -> (y <? x) = false.
Proof.
  intros H. to_spec.
  destruct (Prim2SF x), (Prim2SF y); simpl in *; try congruence; sf_cases.
Qed.

Lemma ltb_not_nan x y : (x <? y) = true -> is_nan x = false /\ is_nan y = false.
Proof.
  intros H. to_spec.
  destruct (Prim2SF x), (Prim2SF y); simpl in *; try congruence; split; sf_cases.
Qed.

(** Negation reverses the order. *)
Lemma ltb_opp x y : (- x <? - y) = (y <? x).
Proof.
  to_spec. destruct (Prim2SF x), (Prim2SF y); simpl; try congruence; sf_cases.
Qed.

Lemma eqb_sym x y : (x =? y) = (y =? x).
Proof.
  to_spec. destruct (Prim2SF x), (Prim2SF y); simpl; try congruence; sf_cases.
Qed.

(** Rounding does not look at the sign, so [|x - y|] and [|y - x|] are the
    same float, and addition commutes. *)
Lemma SFabs_round s m e l :
  SFabs (binary_round_aux prec emax s m e l)
  = SFabs (binary_round_aux prec emax false m e l).
Proof.
  unfold binary_round_aux.
  destruct (shr_fexp _ _ _ _ _) as [mrs e'].
  destruct (shr_fexp _ _ _ _ _) as [mrs' e''].
  destruct (shr_m mrs'); simpl; auto.
  destruct (Z.leb _ _); reflexivity.
Qed.

Lemma SFabs_normalize m e b :
  SFabs (binary_normalize prec emax (- m) e b)
  = SFabs (binary_normalize prec emax m e b).
Proof.
  destruct m; simpl; auto; unfold binary_round;
    destruct (shl_align _ _ _); rewrite (SFabs_round true); reflexivity.
Qed.

Lemma abs_sub_sym x y : abs (x - y) = abs (y - x).
Proof.
  apply Prim2SF_inj. rewrite !abs_spec, !sub_spec. unfold SF64sub, SFsub.
  destruct (Prim2SF x) as [[]|[]| |sx mx ex], (Prim2SF y) as [[]|[]| |sy my ey];
    simpl; try reflexivity.
  rewrite (Z.min_comm ey ex), <- SFabs_normalize. do 2 f_equal. lia.
Qed.

Lemma add_comm x y : x + y = y + x.
Proof.
  apply Prim2SF_inj. rewrite !add_spec. unfold SF64add, SFadd.
  destruct (Prim2SF x) as [[]|[]| |sx mx ex], (Prim2SF y) as [[]|[]| |sy my ey];
    simpl; try reflexivity.
  rewrite (Z.min_comm ey ex). f_equal. lia.
Qed.
End FloatFacts.
Import FloatFacts.

(** ** Running monadic code *)

Lemma bind_run {S A B} (m : M S A) (f : A -> M S B) (s : S) :
  (m ≫= f) s
  = match m s with
    | (Ok a, s') => f a s'
    | (Raise e, s') => (Raise e, s')
    end.
Proof. reflexivity. Qed.

Lemma ret_run {S A} (a : A) (s : S) : (mret a : M S A) s = (Ok a, s).
Proof. reflexivity. Qed.

Lemma bind_ok {S A B} (m : M S A) (f : A -> M S B) (s s' : S) (a : A) :
  m s = (Ok a, s') -> (m ≫= f) s = f a s'.
Proof. intros H. rewrite bind_run, H. reflexivity. Qed.

Lemma bind_raise {S A B} (m : M S A) (f : A -> M S B) (s s' : S) (e : exn) :
  m s = (Raise e, s') -> (m ≫= f) s = (Raise e, s').
Proof. intros H. rewrite bind_run, H. reflexivity. Qed.

Lemma attr_run {A} (name : SimilarityRecommender -> option A) (w : world) (v : A) :
  name (self w) = Some v -> attr name w = (Ok v, w).
Proof. intros H. unfold attr. rewrite H. reflexivity. Qed.

(** A computation that only reads the object: the world is left as it was and
    the outcome is a function of the attributes. *)
Definition reads_self {A} (m : M world A) : Prop :=
  (forall w, (m w).2 = w) /\ (forall w w', self w = self w' -> (m w).1 = (m w').1).

Lemma reads_self_ret {A} (a : A) : reads_self (mret a).
Proof. split; reflexivity. Qed.

Lemma reads_self_raise {A} (e : exn) : reads_self (raise e : M world A).
Proof. split; reflexivity. Qed.

Lemma reads_self_lift {A} (r : result A) : reads_self (lift r).
Proof. split; reflexivity. Qed.

Lemma reads_self_attr {A} (name : SimilarityRecommender -> option A) : reads_self (attr name).
Proof.
  split.
  - intros w. unfold attr. destruct (name (self w)); reflexivity.
  - intros w w' H. unfold attr. rewrite H. destruct (name (self w')); reflexivity.
Qed.

Lemma reads_self_index {A} (l : list A) (i : nat) : reads_self (index l i).
Proof. unfold index. destruct (l !! i); [apply reads_self_ret | apply reads_self_raise]. Qed.

Lemma reads_self_bind {A B} (m : M world A) (f : A -> M world B) :
  reads_self m -> (forall a, reads_self (f a)) -> reads_self (m ≫= f).
Proof.
  intros [Hm1 Hm2] Hf. split.
  - intros w. rewrite bind_run. specialize (Hm1 w).
    destruct (m w) as [[a|e] w1]; simpl in *; subst; [apply Hf | reflexivity].
  - intros w w' Hs. rewrite !bind_run.
    pose proof (Hm1 w) as H1. pose proof (Hm1 w') as H1'. specialize (Hm2 w w' Hs).
    destruct (m w) as [[a|e] w1], (m w') as [[a'|e'] w1']; simpl in *; subst;
      try congruence.
    inversion Hm2; subst. apply Hf, Hs.
Qed.

Lemma reads_self_list_comp {A B} (f : A -> M world B) (l : list A) :
  (forall a, reads_self (f a)) -> reads_self (list_comp f l).
Proof.
  intros Hf. induction l as [|x l IH]; simpl.
  - apply reads_self_ret.
  - apply reads_self_bind; [apply Hf|]. intros y.
    apply reads_self_bind; [apply IH|]. intros ys. apply reads_self_ret.
Qed.

Lemma reads_self_get_lr (score : float) : reads_self (get_lr score).
Proof.
  unfold get_lr.
  apply reads_self_bind; [apply reads_self_attr|]. intros cache.
  apply reads_self_bind; [apply reads_self_lift|]. intros idx.
  apply reads_self_bind; [apply reads_self_attr|]. intros [curves|];
    [|apply reads_self_raise].
  apply reads_self_bind; [apply reads_self_index|]. intros point. simpl.
  destruct (_ =? _)%float; [apply reads_self_raise | apply reads_self_ret].
Qed.

Lemma reads_self_get_similar_donors argsort (client_data : dict) :
  reads_self (get_similar_donors argsort client_data).
Proof.
  unfold get_similar_donors.
  apply reads_self_bind; [apply reads_self_attr|]. intros XA.
  apply reads_self_bind; [apply reads_self_lift|]. intros y.
  apply reads_self_bind; [apply reads_self_attr|]. intros XC.
  apply reads_self_bind; [apply reads_self_attr|]. intros n.
  apply reads_self_bind.
  { apply reads_self_list_comp. intros i.
    apply reads_self_bind; [apply reads_self_index|]. intros d. apply reads_self_get_lr. }
  intros lrs.
  apply reads_self_bind; [apply reads_self_list_comp; intros; apply reads_self_index|].
  intros ranking. apply reads_self_ret.
Qed.

(** ** The constructor *)

Lemma upd_continuous_features_id (s : SimilarityRecommender) (m : list (list float)) :
  continuous_features s = Some m -> upd_continuous_features m s = s.
Proof. destruct s; simpl; intros ->; reflexivity. Qed.

Lemma upd_categorical_features_id (s : SimilarityRecommender) (m : list (list value)) :
  categorical_features s = Some m -> upd_categorical_features m s = s.
Proof. destruct s; simpl; intros ->; reflexivity. Qed.

Lemma fill_continuous_cons (idx : nat) (d : dict) (ds : list dict) :
  fill_continuous idx (d :: ds)
  = (row ← lift (continuous_row d);
     m ← attr continuous_features;
     set_continuous_features (<[idx := row]> m);;
     fill_continuous (S idx) ds).
Proof. reflexivity. Qed.

Lemma fill_continuous_ok (ds : list dict) :
  forall (idx : nat) (w w' : world) (m : list (list float)),
    fill_continuous idx ds w = (Ok tt, w') ->
    continuous_features (self w) = Some m ->
    idx + length ds <= length m ->
    exists rows,
      Forall2 (fun d row => continuous_row d = Ok row) ds rows
      /\ self w' = upd_continuous_features
                     (take idx m ++ rows ++ drop (idx + length ds) m) (self w)
      /\ heap w' = heap w /\ logged w' = logged w.
Proof.
  induction ds as [|d ds IH]; intros idx w w' m Hrun Hm Hlen.
  - inversion Hrun; subst. exists []. split; [constructor|].
    rewrite Nat.add_0_r. simpl. rewrite take_drop. rewrite upd_continuous_features_id; auto.
  - rewrite fill_continuous_cons, bind_run in Hrun. unfold lift in Hrun at 1.
    destruct (continuous_row d) as [row|e] eqn:Hrow; [|discriminate].
    rewrite bind_run, (attr_run _ _ _ Hm) in Hrun.
    rewrite bind_run in Hrun. cbn [set_continuous_features modify] in Hrun.
    apply IH with (m := <[idx := row]> m) in Hrun; [|reflexivity|].
    2:{ rewrite length_insert. simpl in Hlen. lia. }
    destruct Hrun as (rows & Hrows & Hself & Hheap & Hlog).
    exists (row :: rows). split; [constructor; auto|].
    split; [|auto].
    rewrite Hself. cbn [with_self self]. unfold upd_continuous_features; simpl. do 2 f_equal.
    simpl in Hlen.
    rewrite (take_S_r _ _ row) by (apply list_lookup_insert_eq; lia).
    rewrite take_insert_ge by lia.
    rewrite drop_insert_lt by lia.
    rewrite <- app_assoc, Nat.add_succ_r. reflexivity.
Qed.

Lemma fill_categorical_cons (idx : nat) (d : dict) (ds : list dict) :
  fill_categorical idx (d :: ds)
  = (m ← attr categorical_features;
     set_categorical_features (<[idx := categorical_row d]> m);;
     fill_categorical (S idx) ds).
Proof. reflexivity. Qed.

Lemma fill_categorical_ok (ds : list dict) :
  forall (idx : nat) (w : world) (m : list (list value)),
    categorical_features (self w) = Some m ->
    idx + length ds <= length m ->
    exists w',
      fill_categorical idx ds w = (Ok tt, w')
      /\ self w' = upd_categorical_features
                     (take idx m ++ (categorical_row <$> ds) ++ drop (idx + length ds) m)
                     (self w)
      /\ heap w' = heap w /\ logged w' = logged w.
Proof.
  induction ds as [|d ds IH]; intros idx w m Hm Hlen.
  - exists w. split; [reflexivity|].
    rewrite Nat.add_0_r. simpl. rewrite take_drop, upd_categorical_features_id; auto.
  - rewrite fill_categorical_cons, bind_run, (attr_run _ _ _ Hm), bind_run.
    cbn [set_categorical_features modify]. simpl in Hlen.
    destruct (IH (S idx) (with_self (upd_categorical_features (<[idx:=categorical_row d]> m)) w)
                (<[idx := categorical_row d]> m)) as (w' & Hrun & Hself & Hheap & Hlog);
      [reflexivity | rewrite length_insert; lia |].
    exists w'. split; [exact Hrun|]. split; [|auto].
    rewrite Hself. cbn [with_self self]. unfold upd_categorical_features; simpl. do 2 f_equal.
    rewrite (take_S_r _ _ (categorical_row d)) by (apply list_lookup_insert_eq; lia).
    rewrite take_insert_ge by lia.
    rewrite drop_insert_lt by lia.
    rewrite <- app_assoc, Nat.add_succ_r. reflexivity.
Qed.

Lemma init_ok (pool : list dict) (curves : list curve_point) (w w' : world) :
  init (Some pool) (Some curves) w = (Ok tt, w') ->
  exists rows,
    Forall2 (fun d row => continuous_row d = Ok row) pool rows
    /\ self w' = built pool curves rows
    /\ heap w' = heap w /\ logged w' = logged w.
Proof.
  unfold init. intros Hrun.
  rewrite bind_run in Hrun. cbn [set_donors_pool modify] in Hrun.
  cbv iota in Hrun.
  rewrite bind_run, ret_run, bind_run in Hrun. cbn [set_lr_curves modify] in Hrun.
  cbv iota in Hrun.
  rewrite bind_run, ret_run in Hrun.
  unfold build_features_caches in Hrun.
  rewrite bind_run in Hrun. erewrite attr_run in Hrun by reflexivity.
  cbv iota in Hrun.
  rewrite bind_run in Hrun. erewrite attr_run in Hrun by reflexivity.
  cbv iota in Hrun.
  rewrite bind_run in Hrun. cbn [set_num_donors modify] in Hrun.
  rewrite bind_run in Hrun. cbn [set_continuous_features modify] in Hrun.
  rewrite bind_run in Hrun.
  match type of Hrun with context [fill_continuous 0 pool ?w0] =>
    destruct (fill_continuous 0 pool w0) as [[[]|e] w1] eqn:Hfill; [|discriminate];
    apply fill_continuous_ok
      with (m := replicate (length pool) (replicate (length CONTINUOUS_FEATURES) 0%float))
      in Hfill; [|reflexivity|rewrite length_replicate; lia]
  end.
  destruct Hfill as (rows & Hrows & Hself1 & Hheap1 & Hlog1).
  rewrite bind_run in Hrun. cbn [set_categorical_features modify] in Hrun.
  rewrite bind_run in Hrun.
  match type of Hrun with context [fill_categorical 0 pool ?w0] =>
    destruct (fill_categorical_ok pool 0 w0
      (replicate (length pool) (replicate (length CATEGORICAL_FEATURES) (VNum 0))))
      as (w2 & Hrun2 & Hself2 & Hheap2 & Hlog2);
      [reflexivity|rewrite length_replicate; lia|]
  end.
  rewrite Hrun2 in Hrun. cbn [set_lr_curves_cache modify] in Hrun.
  inversion Hrun; subst w'; clear Hrun.
  exists rows. split; [exact Hrows|].
  cbn [with_self self heap logged]. rewrite Hself2, Hheap2, Hlog2.
  cbn [with_self self heap logged]. rewrite Hself1, Hheap1, Hlog1.
  cbn [with_self self heap logged].
  split; [|auto].
  unfold built, upd_lr_curves_cache, upd_categorical_features, upd_continuous_features,
    upd_num_donors, upd_lr_curves, upd_donors_pool; simpl.
  apply Forall2_length in Hrows.
  rewrite !drop_ge, !app_nil_r by (rewrite length_replicate; lia).
  reflexivity.
Qed.

(** ** [can_recommend] *)

Lemma can_recommend_run (client_data : dict) (w : world)
    (pool : option (list dict)) (curves : option (list curve_point)) :
  donors_pool (self w) = Some pool ->
  lr_curves (self w) = Some curves ->
  can_recommend client_data w
  = match pool, curves with
    | Some _, Some _ =>
        if has_required_fields client_data
        then (Ok true, w)
        else (Ok false,
              with_logged (fun l => l ++ [{| log_level := ERROR;
                                             log_msg := "Unusable client data encountered";
                                             log_extra := [] |}]) w)
    | _, _ => (Ok false, w)
    end.
Proof.
  intros Hp Hc. unfold can_recommend.
  rewrite bind_run, (attr_run _ _ _ Hp). destruct pool as [pool|]; [|reflexivity].
  rewrite bind_run, (attr_run _ _ _ Hc). destruct curves as [curves|]; [|reflexivity].
  fold (has_required_fields client_data).
  destruct (has_required_fields client_data); reflexivity.
Qed.

(** The payload attributes are assigned first and never again: the caches
    are the only attributes that the rest of the constructor touches. *)
Definition same_payload (s s' : SimilarityRecommender) : Prop :=
  donors_pool s' = donors_pool s /\ lr_curves s' = lr_curves s.

Lemma fill_continuous_payload (ds : list dict) :
  forall idx w, same_payload (self w) (self (fill_continuous idx ds w).2).
Proof.
  induction ds as [|d ds IH]; intros idx w; [split; reflexivity|].
  rewrite fill_continuous_cons, bind_run. unfold lift at 1.
  destruct (continuous_row d); [|split; reflexivity].
  rewrite bind_run. unfold attr at 1.
  destruct (continuous_features (self w)); [|split; reflexivity].
  rewrite bind_run. cbn [set_continuous_features modify].
  destruct (IH (S idx) (with_self (upd_continuous_features (<[idx:=a]> l)) w)) as [H1 H2].
  split; [rewrite H1|rewrite H2]; reflexivity.
Qed.

Lemma fill_categorical_payload (ds : list dict) :
  forall idx w, same_payload (self w) (self (fill_categorical idx ds w).2).
Proof.
  induction ds as [|d ds IH]; intros idx w; [split; reflexivity|].
  rewrite fill_categorical_cons, bind_run. unfold attr at 1.
  destruct (categorical_features (self w)); [|split; reflexivity].
  rewrite bind_run. cbn [set_categorical_features modify].
  destruct (IH (S idx) (with_self (upd_categorical_features (<[idx:=categorical_row d]> l)) w))
    as [H1 H2].
  split; [rewrite H1|rewrite H2]; reflexivity.
Qed.

Lemma build_features_caches_payload (w : world) :
  same_payload (self w) (self (build_features_caches w).2).
Proof.
  unfold build_features_caches. rewrite bind_run. unfold attr at 1.
  destruct (donors_pool (self w)) as [[pool|]|]; try (split; reflexivity).
  rewrite bind_run. unfold attr at 1.
  destruct (lr_curves (self w)) as [[curves|]|]; try (split; reflexivity).
  rewrite bind_run. cbn [set_num_donors modify].
  rewrite bind_run. cbn [set_continuous_features modify].
  rewrite bind_run.
  match goal with |- context [fill_continuous 0 pool ?w0] =>
    pose proof (fill_continuous_payload pool 0 w0) as [H1 H2];
    destruct (fill_continuous 0 pool w0) as [[[]|e] w1]
  end; cbn [snd] in *; [|split; [rewrite H1|rewrite H2]; reflexivity].
  cbn in H1, H2.
  rewrite bind_run. cbn [set_categorical_features modify].
  rewrite bind_run.
  match goal with |- context [fill_categorical 0 pool ?w0] =>
    pose proof (fill_categorical_payload pool 0 w0) as [H3 H4];
    destruct (fill_categorical 0 pool w0) as [[[]|e] w2]
  end; cbn [snd] in *.
  - unfold same_payload. cbn in *.
    split; [rewrite H3, H1|rewrite H4, H2]; reflexivity.
  - unfold same_payload. cbn in *.
    split; [rewrite H3, H1|rewrite H4, H2]; reflexivity.
Qed.

Lemma init_payload (donors : option (list dict)) (curves : option (list curve_point))
    (w : world) :
  donors_pool (self (init donors curves w).2) = Some donors
  /\ lr_curves (self (init donors curves w).2) = Some curves.
Proof.
  unfold init. rewrite bind_run. cbn [set_donors_pool modify].
  set (w1 := with_self (upd_donors_pool donors) w).
  rewrite bind_run.
  assert (exists w2, ((if donors is None
            then logger ERROR ("Cannot download the donor list: " +:+ DONOR_LIST_KEY) []
            else mret tt) : M world unit) w1 = (Ok tt, w2) /\ self w2 = self w1)
    as (w2 & -> & Hw2) by (destruct donors; eexists; split; reflexivity).
  rewrite bind_run. cbn [set_lr_curves modify].
  set (w3 := with_self (upd_lr_curves curves) w2).
  rewrite bind_run.
  assert (exists w4, ((if curves is None
            then logger ERROR ("Cannot download the lr curves: "
                               +:+ LR_CURVES_SIMILARITY_TO_PROBABILITY) []
            else mret tt) : M world unit) w3 = (Ok tt, w4) /\ self w4 = self w3)
    as (w4 & -> & Hw4) by (destruct curves; eexists; split; reflexivity).
  destruct (build_features_caches_payload w4) as [H1 H2].
  rewrite H1, H2, Hw4. subst w3. cbn [with_self self upd_lr_curves donors_pool lr_curves].
  rewrite Hw2. subst w1. split; reflexivity.
Qed.



(** ** [argmin] and [get_lr] *)

Lemma argmin_from_spec (l : list float) :
  forall (pre : list float) (mp : float) (min_ind : nat),
    Forall (fun x => is_nan x = false) (pre ++ l) ->
    first_least pre min_ind ->
    pre !! min_ind = Some mp ->
    first_least (pre ++ l) (argmin_from mp min_ind (length pre) l).
Proof.
  induction l as [|x l IH]; intros pre mp min_ind Hnan Hfl Hmp; simpl.
  - rewrite app_nil_r. exact Hfl.
  - assert (Hx : is_nan x = false).
    { rewrite Forall_app, Forall_cons in Hnan. tauto. }
    assert (Hmpn : is_nan mp = false).
    { rewrite Forall_app in Hnan. destruct Hnan as [Hpre _].
      rewrite Forall_lookup in Hpre. eauto. }
    destruct Hfl as (xk & Hk & Hle & Hlt). assert (xk = mp) by congruence. subst xk.
    replace (pre ++ x :: l) with ((pre ++ [x]) ++ l) in * by (rewrite <- app_assoc; reflexivity).
    replace (S (length pre)) with (length (pre ++ [x])) by (rewrite length_app; simpl; lia).
    destruct (mp <=? x)%float eqn:Hcmp; simpl.
    + apply IH; auto.
      * exists mp. split; [apply lookup_app_l_Some; auto|]. split.
        -- intros j xj Hj. apply lookup_app_Some in Hj as [Hj|[_ Hj]]; [eauto|].
           apply list_lookup_singleton_Some in Hj as [_ <-]. exact Hcmp.
        -- intros j xj Hjk Hj. apply lookup_app_Some in Hj as [Hj|[Hge _]]; [eauto|].
           apply lookup_lt_Some in Hk. lia.
      * apply lookup_app_l_Some; auto.
    + rewrite Hx. apply leb_false_ltb in Hcmp; auto.
      replace (length pre) with (length pre + 0) at 1 by lia.
      apply IH; auto.
      * exists x. split; [rewrite Nat.add_0_r; apply list_lookup_middle; reflexivity|]. split.
        -- intros j xj Hj. apply lookup_app_Some in Hj as [Hj|[_ Hj]].
           ++ apply ltb_leb. eapply ltb_leb_trans; eauto.
           ++ apply list_lookup_singleton_Some in Hj as [_ <-]. apply leb_refl; auto.
        -- intros j xj Hjk Hj. apply lookup_app_Some in Hj as [Hj|[Hge _]]; [|lia].
           eapply ltb_leb_trans; eauto.
      * rewrite Nat.add_0_r. apply list_lookup_middle. reflexivity.
Qed.

Lemma argmin_first_least (l : list float) :
  l <> [] ->
  Forall (fun x => is_nan x = false) l ->
  exists k, argmin l = Ok k /\ first_least l k.
Proof.
  destruct l as [|x l]; [congruence|]. intros _ Hnan.
  assert (Hx : is_nan x = false) by (inversion Hnan; auto).
  simpl. rewrite Hx. eexists. split; [reflexivity|].
  apply (argmin_from_spec l [x] x 0); auto.
  exists x. split; [reflexivity|]. split.
  - intros [|j] xj Hj; simpl in Hj; [|rewrite lookup_nil in Hj; discriminate].
    inversion Hj; subst. apply leb_refl; auto.
  - intros j xj Hj. lia.
Qed.

Lemma get_lr_run (score : float) (w : world) (cache : list float) (curves : list curve_point)
    (k : nat) (pt : curve_point) :
  lr_curves_cache (self w) = Some cache ->
  lr_curves (self w) = Some (Some curves) ->
  argmin ((fun c => abs (score - c)%float) <$> cache) = Ok k ->
  curves !! k = Some pt ->
  get_lr score w
  = (if (pt.2.2 =? 0)%float then Raise ZeroDivisionError else Ok (pt.2.1 / pt.2.2)%float, w).
Proof.
  intros Hcache Hcurves Hk Hpt. unfold get_lr.
  rewrite bind_run, (attr_run _ _ _ Hcache), bind_run. unfold lift at 1. rewrite Hk.
  rewrite bind_run, (attr_run _ _ _ Hcurves). cbv iota.
  rewrite bind_run. unfold index. rewrite Hpt, ret_run.
  destruct (_ =? _)%float; reflexivity.
Qed.

(** ** [get_similar_donors] *)

Lemma list_comp_reads {A B} (f : A -> M world B) (l : list A) (w : world) :
  (forall a, reads_self (f a)) ->
  list_comp f l w = (mapM (fun a => (f a w).1) l, w).
Proof.
  intros Hf. induction l as [|x l IH]; [reflexivity|].
  cbn [list_comp mapM]. rewrite bind_run.
  destruct (Hf x) as [Hw _]. specialize (Hw w).
  destruct (f x w) as [[y|e] w1]; cbn [fst snd] in *; subst w1; [|reflexivity].
  rewrite bind_run, IH.
  destruct (mapM _ l) as [ys|e]; reflexivity.
Qed.

Lemma index_run {S A} (l : list A) (i : nat) (x : A) (s : S) :
  l !! i = Some x -> index l i s = (Ok x, s).
Proof. intros H. unfold index. rewrite H. reflexivity. Qed.

Lemma result_bind_ok {A B} (a : A) (f : A -> result B) : (Ok a ≫= f) = f a.
Proof. reflexivity. Qed.

Lemma result_bind_raise {A B} (e : exn) (f : A -> result B) : (Raise e ≫= f) = Raise e.
Proof. reflexivity. Qed.

Lemma donor_lr_run (w : world) (client_data d : dict) (x : float) :
  donor_distance client_data d = Ok x -> donor_lr w client_data d = (get_lr x w).1.
Proof. intros H. unfold donor_lr. rewrite H. reflexivity. Qed.

Lemma distances_donor_distance (client_data : dict) (y : list float)
    (pool : list dict) (rows : list (list float)) :
  client_continuous client_data = Ok y ->
  Forall2 (fun d row => continuous_row d = Ok row) pool rows ->
  Forall2 (fun d x => donor_distance client_data d = Ok x) pool
    (zip_with (fun c h => (c + 0.001) * h)%float
       (cdist rows y canberra)
       (cdist (categorical_row <$> pool) (client_categorical client_data)
          (fun x y => hamming x y))).
Proof.
  intros Hy Hrows. induction Hrows as [|d row pool rows Hd _ IH]; [constructor|].
  cbn [cdist fmap list_fmap map zip_with]. constructor; [|exact IH].
  unfold donor_distance. rewrite Hy, Hd. reflexivity.
Qed.

Lemma mapM_result_ext {A B} (f g : A -> result B) (l : list A) :
  (forall a, f a = g a) -> mapM f l = mapM g l.
Proof.
  intros H. induction l as [|x l IH]; [reflexivity|].
  cbn [mapM]. rewrite H, IH. reflexivity.
Qed.

Lemma mapM_donor_lr (w : world) (client_data : dict) (pool : list dict) (ds : list float) :
  Forall2 (fun d x => donor_distance client_data d = Ok x) pool ds ->
  mapM (fun i => (( d ← index ds i; get_lr d) w).1) (seq 0 (length pool))
  = mapM (donor_lr w client_data) pool.
Proof.
  intros H.
  assert (Hgen : forall pre : list float,
    mapM (fun i => (( d ← index (pre ++ ds) i; get_lr d) w).1) (seq (length pre) (length pool))
    = mapM (donor_lr w client_data) pool).
  { induction H as [|d x pool ds Hd _ IH]; intros pre; [reflexivity|].
    cbn [length seq mapM]. rewrite bind_run.
    rewrite (index_run _ _ x) by (apply list_lookup_middle; reflexivity).
    rewrite (donor_lr_run w client_data d x Hd).
    destruct (get_lr x w) as [[lr|e] w1]; [|reflexivity]. cbn [fst mbind result_bind].
    specialize (IH (pre ++ [x])). rewrite <- app_assoc, length_app in IH.
    cbn [length app] in IH. rewrite Nat.add_1_r in IH. rewrite IH; reflexivity. }
  apply (Hgen []).
Qed.

Lemma get_similar_donors_run argsort (client_data : dict) (w : world)
    (pool : list dict) (curves : list curve_point) (rows : list (list float)) :
  self w = built pool curves rows ->
  Forall2 (fun d row => continuous_row d = Ok row) pool rows ->
  get_similar_donors argsort client_data w
  = (similar_donors argsort w client_data pool, w).
Proof.
  intros Hself Hrows. unfold get_similar_donors, similar_donors.
  rewrite bind_run, (attr_run _ _ rows) by (rewrite Hself; reflexivity).
  rewrite bind_run. unfold lift at 1. fold (client_continuous client_data).
  destruct (client_continuous client_data) as [y|e] eqn:Hy; [|reflexivity].
  rewrite bind_run, (attr_run _ _ (categorical_row <$> pool)) by (rewrite Hself; reflexivity).
  rewrite bind_run, (attr_run _ _ (length pool)) by (rewrite Hself; reflexivity).
  rewrite bind_run, list_comp_reads.
  2:{ intros i. apply reads_self_bind; [apply reads_self_index|].
      intros d. apply reads_self_get_lr. }
  fold (client_categorical client_data).
  rewrite (mapM_donor_lr w client_data pool) by (apply distances_donor_distance; auto).
  rewrite result_bind_ok.
  destruct (mapM (donor_lr w client_data) pool) as [lrs|e]; [|reflexivity].
  rewrite result_bind_ok.
  rewrite bind_run, list_comp_reads by (intros; apply reads_self_index).
  rewrite (mapM_result_ext _ (lookup_result lrs)).
  2:{ intros i. unfold index, lookup_result. destruct (lrs !! i); reflexivity. }
  destruct (mapM (lookup_result lrs) _) as [ranking|e]; reflexivity.
Qed.

(** ** The loop of [recommend] *)

Lemma world_eta (w : world) :
  w = {| self := self w; heap := heap w; logged := logged w |}.
Proof. destruct w; reflexivity. Qed.

Lemma iterate_run (h0 : gmap loc (list string)) (r : loc) (d : dict) (v : value) (w : world) :
  d !! "active_addons" = Some v ->
  (forall l, v = VList l -> heap w !! l = h0 !! l) ->
  iterate v w = (active_addons h0 d, w).
Proof.
  intros Hv Hl. unfold active_addons. rewrite Hv.
  destruct v as [|x|s|l]; try reflexivity.
  unfold iterate, list_read, gets. rewrite (Hl l eq_refl). reflexivity.
Qed.

Lemma list_len_run (r : loc) (w : world) (l : list string) :
  heap w !! r = Some l -> list_len r w = (Ok (length l), w).
Proof.
  intros H. unfold list_len. rewrite bind_run. unfold list_read, gets. rewrite H. reflexivity.
Qed.

Lemma extend_loop_gather (pool : list dict) (h0 : gmap loc (list string)) (r : loc)
    (limit : Z) (idxs : list nat) :
  forall (w : world) (acc : list string),
    donors_pool (self w) = Some (Some pool) ->
    heap w !! r = Some acc ->
    (forall l, l <> r -> heap w !! l = h0 !! l) ->
    (forall d l, d ∈ pool -> d !! "active_addons" = Some (VList l) -> l <> r) ->
    extend_loop r limit idxs w
    = ((gather pool h0 limit acc idxs).1,
       with_heap (insert r (gather pool h0 limit acc idxs).2) w).
Proof.
  induction idxs as [|i idxs IH]; intros w acc Hpool Hr Hh Halias.
  - cbn [extend_loop gather fst snd]. rewrite ret_run. f_equal.
    rewrite (world_eta w) at 1. unfold with_heap. f_equal.
    symmetry. apply insert_id. exact Hr.
  - cbn [extend_loop gather]. rewrite bind_run, (attr_run _ _ _ Hpool). cbv iota.
    rewrite bind_run.
    destruct (pool !! i) as [donor|] eqn:Hi.
    2:{ unfold index. rewrite Hi. cbn [fst snd]. unfold raise. f_equal.
        rewrite (world_eta w) at 1. unfold with_heap. f_equal.
        symmetry. apply insert_id. exact Hr. }
    rewrite (index_run _ _ _ _ Hi), bind_run.
    assert (Hin : donor ∈ pool) by (eapply list_elem_of_lookup_2; eauto).
    destruct (donor !! "active_addons") as [v|] eqn:Hv.
    2:{ unfold dict_getitem, active_addons. rewrite Hv. cbn [fst snd]. unfold raise. f_equal.
        rewrite (world_eta w) at 1. unfold with_heap. f_equal.
        symmetry. apply insert_id. exact Hr. }
    unfold dict_getitem at 1. rewrite Hv, ret_run, bind_run.
    rewrite (iterate_run h0 r donor v w Hv).
    2:{ intros l ->. apply Hh. eapply Halias; eauto. }
    destruct (active_addons h0 donor) as [items|e].
    2:{ cbn [fst snd]. f_equal.
        rewrite (world_eta w) at 1. unfold with_heap. f_equal.
        symmetry. apply insert_id. exact Hr. }
    rewrite bind_run. cbn [list_extend modify].
    rewrite bind_run.
    rewrite (list_len_run r _ (acc ++ items))
      by (cbn [with_heap heap]; rewrite lookup_alter_eq, Hr; reflexivity).
    destruct (limit <? Z.of_nat (length (acc ++ items)))%Z.
    + cbn [fst snd]. rewrite ret_run. f_equal. unfold with_heap. cbn [self heap logged].
      f_equal. apply map_eq. intros l. destruct (decide (l = r)) as [->|Hne].
      * rewrite lookup_alter_eq, lookup_insert_eq, Hr. reflexivity.
      * rewrite lookup_alter_ne, lookup_insert_ne by auto. reflexivity.
    + rewrite (IH _ (acc ++ items)); cbn [with_heap self heap logged]; auto.
      * f_equal. unfold with_heap. cbn [self heap logged]. f_equal.
        apply map_eq. intros l. destruct (decide (l = r)) as [->|Hne].
        -- rewrite !lookup_insert_eq. reflexivity.
        -- rewrite !lookup_insert_ne, lookup_alter_ne by auto. reflexivity.
      * rewrite lookup_alter_eq, Hr. reflexivity.
      * intros l Hne. rewrite lookup_alter_ne by auto. auto.
Qed.

Lemma fresh_not_allocated (h : gmap loc (list string)) (l : loc) :
  is_Some (h !! l) -> l <> fresh (dom h).
Proof.
  intros Hl ->. apply elem_of_dom in Hl. exact (is_fresh (dom h) Hl).
Qed.

Lemma fresh_None (h : gmap loc (list string)) : h !! fresh (dom h) = None.
Proof. apply not_elem_of_dom, is_fresh. Qed.

Lemma recommend_run argsort (client_data : dict) (limit : Z) (w : world)
    (pool : list dict) (curves : list curve_point) (rows : list (list float)) :
  self w = built pool curves rows ->
  Forall2 (fun d row => continuous_row d = Ok row) pool rows ->
  closed (heap w) pool ->
  recommend argsort client_data limit w
  = recommend_outcome argsort client_data limit pool w.
Proof.
  intros Hself Hrows Hclosed. unfold recommend, recommend_outcome.
  rewrite bind_run, (get_similar_donors_run argsort client_data w pool curves rows) by auto.
  destruct (similar_donors argsort w client_data pool) as [[ranking indices]|e];
    [|reflexivity].
  rewrite bind_run. destruct ranking as [|top ranking]; [reflexivity|].
  rewrite (index_run _ 0 top) by reflexivity.
  rewrite bind_run.
  set (w1 := if (top <? 2)%float
             then with_logged (fun l => l ++ [low_similarity_warning top]) w else w).
  assert (Hlog : ((if (top <? 2)%float
                   then logger WARNING
                     "Addons recommended with very low similarity score, perhaps donor set is unrepresentative"
                     [("maximum_similarity", VNum top)]
                   else mret tt) : M world unit) w = (Ok tt, w1))
    by (subst w1; destruct (top <? 2)%float; reflexivity).
  rewrite Hlog.
  assert (Hh1 : heap w1 = heap w) by (subst w1; destruct (top <? 2)%float; reflexivity).
  assert (Hs1 : self w1 = self w) by (subst w1; destruct (top <? 2)%float; reflexivity).
  rewrite bind_run. unfold list_new at 1. rewrite Hh1.
  set (r0 := fresh (dom (heap w))).
  set (good := select_good (top :: ranking) indices).
  rewrite bind_run.
  rewrite (extend_loop_gather pool (heap w) r0 limit good _ []).
  - destruct (gather pool (heap w) limit [] good) as [[[]|e] acc]; cbn [fst snd].
    + unfold list_slice_to. rewrite bind_run. unfold list_read, gets, list_new.
      unfold with_heap. cbn [self heap logged]. rewrite lookup_insert_eq.
      cbn [default]. rewrite !Hh1, !insert_insert_eq. reflexivity.
    + unfold with_heap. cbn [self heap logged]. rewrite !Hh1, insert_insert_eq. reflexivity.
  - cbn [with_heap self]. rewrite Hs1, Hself. reflexivity.
  - cbn [with_heap heap]. rewrite Hh1. apply lookup_insert_eq.
  - intros l Hne. cbn [with_heap heap]. rewrite Hh1. apply lookup_insert_ne. auto.
  - intros d l Hd Hl. apply fresh_not_allocated. eapply Hclosed; eauto.
Qed.

(** ** Frame *)

Lemma extend_loop_frame (r : loc) (limit : Z) (idxs : list nat) :
  forall (w w' : world) (res : result unit),
    extend_loop r limit idxs w = (res, w') ->
    self w' = self w /\ logged w' = logged w
    /\ forall l, l <> r -> heap w' !! l = heap w !! l.
Proof.
  induction idxs as [|i idxs IH]; intros w w' res Hrun.
  { inversion Hrun; subst. repeat split; reflexivity. }
  cbn [extend_loop] in Hrun. rewrite bind_run in Hrun. unfold attr at 1 in Hrun.
  destruct (donors_pool (self w)) as [[pool|]|];
    try (inversion Hrun; subst; repeat split; reflexivity).
  rewrite bind_run in Hrun. unfold index at 1 in Hrun.
  destruct (pool !! i) as [donor|];
    [|inversion Hrun; subst; repeat split; reflexivity].
  rewrite ret_run, bind_run in Hrun. unfold dict_getitem at 1 in Hrun.
  destruct (donor !! "active_addons") as [v|];
    [|inversion Hrun; subst; repeat split; reflexivity].
  rewrite ret_run, bind_run in Hrun.
  assert (Hit : (iterate v w).2 = w) by (destruct v; reflexivity).
  destruct (iterate v w) as [[items|e] w1]; cbn [snd] in Hit; subst w1;
    [|inversion Hrun; subst; repeat split; reflexivity].
  rewrite bind_run in Hrun. cbn [list_extend modify] in Hrun. rewrite bind_run in Hrun.
  set (w2 := with_heap (alter (fun l => l ++ items) r) w) in *.
  assert (Hlen : (list_len r w2).2 = w2) by reflexivity.
  assert (Hw2 : self w2 = self w /\ logged w2 = logged w
                /\ forall l, l <> r -> heap w2 !! l = heap w !! l).
  { subst w2. repeat split; try reflexivity.
    intros l Hne. cbn [with_heap heap]. apply lookup_alter_ne. auto. }
  destruct (list_len r w2) as [[n|e] w3]; cbn [snd] in Hlen; subst w3;
    [|inversion Hrun; subst; exact Hw2].
  destruct (limit <? Z.of_nat n)%Z.
  - inversion Hrun; subst. exact Hw2.
  - apply IH in Hrun. destruct Hrun as (H1 & H2 & H3), Hw2 as (H4 & H5 & H6).
    rewrite H1, H2. repeat split; auto.
    intros l Hne. rewrite H3 by auto. auto.
Qed.

Lemma can_recommend_frame (client_data : dict) (w w' : world) (res : result bool) :
  can_recommend client_data w = (res, w') ->
  self w' = self w /\ heap w' = heap w.
Proof.
  intros Hrun. unfold can_recommend in Hrun. rewrite bind_run in Hrun.
  unfold attr at 1 in Hrun.
  destruct (donors_pool (self w)) as [[pool|]|];
    try (inversion Hrun; subst; split; reflexivity).
  rewrite bind_run in Hrun. unfold attr at 1 in Hrun.
  destruct (lr_curves (self w)) as [[curves|]|];
    try (inversion Hrun; subst; split; reflexivity).
  fold (has_required_fields client_data) in Hrun.
  destruct (has_required_fields client_data); inversion Hrun; subst; split; reflexivity.
Qed.

Lemma recommend_frame argsort (client_data : dict) (limit : Z) (w w' : world)
    (res : result loc) :
  recommend argsort client_data limit w = (res, w') ->
  self w' = self w
  /\ (forall l, is_Some (heap w !! l) -> heap w' !! l = heap w !! l)
  /\ (forall r, res = Ok r ->
        heap w !! r = None /\ exists l, heap w' !! r = Some (slice_to l limit)).
Proof.
  intros Hrun. unfold recommend in Hrun. rewrite bind_run in Hrun.
  destruct (reads_self_get_similar_donors argsort client_data) as [Hw _].
  specialize (Hw w).
  destruct (get_similar_donors argsort client_data w) as [[[ranking indices]|e] w0];
    cbn [snd] in Hw; subst w0;
    [|inversion Hrun; subst; repeat split; auto; discriminate].
  rewrite bind_run in Hrun. unfold index at 1 in Hrun.
  destruct (ranking !! 0) as [top|];
    [|inversion Hrun; subst; repeat split; auto; discriminate].
  rewrite ret_run, bind_run in Hrun.
  set (w1 := if (top <? 2)%float
             then with_logged (fun l => l ++ [low_similarity_warning top]) w else w).
  assert (Hlog : ((if (top <? 2)%float
                   then logger WARNING
                     "Addons recommended with very low similarity score, perhaps donor set is unrepresentative"
                     [("maximum_similarity", VNum top)]
                   else mret tt) : M world unit) w = (Ok tt, w1))
    by (subst w1; destruct (top <? 2)%float; reflexivity).
  rewrite Hlog in Hrun.
  assert (Hh1 : heap w1 = heap w) by (subst w1; destruct (top <? 2)%float; reflexivity).
  assert (Hs1 : self w1 = self w) by (subst w1; destruct (top <? 2)%float; reflexivity).
  rewrite bind_run in Hrun. unfold list_new at 1 in Hrun. rewrite Hh1 in Hrun.
  set (r0 := fresh (dom (heap w))) in *.
  rewrite bind_run in Hrun.
  match type of Hrun with context [extend_loop r0 limit ?idxs ?w2] =>
    destruct (extend_loop r0 limit idxs w2) as [[[]|e] w3] eqn:Hloop;
    apply extend_loop_frame in Hloop; cbn [with_heap self heap logged] in Hloop;
    destruct Hloop as (Hs3 & _ & Hh3)
  end.
  2:{ inversion Hrun; subst. rewrite Hs3, Hs1. repeat split; try discriminate; auto.
      intros l Hl. rewrite Hh3 by (apply fresh_not_allocated; auto).
      rewrite Hh1. apply lookup_insert_ne. symmetry. apply fresh_not_allocated; auto. }
  assert (Hold : forall l, is_Some (heap w !! l) -> heap w3 !! l = heap w !! l).
  { intros l Hl. rewrite Hh3 by (apply fresh_not_allocated; auto).
    rewrite Hh1. apply lookup_insert_ne. symmetry. apply fresh_not_allocated; auto. }
  unfold list_slice_to in Hrun. rewrite bind_run in Hrun.
  unfold list_read, gets, list_new in Hrun. inversion Hrun; subst; clear Hrun.
  cbn [with_heap self heap logged]. rewrite Hs3, Hs1.
  split; [reflexivity|]. split.
  - intros l Hl. rewrite lookup_insert_ne; [auto|].
    intros <-. rewrite <- Hold in Hl by auto. apply fresh_not_allocated in Hl. congruence.
  - intros r [= <-]. split; [|rewrite lookup_insert_eq; eauto].
    destruct (heap w !! fresh (dom (heap w3))) eqn:Hf; [|reflexivity].
    assert (Hl : is_Some (heap w !! fresh (dom (heap w3)))) by eauto.
    rewrite <- Hold in Hl by auto. apply fresh_not_allocated in Hl. congruence.
Qed.

(** ** The working list *)

Lemma mapM_result_Ok {A B} (f : A -> result B) (l : list A) (ys : list B) :
  mapM f l = Ok ys <-> Forall2 (fun x y => f x = Ok y) l ys.
Proof.
  revert ys. induction l as [|x l IH]; intros ys.
  - split; [intros [= <-]; constructor | intros H; inversion H; reflexivity].
  - cbn [mapM]. split.
    + destruct (f x) as [y|e] eqn:Hx; [|discriminate]. rewrite result_bind_ok.
      destruct (mapM f l) as [ys'|e] eqn:Hl; [|discriminate].
      intros [= <-]. constructor; [exact Hx|]. apply IH. reflexivity.
    + intros H. inversion H as [|? y ? ys' Hx Hl]; subst.
      rewrite Hx, result_bind_ok. apply IH in Hl. rewrite Hl. reflexivity.
Qed.

Lemma slice_to_take {A} (l : list A) (limit : Z) :
  (0 <= limit)%Z -> slice_to l limit = take (Z.to_nat limit) l.
Proof.
  intros H. unfold slice_to. destruct (limit <? 0)%Z eqn:E; [lia|reflexivity].
Qed.

Lemma slice_to_length {A} (l : list A) (limit : Z) :
  (0 <= limit)%Z -> (Z.of_nat (length (slice_to l limit)) <= limit)%Z.
Proof.
  intros H. rewrite slice_to_take, length_take by auto. lia.
Qed.

Lemma slice_to_elem_of {A} (l : list A) (limit : Z) (a : A) :
  a ∈ slice_to l limit -> a ∈ l.
Proof.
  unfold slice_to. destruct (limit <? 0)%Z; intros H;
    (eapply elem_of_subseteq; [|exact H]); apply subseteq_take.
Qed.

Lemma gather_elem_of (pool : list dict) (h : gmap loc (list string)) (limit : Z)
    (idxs : list nat) :
  forall (acc : list string) (a : string),
    a ∈ (gather pool h limit acc idxs).2 ->
    a ∈ acc \/ exists i d items,
      i ∈ idxs /\ pool !! i = Some d /\ active_addons h d = Ok items /\ a ∈ items.
Proof.
  induction idxs as [|i idxs IH]; intros acc a Ha; cbn [gather] in Ha.
  - left. exact Ha.
  - destruct (pool !! i) as [d|] eqn:Hi; [|left; exact Ha].
    destruct (active_addons h d) as [items|e] eqn:Hd; [|left; exact Ha].
    assert (Hstep : a ∈ acc ++ items ->
      a ∈ acc \/ exists i0 d0 items0, i0 ∈ i :: idxs /\ pool !! i0 = Some d0
        /\ active_addons h d0 = Ok items0 /\ a ∈ items0).
    { intros [H|H]%elem_of_app; [left; exact H|].
      right. exists i, d, items. repeat split; auto. left. }
    destruct (limit <? Z.of_nat (length (acc ++ items)))%Z; [apply Hstep; exact Ha|].
    apply IH in Ha as [Ha|(i0 & d0 & items0 & Hi0 & ?)]; [apply Hstep; exact Ha|].
    right. exists i0, d0, items0. repeat split; try tauto. right. exact Hi0.
Qed.

(** The loop appends whole batches, donor by donor, and stops after the first
    batch that takes the list over the limit. *)
Lemma gather_batches (pool : list dict) (h : gmap loc (list string)) (limit : Z)
    (idxs : list nat) :
  forall acc acc' : list string,
    gather pool h limit acc idxs = (Ok tt, acc') ->
    exists k,
      k <= length idxs
      /\ acc' = acc ++ concat (addons_at h pool <$> take k idxs)
      /\ (k = length idxs \/ (limit < Z.of_nat (length acc'))%Z)
      /\ (forall j, 0 < j < k ->
            (Z.of_nat (length (acc ++ concat (addons_at h pool <$> take j idxs)))
             <= limit)%Z).
Proof.
  induction idxs as [|i idxs IH]; intros acc acc' Hrun; cbn [gather] in Hrun.
  - inversion Hrun; subst. exists 0. cbn. rewrite app_nil_r.
    repeat split; auto. intros j Hj. lia.
  - destruct (pool !! i) as [d|] eqn:Hi; [|discriminate].
    destruct (active_addons h d) as [items|e] eqn:Hd; [|discriminate].
    assert (Hat : addons_at h pool i = items) by (unfold addons_at; rewrite Hi, Hd; reflexivity).
    destruct (limit <? Z.of_nat (length (acc ++ items)))%Z eqn:Hlim.
    + inversion Hrun; subst acc'. exists 1. cbn. rewrite Hat, app_nil_r.
      repeat split; [lia | right; lia | intros j Hj; lia].
    + apply IH in Hrun as (k & Hk & Hacc & Hstop & Hbelow).
      exists (S k). cbn. rewrite Hat, app_assoc.
      repeat split; [lia | exact Hacc | destruct Hstop; [left; lia | right; auto] |].
      intros [|j] Hj; [lia|]. cbn. rewrite Hat, app_assoc.
      destruct j as [|j]; [cbn; rewrite app_nil_r; lia|].
      apply Hbelow. lia.
Qed.

(** Truncation hides where the loop stopped. *)
Lemma gather_slice (pool : list dict) (h : gmap loc (list string)) (limit : Z)
    (idxs : list nat) (acc acc' : list string) :
  (0 <= limit)%Z ->
  gather pool h limit acc idxs = (Ok tt, acc') ->
  slice_to acc' limit
  = take (Z.to_nat limit) (acc ++ concat (addons_at h pool <$> idxs)).
Proof.
  intros Hlimit Hrun. rewrite slice_to_take by auto.
  apply gather_batches in Hrun as (k & Hk & -> & [->|Hover] & _).
  - rewrite (take_ge idxs) by lia. reflexivity.
  - rewrite <- (take_drop k idxs) at 2. rewrite fmap_app, concat_app, app_assoc.
    symmetry. apply take_app_le. lia.
Qed.

Lemma gather_ext (pool : list dict) (h h' : gmap loc (list string)) (limit : Z)
    (idxs : list nat) :
  (forall d, d ∈ pool -> active_addons h d = active_addons h' d) ->
  forall acc, gather pool h limit acc idxs = gather pool h' limit acc idxs.
Proof.
  intros Hext. induction idxs as [|i idxs IH]; intros acc; [reflexivity|].
  cbn [gather]. destruct (pool !! i) as [d|] eqn:Hi; [|reflexivity].
  rewrite <- (Hext d) by (eapply list_elem_of_lookup_2; eauto).
  destruct (active_addons h d); [|reflexivity].
  rewrite IH. reflexivity.
Qed.

(** ** The selection *)

Lemma select_good_elem_of (ranking : list float) (indices : list nat) (i : nat) :
  i ∈ select_good ranking indices ->
  exists k lr, indices !! k = Some i /\ ranking !! k = Some lr /\ (1 <? lr)%float = true.
Proof.
  unfold select_good. intros Hi.
  apply list_elem_of_fmap in Hi as ([i' lr] & -> & Hin).
  apply list_elem_of_filter in Hin as [Hgood Hin].
  apply list_elem_of_lookup in Hin as [k Hk].
  apply lookup_zip_with_Some in Hk as (i'' & lr' & [= <- <-] & Hik & Hrk).
  exists k, lr. auto.
Qed.

Lemma select_good_none (ranking : list float) (indices : list nat) :
  Forall (fun lr => (1 <? lr)%float = false) ranking ->
  select_good ranking indices = [].
Proof.
  intros Hall. unfold select_good.
  destruct (filter _ _) as [|[i lr] l] eqn:Hf; [reflexivity|].
  assert (Hin : (i, lr) ∈ filter (fun il : nat * float => (1 <? il.2)%float = true)
                  (zip indices ranking)) by (rewrite Hf; left).
  apply list_elem_of_filter in Hin as [Hgood Hin]. cbn in Hgood.
  apply list_elem_of_lookup in Hin as [k Hk].
  apply lookup_zip_with_Some in Hk as (i'' & lr' & [= <- <-] & Hik & Hrk).
  rewrite Forall_lookup in Hall. rewrite (Hall _ _ Hrk) in Hgood. discriminate.
Qed.

(** ** The ranking *)

Lemma similar_donors_inv argsort (w : world) (client_data : dict) (pool : list dict)
    (ranking : list float) (indices : list nat) :
  similar_donors argsort w client_data pool = Ok (ranking, indices) ->
  exists lrs,
    Forall2 (fun d lr => donor_lr w client_data d = Ok lr) pool lrs
    /\ indices = argsort (opp <$> lrs)
    /\ Forall2 (fun i r => lrs !! i = Some r) indices ranking.
Proof.
  unfold similar_donors. intros H.
  destruct (client_continuous client_data) as [y|e]; [|discriminate].
  rewrite result_bind_ok in H.
  destruct (mapM (donor_lr w client_data) pool) as [lrs|e] eqn:Hlrs; [|discriminate].
  rewrite result_bind_ok in H. cbv zeta in H.
  destruct (mapM (lookup_result lrs) (argsort (opp <$> lrs))) as [rk|e] eqn:Hrk;
    [|discriminate].
  rewrite result_bind_ok in H. inversion H; subst; clear H.
  exists lrs. split; [apply mapM_result_Ok; exact Hlrs|]. split; [reflexivity|].
  apply mapM_result_Ok in Hrk.
  eapply Forall2_impl; [exact Hrk|]. intros i r Hir. unfold lookup_result in Hir.
  destruct (lrs !! i); congruence.
Qed.

Lemma similar_donors_descending argsort (w : world) (client_data : dict) (pool : list dict)
    (ranking : list float) (indices : list nat) :
  sorts argsort ->
  similar_donors argsort w client_data pool = Ok (ranking, indices) ->
  descending ranking.
Proof.
  intros Hsorts H. apply similar_donors_inv in H as (lrs & _ & -> & Hrk).
  intros a b x y Hab Ha Hb.
  destruct (Forall2_lookup_r _ _ _ _ _ Hrk Ha) as (i & Hi & Hxi).
  destruct (Forall2_lookup_r _ _ _ _ _ Hrk Hb) as (j & Hj & Hyj).
  destruct (Hsorts (opp <$> lrs)) as [_ Hord].
  specialize (Hord a b i j (- x)%float (- y)%float Hab Hi Hj).
  rewrite !list_lookup_fmap, Hxi, Hyj in Hord. specialize (Hord eq_refl eq_refl).
  rewrite ltb_opp in Hord. exact Hord.
Qed.

(** ** The stable argsort *)

Lemma insert_by_perm (keys : list float) (i : nat) (l : list nat) :
  insert_by keys i l ≡ₚ i :: l.
Proof.
  induction l as [|j l IH]; cbn [insert_by]; [reflexivity|].
  destruct (_ <? _)%float; [reflexivity|].
  rewrite IH. apply Permutation_swap.
Qed.

Lemma insert_by_sorted (keys : list float) (i : nat) (l : list nat) :
  StronglySorted (fun a b => (key_at keys b <? key_at keys a)%float = false) l ->
  StronglySorted (fun a b => (key_at keys b <? key_at keys a)%float = false)
    (insert_by keys i l).
Proof.
  induction 1 as [|j l Hl IH Hj]; cbn [insert_by].
  - repeat constructor.
  - destruct (key_at keys i <? key_at keys j)%float eqn:Hij.
    + constructor; [constructor; assumption|].
      constructor.
      * destruct (key_at keys j <? key_at keys i)%float eqn:Hji; [|reflexivity].
        pose proof (ltb_trans _ _ _ Hij Hji) as Hc. rewrite ltb_irrefl in Hc. discriminate.
      * rewrite Forall_forall in Hj |- *. intros x Hx.
        destruct (key_at keys x <? key_at keys i)%float eqn:Hxi; [|reflexivity].
        pose proof (ltb_trans _ _ _ Hxi Hij) as Hc. rewrite (Hj x Hx) in Hc. discriminate.
    + constructor; [exact IH|].
      rewrite (insert_by_perm keys i l). constructor; assumption.
Qed.

Lemma foldl_insert_by (keys : list float) (ixs : list nat) :
  forall acc : list nat,
    StronglySorted (fun a b => (key_at keys b <? key_at keys a)%float = false) acc ->
    foldl (fun acc i => insert_by keys i acc) acc ixs ≡ₚ acc ++ ixs
    /\ StronglySorted (fun a b => (key_at keys b <? key_at keys a)%float = false)
         (foldl (fun acc i => insert_by keys i acc) acc ixs).
Proof.
  induction ixs as [|i ixs IH]; intros acc Hacc; cbn [foldl].
  - rewrite app_nil_r. auto.
  - destruct (IH (insert_by keys i acc) (insert_by_sorted keys i acc Hacc)) as [Hp Hs].
    split; [|exact Hs]. rewrite Hp, insert_by_perm.
    rewrite (Permutation_middle acc ixs i). reflexivity.
Qed.

Lemma StronglySorted_lookup {A} (R : A -> A -> Prop) (l : list A) (a b : nat) (x y : A) :
  StronglySorted R l -> a < b -> l !! a = Some x -> l !! b = Some y -> R x y.
Proof.
  intros Hs. revert a b. induction Hs as [|z l Hl IH Hz]; intros a b Hab Ha Hb.
  - rewrite lookup_nil in Ha. discriminate.
  - destruct b as [|b]; [lia|]. cbn in Hb. destruct a as [|a].
    + cbn in Ha. inversion Ha; subst. rewrite Forall_forall in Hz.
      apply Hz. eapply list_elem_of_lookup_2; eauto.
    + cbn in Ha. apply (IH a b); auto. lia.
Qed.

Lemma stable_argsort_sorts : sorts stable_argsort.
Proof.
  intros keys. unfold stable_argsort.
  destruct (foldl_insert_by keys (seq 0 (length keys)) [] (SSorted_nil _)) as [Hp Hs].
  split; [exact Hp|].
  intros a b i j ki kj Hab Ha Hb Hi Hj.
  pose proof (StronglySorted_lookup _ _ a b i j Hs Hab Ha Hb) as H.
  unfold key_at in H. rewrite Hi, Hj in H. exact H.
Qed.

(** ** The manager *)

Section ManagerFacts.

Context {W : Type}.
Implicit Types (r : BaseRecommender W) (rs : list (BaseRecommender W)).

Lemma call_run {A} (e : event) (m : M W A) (w w' : W) (t : list event) (a : result A) :
  m w = (a, w') -> call e m (w, t) = (a, (w', t ++ [e])).
Proof. intros H. unfold call. cbn [fst snd]. rewrite H. reflexivity. Qed.

Lemma recommend_loop_declines (client_id : string) (client_info : dict) (limit : Z)
    (pre rest : list (BaseRecommender W)) :
  forall (i : nat) (w w' : W) (t : list event),
    declines client_info pre w w' ->
    recommend_loop client_id client_info limit i (pre ++ rest) (w, t)
    = recommend_loop client_id client_info limit (i + length pre) rest
        (w', t ++ can_recommend_calls client_info i (length pre)).
Proof.
  induction pre as [|r pre IH]; intros i w w' t Hd; inversion Hd; subst.
  - cbn. rewrite Nat.add_0_r, app_nil_r. reflexivity.
  - cbn [app recommend_loop]. rewrite bind_run.
    erewrite call_run by eassumption. cbv iota.
    rewrite (IH (S i) w1 w') by assumption.
    cbn [length]. unfold can_recommend_calls. cbn [seq fmap list_fmap].
    rewrite <- app_assoc, Nat.add_succ_r. reflexivity.
Qed.

Lemma recommend_loop_selected (client_id : string) (client_info : dict) (limit : Z)
    (r : BaseRecommender W) (rest : list (BaseRecommender W)) (i : nat)
    (w w1 w2 : W) (t : list event) (out : result (list string)) :
  r_can_recommend r client_info w = (Ok true, w1) ->
  r_recommend r client_info limit w1 = (out, w2) ->
  recommend_loop client_id client_info limit i (r :: rest) (w, t)
  = (out,
     (w2, t ++ [CallCanRecommend i client_info; selected_record client_id r;
                CallRecommend i client_info limit]
            ++ (if out is Ok [] then [no_recommendations_record client_id r] else []))).
Proof.
  intros Hcan Hrec. cbn [recommend_loop]. rewrite bind_run.
  erewrite call_run by eassumption. cbv iota.
  rewrite bind_run. cbn [logger_info modify fst snd]. rewrite bind_run.
  erewrite call_run by eassumption.
  destruct out as [[|a out]|e]; cbv iota;
    [| |rewrite app_nil_r, <- !app_assoc; reflexivity].
  - rewrite bind_run. cbn [logger_info modify fst snd]. rewrite ret_run.
    rewrite <- !app_assoc. reflexivity.
  - rewrite bind_run, !ret_run. rewrite app_nil_r, <- !app_assoc. reflexivity.
Qed.

Lemma recommend_loop_nil (client_id : string) (client_info : dict) (limit : Z)
    (i : nat) (w : W) (t : list event) :
  recommend_loop client_id client_info limit i [] (w, t)
  = (Ok [], (w, t ++ [no_recommender_record client_id])).
Proof. reflexivity. Qed.

Lemma recommend_loop_bounded (client_id : string) (client_info : dict) (limit : Z)
    (rs : list (BaseRecommender W)) :
  (0 <= limit)%Z ->
  Forall (bounded limit) rs ->
  forall i wt out wt',
    recommend_loop client_id client_info limit i rs wt = (Ok out, wt') ->
    (Z.of_nat (length out) <= limit)%Z.
Proof.
  intros Hlimit Hall. induction Hall as [|r rs Hr _ IH]; intros i wt out wt' Hrun.
  - destruct wt. rewrite recommend_loop_nil in Hrun. inversion Hrun; subst. cbn. lia.
  - cbn [recommend_loop] in Hrun. rewrite bind_run in Hrun. unfold call at 1 in Hrun.
    destruct (r_can_recommend r client_info wt.1) as [[[]|e] w1]; [| |discriminate].
    + rewrite bind_run in Hrun. cbn [logger_info modify fst snd] in Hrun.
      rewrite bind_run in Hrun. unfold call at 1 in Hrun. cbn [fst snd] in Hrun.
      destruct (r_recommend r client_info limit w1) as [[l|e] w2] eqn:Hrec; [|discriminate].
      rewrite bind_run in Hrun.
      assert (out = l) as ->.
      { destruct l; cbn in Hrun; inversion Hrun; reflexivity. }
      eapply Hr; eauto.
    + eapply IH; eauto.
Qed.

End ManagerFacts.

(** ** Small facts for the properties *)

Lemma closedb_closed (h : gmap loc (list string)) (pool : list dict) :
  closedb h pool = true -> closed h pool.
Proof.
  unfold closedb, closed. rewrite forallb_forall. intros H d r Hd Hr.
  apply list_elem_of_In in Hd. specialize (H d Hd). rewrite Hr in H.
  apply bool_decide_eq_true_1 in H. exact H.
Qed.

Lemma has_required_fields_false (client_data : dict) (f : string) :
  f ∈ CATEGORICAL_FEATURES ++ CONTINUOUS_FEATURES ->
  client_data !! f = None \/ client_data !! f = Some VNone ->
  has_required_fields client_data = false.
Proof.
  intros Hf Hmiss. unfold has_required_fields.
  destruct (forallb _ _) eqn:Hall; [|reflexivity].
  rewrite forallb_forall in Hall. apply list_elem_of_In in Hf.
  specialize (Hall f Hf). unfold dict_get in Hall.
  destruct Hmiss as [H|H]; rewrite H in Hall; discriminate.
Qed.

Lemma init_empty_pool (curves : list curve_point) (w0 : world) :
  exists w, init (Some []) (Some curves) w0 = (Ok tt, w)
    /\ self w = built [] curves [] /\ heap w = heap w0.
Proof.
  eexists. split; [reflexivity|]. split; reflexivity.
Qed.

Lemma mapM_lookup_result_raise {A} (l : list A) (ixs : list nat) (e : exn) :
  mapM (lookup_result l) ixs = Raise e -> e = IndexError.
Proof.
  induction ixs as [|i ixs IH]; [discriminate|]. cbn [mapM].
  destruct (lookup_result l i) as [x|e'] eqn:Hl.
  - rewrite result_bind_ok. destruct (mapM _ ixs); [discriminate|].
    rewrite result_bind_raise. intros [= <-]. apply IH. reflexivity.
  - rewrite result_bind_raise. intros [= <-].
    unfold lookup_result in Hl. destruct (l !! i); congruence.
Qed.

Lemma similar_donors_empty_pool argsort (w : world) (client_data : dict) (y : list float) :
  client_continuous client_data = Ok y ->
  (exists indices, similar_donors argsort w client_data [] = Ok ([], indices))
  \/ similar_donors argsort w client_data [] = Raise IndexError.
Proof.
  intros Hy. unfold similar_donors. rewrite Hy, result_bind_ok.
  cbn [mapM]. rewrite result_bind_ok. cbv zeta.
  destruct (mapM _ _) as [ranking|e] eqn:Hrk.
  - left. rewrite result_bind_ok. apply mapM_result_Ok in Hrk.
    destruct Hrk as [|i r indices ranking Hi _]; [eexists; reflexivity|].
    unfold lookup_result in Hi. rewrite lookup_nil in Hi. discriminate.
  - right. apply mapM_lookup_result_raise in Hrk. subst e. reflexivity.
Qed.

Lemma returned_recommend argsort (client_data : dict) (limit : Z) (w : world)
    (pool : list dict) (curves : list curve_point) (rows : list (list float)) :
  self w = built pool curves rows ->
  Forall2 (fun d row => continuous_row d = Ok row) pool rows ->
  closed (heap w) pool ->
  returned (recommend argsort client_data limit w)
  = recommendation argsort w client_data limit pool.
Proof.
  intros Hself Hrows Hclosed.
  rewrite (recommend_run argsort client_data limit w pool curves rows) by assumption.
  unfold recommend_outcome, recommendation, returned.
  destruct (similar_donors argsort w client_data pool) as [[ranking indices]|e];
    [|reflexivity].
  destruct ranking as [|top ranking]; [reflexivity|]. cbv zeta.
  destruct (gather pool (heap w) limit [] (select_good (top :: ranking) indices))
    as [[[]|e] acc]; [|reflexivity].
  cbn [fst snd with_heap heap]. rewrite lookup_insert_eq. reflexivity.
Qed.

Lemma donor_lr_self (w w' : world) (client_data d : dict) :
  self w = self w' -> donor_lr w client_data d = donor_lr w' client_data d.
Proof.
  intros Hs. unfold donor_lr.
  destruct (donor_distance client_data d) as [x|e]; [|reflexivity].
  rewrite !result_bind_ok. destruct (reads_self_get_lr x) as [_ H]. apply H, Hs.
Qed.

Lemma similar_donors_self argsort (w w' : world) (client_data : dict) (pool : list dict) :
  self w = self w' ->
  similar_donors argsort w client_data pool = similar_donors argsort w' client_data pool.
Proof.
  intros Hs. unfold similar_donors.
  rewrite (mapM_result_ext (donor_lr w client_data) (donor_lr w' client_data))
    by (intros d; apply donor_lr_self, Hs).
  reflexivity.
Qed.

Lemma recommendation_agree argsort (w w' : world) (client_data : dict) (limit : Z)
    (pool : list dict) :
  self w = self w' ->
  (forall d, d ∈ pool -> active_addons (heap w) d = active_addons (heap w') d) ->
  recommendation argsort w client_data limit pool
  = recommendation argsort w' client_data limit pool.
Proof.
  intros Hs Hh. unfold recommendation.
  rewrite (similar_donors_self argsort w w') by exact Hs.
  destruct (similar_donors argsort w' client_data pool) as [[ranking indices]|e];
    [|reflexivity].
  destruct ranking; [reflexivity|].
  rewrite (gather_ext pool (heap w) (heap w')) by exact Hh. reflexivity.
Qed.

Lemma active_addons_agree (h h' : gmap loc (list string)) (pool : list dict) :
  closed h pool ->
  (forall l, is_Some (h !! l) -> h' !! l = h !! l) ->
  forall d, d ∈ pool -> active_addons h' d = active_addons h d.
Proof.
  intros Hclosed Hold d Hd. unfold active_addons.
  destruct (d !! "active_addons") as [[| |s|r]|] eqn:Hv; try reflexivity.
  rewrite (Hold r) by (eapply Hclosed; eauto). reflexivity.
Qed.

Lemma closed_agree (h h' : gmap loc (list string)) (pool : list dict) :
  closed h pool ->
  (forall l, is_Some (h !! l) -> h' !! l = h !! l) ->
  closed h' pool.
Proof.
  intros Hclosed Hold d r Hd Hr. specialize (Hclosed d r Hd Hr).
  rewrite (Hold r) by exact Hclosed. exact Hclosed.
Qed.

(** ** When every donor has a likelihood ratio *)

Lemma donor_lr_client_continuous (w : world) (client_data d : dict) (lr : float) :
  donor_lr w client_data d = Ok lr -> exists y, client_continuous client_data = Ok y.
Proof.
  unfold donor_lr, donor_distance.
  destruct (client_continuous client_data) as [y|e]; [eauto|discriminate].
Qed.

Lemma Forall_exists_Forall2 {A B} (P : A -> B -> Prop) (l : list A) :
  Forall (fun x => exists y, P x y) l -> exists k, Forall2 P l k.
Proof.
  induction 1 as [|x l [y Hy] _ [k Hk]]; [exists []; constructor|].
  exists (y :: k). constructor; assumption.
Qed.

Lemma mapM_lookup_result_total {A} (l : list A) (ixs : list nat) :
  Forall (fun i => i < length l) ixs ->
  exists k, mapM (lookup_result l) ixs = Ok k
    /\ Forall2 (fun i x => l !! i = Some x) ixs k.
Proof.
  intros Hall.
  destruct (Forall_exists_Forall2 (fun i x => l !! i = Some x) ixs) as [k Hk].
  { eapply Forall_impl; [exact Hall|]. intros i Hi. apply lookup_lt_is_Some_2. exact Hi. }
  exists k. split; [|exact Hk]. apply mapM_result_Ok.
  eapply Forall2_impl; [exact Hk|]. intros i x Hx. unfold lookup_result. rewrite Hx.
  reflexivity.
Qed.

Lemma similar_donors_total argsort (w : world) (client_data : dict) (pool : list dict)
    (lrs : list float) :
  pool <> [] ->
  (forall keys, argsort keys ≡ₚ seq 0 (length keys)) ->
  Forall2 (fun d lr => donor_lr w client_data d = Ok lr) pool lrs ->
  exists top ranking,
    similar_donors argsort w client_data pool
    = Ok (top :: ranking, argsort (opp <$> lrs))
    /\ Forall (fun x => x ∈ lrs) (top :: ranking).
Proof.
  intros Hne Hperm Hlrs. unfold similar_donors.
  destruct Hlrs as [|d lr pool lrs Hd Hrest]; [congruence|].
  destruct (donor_lr_client_continuous _ _ _ _ Hd) as [y ->].
  rewrite result_bind_ok.
  assert (Hall : Forall2 (fun d lr => donor_lr w client_data d = Ok lr) (d :: pool) (lr :: lrs))
    by (constructor; assumption).
  apply mapM_result_Ok in Hall. rewrite Hall, result_bind_ok. cbv zeta.
  set (keys := opp <$> lr :: lrs).
  destruct (mapM_lookup_result_total (lr :: lrs) (argsort keys)) as (rk & Hrk & Hf2).
  { rewrite (Hperm keys). apply Forall_forall. intros i Hi.
    apply elem_of_seq in Hi. subst keys. rewrite length_fmap in Hi. lia. }
  rewrite Hrk, result_bind_ok.
  assert (Hlen : length rk = S (length lrs)).
  { apply Forall2_length in Hf2. rewrite <- Hf2, (Hperm keys), length_seq.
    subst keys. rewrite length_fmap. reflexivity. }
  destruct rk as [|top rk]; [discriminate|].
  exists top, rk. split; [reflexivity|].
  apply Forall_forall. intros x Hx.
  apply list_elem_of_lookup in Hx as [a Ha].
  destruct (Forall2_lookup_r _ _ _ _ _ Hf2 Ha) as (i & _ & Hi).
  eapply list_elem_of_lookup_2; eauto.
Qed.

(** ** Symmetry of the two distances *)

Lemma canberra_step_sym (tot x y : float) :
  canberra_step tot (x, y) = canberra_step tot (y, x).
Proof.
  unfold canberra_step. cbn [fst snd].
  rewrite (FloatFacts.abs_sub_sym x y), (FloatFacts.add_comm (abs x) (abs y)). reflexivity.
Qed.

Lemma canberra_sym (u v : list float) : canberra u v = canberra v u.
Proof.
  unfold canberra. generalize 0%float as tot.
  revert v. induction u as [|x u IH]; intros [|y v] tot; try reflexivity.
  cbn [zip zip_with fold_left]. rewrite canberra_step_sym. apply IH.
Qed.

Lemma py_eq_sym (a b : value) : py_eq a b = py_eq b a.
Proof.
  destruct a, b; cbn; try reflexivity.
  - apply FloatFacts.eqb_sym.
  - apply bool_decide_ext. split; congruence.
  - apply bool_decide_ext. split; congruence.
Qed.

Lemma hamming_sym (u v : list value) : hamming u v = hamming v u.
Proof.
  unfold hamming. f_equal.
  revert v. induction u as [|a u IH]; intros [|b v]; try reflexivity.
  cbn [zip_with]. unfold py_ne at 1 3. rewrite (py_eq_sym a b), IH. reflexivity.
Qed.

Lemma row_as_double_numbers (vs : list value) :
  Forall (fun v => exists x, v = VNum x) vs -> exists xs, row_as_double vs = Ok xs.
Proof.
  induction 1 as [|v vs [x ->] _ [xs IH]]; [exists []; reflexivity|].
  exists (x :: xs). cbn [row_as_double as_double]. rewrite IH. reflexivity.
Qed.

Lemma client_continuous_numbers (client_data : dict) :
  (forall f, f ∈ CONTINUOUS_FEATURES -> exists x, client_data !! f = Some (VNum x)) ->
  exists cc, client_continuous client_data = Ok cc.
Proof.
  intros H. apply row_as_double_numbers. rewrite Forall_fmap.
  apply Forall_forall. intros f Hf. destruct (H f Hf) as [x Hx].
  exists x. cbn. unfold dict_get. rewrite Hx. reflexivity.
Qed.


(** ** More on the constructor *)

Lemma fill_continuous_run (ds : list dict) :
  forall (idx : nat) (w : world) (m : list (list float)) (rows : list (list float)),
    continuous_features (self w) = Some m ->
    Forall2 (fun d row => continuous_row d = Ok row) ds rows ->
    exists w', fill_continuous idx ds w = (Ok tt, w').
Proof.
  induction ds as [|d ds IH]; intros idx w m rows Hm Hrows.
  - eexists. reflexivity.
  - inversion Hrows as [|? row ? rows' Hd Hrest]; subst.
    rewrite fill_continuous_cons, bind_run. unfold lift at 1. rewrite Hd.
    rewrite bind_run, (attr_run _ _ _ Hm), bind_run.
    cbn [set_continuous_features modify].
    eapply (IH (S idx) _ (<[idx := row]> m)); [reflexivity|eassumption].
Qed.

Lemma init_steps (pool : list dict) (curves : list curve_point) (w0 : world) :
  init (Some pool) (Some curves) w0
  = (fill_continuous 0 pool;;
     set_categorical_features
       (replicate (length pool) (replicate (length CATEGORICAL_FEATURES) (VNum 0)));;
     fill_categorical 0 pool;;
     set_lr_curves_cache (fst <$> curves))
      (with_self
         (fun s => upd_continuous_features
                     (replicate (length pool) (replicate (length CONTINUOUS_FEATURES) 0%float))
                     (upd_num_donors (length pool)
                        (upd_lr_curves (Some curves) (upd_donors_pool (Some pool) s))))
         w0).
Proof. reflexivity. Qed.

Lemma init_run (pool : list dict) (curves : list curve_point) (w0 : world)
    (rows : list (list float)) :
  Forall2 (fun d row => continuous_row d = Ok row) pool rows ->
  exists w, init (Some pool) (Some curves) w0 = (Ok tt, w).
Proof.
  intros Hrows. rewrite init_steps, bind_run.
  match goal with |- context [fill_continuous 0 pool ?w1] =>
    destruct (fill_continuous_run pool 0 w1 _ rows eq_refl Hrows) as [w2 Hfill];
    pose proof (fill_continuous_ok pool 0 w1 w2 _ Hfill eq_refl) as Hok
  end.
  rewrite Hfill, bind_run. cbn [set_categorical_features modify]. rewrite bind_run.
  match goal with |- context [fill_categorical 0 pool ?w3] =>
    destruct (fill_categorical_ok pool 0 w3
      (replicate (length pool) (replicate (length CATEGORICAL_FEATURES) (VNum 0))))
      as (w4 & Hrun4 & _); [reflexivity|rewrite length_replicate; lia|]
  end.
  rewrite Hrun4. eexists. reflexivity.
Qed.

(** ** More on [can_recommend], [get_lr] and the log of [recommend] *)

Lemma has_required_fields_true (client_data : dict) :
  has_required_fields client_data = true
  <-> forall f, f ∈ CATEGORICAL_FEATURES ++ CONTINUOUS_FEATURES ->
        exists v, client_data !! f = Some v /\ v <> VNone.
Proof.
  unfold has_required_fields. rewrite forallb_forall. split.
  - intros H f Hf. apply list_elem_of_In in Hf. specialize (H f Hf).
    unfold dict_get in H. destruct (client_data !! f) as [v|]; [|discriminate].
    exists v. split; [reflexivity|]. intros ->. discriminate.
  - intros H f Hf. apply list_elem_of_In in Hf. destruct (H f Hf) as (v & Hv & Hne).
    unfold dict_get. rewrite Hv. destruct v; cbn; congruence.
Qed.

Lemma first_least_unique (l : list float) (k k' : nat) :
  first_least l k -> first_least l k' -> k = k'.
Proof.
  intros (x & Hx & Hle & Hlt) (x' & Hx' & Hle' & Hlt').
  destruct (Nat.lt_trichotomy k k') as [H|[H|H]]; [|exact H|].
  - pose proof (Hlt' k x H Hx) as H1. pose proof (Hle k' x' Hx') as H2.
    apply FloatFacts.leb_true_ltb in H2. congruence.
  - pose proof (Hlt k' x' H Hx') as H1. pose proof (Hle' k x Hx) as H2.
    apply FloatFacts.leb_true_ltb in H2. congruence.
Qed.

Lemma mul_zero_finite (x : float) :
  (abs x <? infinity)%float = true -> (x * 0 =? 0)%float = true.
Proof.
  rewrite FloatAxioms.ltb_spec, FloatAxioms.eqb_spec, abs_spec, mul_spec.
  change (Prim2SF 0) with (S754_zero false).
  change (Prim2SF infinity) with (S754_infinity false).
  destruct (Prim2SF x) as [s|s| |s m e]; cbn; try discriminate; reflexivity.
Qed.

Lemma can_recommend_calls_S (client_info : dict) (i n : nat) :
  can_recommend_calls client_info i (S n)
  = CallCanRecommend i client_info :: can_recommend_calls client_info (S i) n.
Proof. reflexivity. Qed.

Lemma recommend_loop_raise {W} (client_id : string) (client_info : dict) (limit : Z)
    (r : BaseRecommender W) (rest : list (BaseRecommender W)) (i : nat)
    (w w1 : W) (t : list event) (e : exn) :
  r_can_recommend r client_info w = (Raise e, w1) ->
  recommend_loop client_id client_info limit i (r :: rest) (w, t)
  = (Raise e, (w1, t ++ [CallCanRecommend i client_info])).
Proof.
  intros Hcan. cbn [recommend_loop]. rewrite bind_run.
  erewrite call_run by eassumption. reflexivity.
Qed.

Lemma locale_can_recommend_run (s : Locale.LocaleRecommender)
    (per_locale : option (gmap string (list string))) (client_data : dict) :
  Locale.top_addons_per_locale s = Some per_locale ->
  Locale.can_recommend client_data s
  = (Ok match per_locale, dict_get client_data "locale" with
        | Some m, VStr l => if m !! l is Some (_ :: _) then true else false
        | _, _ => false
        end, s).
Proof.
  intros Hs. unfold Locale.can_recommend. rewrite bind_run. unfold Locale.attr at 1.
  rewrite Hs. destruct per_locale as [m|]; [|reflexivity].
  destruct (dict_get client_data "locale") as [| |l|]; try reflexivity.
  rewrite bind_run. unfold Locale.contains. rewrite bind_run. unfold Locale.attr at 1.
  rewrite Hs. rewrite ret_run.
  destruct (m !! l) as [[|a addons]|] eqn:Hl; cbn [bool_decide negb].
  - rewrite bool_decide_eq_true_2 by eauto. cbn [negb].
    rewrite bind_run. unfold Locale.get. rewrite bind_run. unfold Locale.attr at 1.
    rewrite Hs, ret_run, Hl. reflexivity.
  - rewrite bool_decide_eq_true_2 by eauto. cbn [negb].
    rewrite bind_run. unfold Locale.get. rewrite bind_run. unfold Locale.attr at 1.
    rewrite Hs, ret_run, Hl. reflexivity.
  - rewrite bool_decide_eq_false_2 by (intros [? ?]; discriminate). reflexivity.
Qed.

Lemma locale_recommend_run (s : Locale.LocaleRecommender)
    (per_locale : option (gmap string (list string))) (client_data : dict) (limit : Z) :
  Locale.top_addons_per_locale s = Some per_locale ->
  Locale.recommend client_data limit s
  = (match per_locale, dict_get client_data "locale" with
     | None, _ => Raise AttributeError
     | Some _, VList _ => Raise TypeError
     | Some m, VStr l => Ok (slice_to (default [] (m !! l)) limit)
     | Some _, _ => Ok (slice_to [] limit)
     end, s).
Proof.
  intros Hs. unfold Locale.recommend. rewrite bind_run. unfold Locale.get.
  rewrite bind_run. unfold Locale.attr at 1. rewrite Hs.
  destruct per_locale as [m|]; [|reflexivity].
  destruct (dict_get client_data "locale"); reflexivity.
Qed.

Lemma slice_to_nil {A} (limit : Z) : slice_to (@nil A) limit = [].
Proof. unfold slice_to. destruct (limit <? 0)%Z; apply take_nil. Qed.

Lemma on_fst_run {S T A} (m : M S A) (s s' : S) (t : T) (a : result A) :
  m s = (a, s') -> on_fst m (s, t) = (a, (s', t)).
Proof. intros H. unfold on_fst. cbn [fst snd]. rewrite H. reflexivity. Qed.

Lemma on_snd_run {S T A} (m : M T A) (s : S) (t t' : T) (a : result A) :
  m t = (a, t') -> on_snd m (s, t) = (a, (s, t')).
Proof. intros H. unfold on_snd. cbn [fst snd]. rewrite H. reflexivity. Qed.

Lemma is_nan_abs_sub (x c : float) : is_nan x = true -> is_nan (abs (x - c)) = true.
Proof.
  unfold is_nan. rewrite !FloatAxioms.eqb_spec, abs_spec, sub_spec.
  destruct (Prim2SF x) as [s|s| |s m e] eqn:Hx; cbn.
  - destruct s; discriminate.
  - destruct s; discriminate.
  - reflexivity.
  - unfold SFeqb, SFcompare. rewrite Z.compare_refl, Pos.compare_cont_refl.
    destruct s; discriminate.
Qed.

Lemma recommend_empty_pool argsort (client_data : dict) (limit : Z) (w : world)
    (curves : list curve_point) (y : list float) :
  self w = built [] curves [] ->
  client_continuous client_data = Ok y ->
  recommend argsort client_data limit w = (Raise IndexError, w).
Proof.
  intros Hself Hy.
  rewrite (recommend_run argsort client_data limit w [] curves [] Hself).
  - unfold recommend_outcome.
    destruct (similar_donors_empty_pool argsort w client_data y Hy) as [[indices ->]| ->];
      reflexivity.
  - constructor.
  - intros d r Hd. inversion Hd.
Qed.

(** ** The two conversions *)

Lemma row_store_double_stored (vs : list value) (xs : list float) :
  row_store_double vs = Ok xs -> Forall2 stored vs xs.
Proof.
  revert xs. induction vs as [|v vs IH]; intros xs H; cbn [row_store_double] in H.
  - inversion H. constructor.
  - destruct (store_double v) as [x|e] eqn:Hv; [|discriminate].
    destruct (row_store_double vs) as [xs'|e]; [|discriminate].
    inversion H; subst. constructor; [|apply IH; reflexivity].
    destruct v; cbn in Hv; inversion Hv; subst; [right; split; reflexivity|left; reflexivity].
Qed.

Lemma row_store_double_numbers (vs : list value) :
  Forall (fun v => v = VNone \/ exists x, v = VNum x) vs ->
  row_store_double vs
  = Ok ((fun v => match v with VNum x => x | _ => nan end) <$> vs).
Proof.
  induction 1 as [|v vs Hv _ IH]; [reflexivity|].
  cbn [row_store_double fmap list_fmap]. rewrite IH.
  destruct Hv as [->|[x ->]]; reflexivity.
Qed.

Lemma continuous_row_number_or_nan (d : dict) :
  (forall f, f ∈ CONTINUOUS_FEATURES ->
     d !! f = None \/ d !! f = Some VNone \/ exists x, d !! f = Some (VNum x)) ->
  continuous_row d = Ok (number_or_nan d <$> CONTINUOUS_FEATURES).
Proof.
  intros Hd. unfold continuous_row. rewrite row_store_double_numbers.
  - rewrite <- list_fmap_compose. f_equal. apply list_fmap_ext. intros i f Hf.
    cbn. unfold dict_get, number_or_nan.
    destruct (Hd f) as [-> |[-> |[x ->]]]; [eapply list_elem_of_lookup_2; eauto| | |];
      reflexivity.
  - rewrite Forall_fmap. apply Forall_forall. intros f Hf. cbn. unfold dict_get.
    destruct (Hd f Hf) as [-> |[-> |[x ->]]]; cbn; eauto.
Qed.

Lemma row_as_double_refused (vs : list value) (v : value) :
  v ∈ vs -> (forall x, v <> VNum x) -> row_as_double vs = Raise ValueError.
Proof.
  intros Hin Hv. induction vs as [|u vs IH]; [inversion Hin|].
  cbn [row_as_double].
  destruct u as [| x | s | l]; try reflexivity.
  cbn [as_double]. rewrite IH; [reflexivity|].
  apply elem_of_cons in Hin as [->|Hin]; [destruct (Hv x); reflexivity|exact Hin].
Qed.

Lemma row_as_double_VNum (ys : list float) : row_as_double (VNum <$> ys) = Ok ys.
Proof.
  induction ys as [|y ys IH]; [reflexivity|].
  cbn [fmap list_fmap row_as_double as_double]. cbn [fmap list_fmap] in IH.
  rewrite IH. reflexivity.
Qed.

(** ** The composite distance, written out *)

Lemma py_eq_text (v : value) (s : string) : py_eq v (VStr s) = bool_decide (v = VStr s).
Proof.
  destruct v as [| x | t | l]; cbn [py_eq];
    try (symmetry; apply bool_decide_eq_false_2; discriminate).
  apply bool_decide_ext. split; congruence.
Qed.

Lemma hamming_text (a b c : value) (c1 c2 c3 : string) :
  hamming [a; b; c] [VStr c1; VStr c2; VStr c3]
  = hamming_share ((if bool_decide (a = VStr c1) then 0 else 1)
                   + (if bool_decide (b = VStr c2) then 0 else 1)
                   + (if bool_decide (c = VStr c3) then 0 else 1)).
Proof.
  unfold hamming. cbn [zip_with]. unfold py_ne. rewrite !py_eq_text.
  destruct (bool_decide (a = VStr c1)), (bool_decide (b = VStr c2)),
    (bool_decide (c = VStr c3)); vm_compute; reflexivity.
Qed.

Lemma canberra_step_term (tot x y : float) :
  canberra_step tot (x, y) = (tot + canberra_term y x)%float.
Proof.
  unfold canberra_step, canberra_term. cbn [fst snd].
  rewrite (abs_sub_sym x y), (add_comm (abs x) (abs y)). reflexivity.
Qed.

Lemma canberra_spelled (xs ys : list float) : canberra xs ys = canberra_distance ys xs.
Proof.
  unfold canberra, canberra_distance. generalize 0%float as tot.
  revert ys. induction xs as [|x xs IH]; intros [|y ys] tot; try reflexivity.
  cbn [zip zip_with fold_left foldl fst snd]. rewrite canberra_step_term. apply IH.
Qed.

Lemma donor_distance_spelled (client_data donor : dict) (c1 c2 c3 : string)
    (ys xs : list float) :
  dict_get client_data <$> CATEGORICAL_FEATURES = [VStr c1; VStr c2; VStr c3] ->
  dict_get client_data <$> CONTINUOUS_FEATURES = VNum <$> ys ->
  continuous_row donor = Ok xs ->
  donor_distance client_data donor
  = Ok (composite_distance ys xs (differing_categories donor c1 c2 c3)).
Proof.
  intros Hcat Hcont Hx. unfold donor_distance, client_continuous, client_categorical.
  rewrite Hcont, row_as_double_VNum, result_bind_ok, Hx, result_bind_ok, Hcat.
  unfold categorical_row, CATEGORICAL_FEATURES. cbn [fmap list_fmap].
  rewrite hamming_text, canberra_spelled. reflexivity.
Qed.

Lemma text_categories_spelled (client_data : dict) :
  text_categories client_data
  <-> exists c1 c2 c3,
        dict_get client_data <$> CATEGORICAL_FEATURES = [VStr c1; VStr c2; VStr c3].
Proof.
  unfold text_categories, CATEGORICAL_FEATURES. cbn [fmap list_fmap]. unfold dict_get. split.
  - intros H.
    destruct (H "geo_city") as [c1 ->]; [set_solver|].
    destruct (H "locale") as [c2 ->]; [set_solver|].
    destruct (H "os") as [c3 ->]; [set_solver|].
    exists c1, c2, c3. reflexivity.
  - intros (c1 & c2 & c3 & H) f Hf. inversion H as [[H1 H2 H3]].
    repeat (apply elem_of_cons in Hf as [->|Hf]); [| | |inversion Hf].
    + destruct (client_data !! "geo_city") as [[| | s |]|]; try discriminate; eauto.
    + destruct (client_data !! "locale") as [[| | s |]|]; try discriminate; eauto.
    + destruct (client_data !! "os") as [[| | s |]|]; try discriminate; eauto.
Qed.

(** ** The ranking and the selection *)

Lemma select_good_good_donors (lrs ranking : list float) (indices : list nat) :
  Forall2 (fun i r => lrs !! i = Some r) indices ranking ->
  select_good ranking indices = good_donors lrs indices.
Proof.
  unfold select_good, good_donors.
  induction 1 as [|i r indices ranking Hi _ IH]; [reflexivity|].
  cbn [zip zip_with].
  assert (Hi' : above_one lrs i = (1 <? r)%float) by (unfold above_one; rewrite Hi; reflexivity).
  destruct (1 <? r)%float eqn:Hr.
  - rewrite (filter_cons_True _ (i, r)) by exact Hr.
    rewrite (filter_cons_True _ i) by exact Hi'.
    cbn [fmap list_fmap fst]. f_equal. exact IH.
  - rewrite (filter_cons_False _ (i, r)) by (cbn; congruence).
    rewrite (filter_cons_False _ i) by congruence. exact IH.
Qed.

Lemma sorts_ranks argsort (lrs : list float) :
  sorts argsort -> ranks lrs (argsort (opp <$> lrs)).
Proof.
  intros Hsorts. destruct (Hsorts (opp <$> lrs)) as [Hperm Hord]. split.
  - rewrite Hperm, length_fmap. reflexivity.
  - intros a b i j x y Hab Hi Hj Hx Hy.
    specialize (Hord a b i j (- x)%float (- y)%float Hab Hi Hj).
    rewrite !list_lookup_fmap, Hx, Hy in Hord. specialize (Hord eq_refl eq_refl).
    rewrite ltb_opp in Hord. exact Hord.
Qed.

(** What [recommend] does on a built object, in terms of the likelihood
    ratios of the donors. *)
Lemma recommend_ranked argsort (client_data : dict) (limit : Z) (w w' : world)
    (pool : list dict) (curves : list curve_point) (rows : list (list float)) (r : loc) :
  self w = built pool curves rows ->
  Forall2 (fun d row => continuous_row d = Ok row) pool rows ->
  closed (heap w) pool ->
  recommend argsort client_data limit w = (Ok r, w') ->
  exists lrs acc,
    Forall2 (fun d lr => donor_lr w client_data d = Ok lr) pool lrs
    /\ gather pool (heap w) limit [] (good_donors lrs (argsort (opp <$> lrs))) = (Ok tt, acc)
    /\ heap w !! r = None
    /\ (exists r0, r0 <> r /\ heap w' !! r0 = Some acc)
    /\ heap w' !! r = Some (slice_to acc limit).
Proof.
  intros Hself Hrows Hclosed Hrun.
  rewrite (recommend_run argsort client_data limit w pool curves rows) in Hrun by assumption.
  unfold recommend_outcome in Hrun.
  destruct (similar_donors argsort w client_data pool) as [[ranking indices]|e] eqn:Hsd;
    [|discriminate].
  pose proof Hsd as Hinv. apply similar_donors_inv in Hinv as (lrs & Hlrs & -> & Hrk).
  destruct ranking as [|top ranking]; [discriminate|]. cbv zeta in Hrun.
  rewrite (select_good_good_donors lrs) in Hrun by exact Hrk.
  destruct (gather pool (heap w) limit [] (good_donors lrs (argsort (opp <$> lrs))))
    as [[[]|e] acc] eqn:Hg; [|discriminate].
  inversion Hrun; subst r w'; clear Hrun. cbn [with_heap heap].
  set (r0 := fresh (dom (heap w))).
  set (r := fresh (dom (<[r0 := acc]> (heap w)))).
  assert (Hr : <[r0 := acc]> (heap w) !! r = None) by apply fresh_None.
  assert (Hne : r0 <> r).
  { intros Heq. rewrite <- Heq, lookup_insert_eq in Hr. discriminate. }
  exists lrs, acc. split; [exact Hlrs|]. split; [exact Hg|]. split; [|split].
  - rewrite lookup_insert_ne in Hr by exact Hne. exact Hr.
  - exists r0. split; [exact Hne|].
    rewrite lookup_insert_ne by congruence. apply lookup_insert_eq.
  - apply lookup_insert_eq.
Qed.

(** ** Every run of the loop of the manager *)

Lemma recommend_loop_inv {W} (client_id : string) (client_info : dict) (limit : Z)
    (rs : list (BaseRecommender W)) :
  forall (i : nat) (w w' : W) (t t' : list event) (res : result (list string)),
    recommend_loop client_id client_info limit i rs (w, t) = (res, (w', t')) ->
    exists evs,
      t' = t ++ evs /\ loop_run client_id client_info limit i rs w res w' evs.
Proof.
  induction rs as [|r rs IH]; intros i w w' t t' res Hrun.
  - rewrite recommend_loop_nil in Hrun. inversion Hrun; subst.
    eexists. split; [reflexivity|]. exists 0, w'. split; [constructor|].
    left. repeat split; reflexivity.
  - destruct (r_can_recommend r client_info w) as [[[]|e] w1] eqn:Hcan.
    + destruct (r_recommend r client_info limit w1) as [out w2] eqn:Hrec.
      rewrite (recommend_loop_selected client_id client_info limit r rs i w w1 w2 t out
                 Hcan Hrec) in Hrun.
      inversion Hrun; subst. eexists. split; [reflexivity|].
      exists 0, w. split; [constructor|]. right. exists r. split; [reflexivity|].
      right. exists w1. split; [exact Hcan|]. split; [exact Hrec|].
      rewrite Nat.add_0_r. reflexivity.
    + cbn [recommend_loop] in Hrun. rewrite bind_run in Hrun.
      erewrite call_run in Hrun by exact Hcan. cbv iota in Hrun.
      apply IH in Hrun as (evs & -> & k & w2 & Hdec & Hev).
      exists (CallCanRecommend i client_info :: evs).
      split; [rewrite <- app_assoc; reflexivity|].
      exists (S k), w2. split.
      { cbn [take]. eapply declines_cons; eauto. }
      destruct Hev as [(-> & -> & -> & ->)|(r' & Hk & Hev)].
      * left. repeat split; reflexivity.
      * right. exists r'. split; [exact Hk|].
        rewrite (can_recommend_calls_S client_info i (S k)).
        destruct Hev as [(e & He & -> & ->)|(w3 & Hc & Hr & ->)].
        -- left. exists e. split; [exact He|]. split; reflexivity.
        -- right. exists w3. split; [exact Hc|]. split; [exact Hr|].
           rewrite Nat.add_succ_r. reflexivity.
    + rewrite (recommend_loop_raise client_id client_info limit r rs i w w1 t e Hcan) in Hrun.
      inversion Hrun; subst. eexists. split; [reflexivity|].
      exists 0, w. split; [constructor|]. right. exists r. split; [reflexivity|].
      left. exists e. split; [exact Hcan|]. split; reflexivity.
Qed.

(** ** The rows of a built object *)

Lemma rows_number_or_nan (pool : list dict) (rows : list (list float)) :
  Forall (fun d => forall f, f ∈ CONTINUOUS_FEATURES ->
            d !! f = None \/ d !! f = Some VNone \/ exists x, d !! f = Some (VNum x)) pool ->
  Forall2 (fun d row => continuous_row d = Ok row) pool rows ->
  rows = (fun d => number_or_nan d <$> CONTINUOUS_FEATURES) <$> pool.
Proof.
  intros Hall Hrows. induction Hrows as [|d row pool rows Hd _ IH]; [reflexivity|].
  inversion Hall as [|? ? Hd' Hall']; subst.
  rewrite (continuous_row_number_or_nan d Hd') in Hd. inversion Hd; subst.
  cbn [fmap list_fmap]. f_equal. apply IH. exact Hall'.
Qed.

Lemma Forall2_continuous_row (pool : list dict) :
  Forall (fun d => forall f, f ∈ CONTINUOUS_FEATURES ->
            d !! f = None \/ d !! f = Some VNone \/ exists x, d !! f = Some (VNum x)) pool ->
  Forall2 (fun d row => continuous_row d = Ok row) pool
    ((fun d => number_or_nan d <$> CONTINUOUS_FEATURES) <$> pool).
Proof.
  induction 1 as [|d pool Hd _ IH]; [constructor|].
  cbn [fmap list_fmap]. constructor; [apply continuous_row_number_or_nan, Hd|exact IH].
Qed.

(** ** NaN is carried along *)

Lemma is_nan_spec (x : float) : is_nan x = true <-> Prim2SF x = S754_nan.
Proof.
  unfold is_nan. rewrite FloatAxioms.eqb_spec.
  destruct (Prim2SF x) as [s|s| |s m e]; cbn.
  - destruct s; split; discriminate.
  - destruct s; split; discriminate.
  - split; reflexivity.
  - unfold SFeqb, SFcompare. rewrite Z.compare_refl, Pos.compare_cont_refl.
    destruct s; split; discriminate.
Qed.

Lemma is_nan_nan : is_nan nan = true.
Proof. reflexivity. Qed.

Lemma is_nan_add_l (x y : float) : is_nan x = true -> is_nan (x + y) = true.
Proof. rewrite !is_nan_spec, add_spec. intros ->. reflexivity. Qed.

Lemma is_nan_add_r (x y : float) : is_nan y = true -> is_nan (x + y) = true.
Proof.
  rewrite !is_nan_spec, add_spec. intros ->. destruct (Prim2SF x); reflexivity.
Qed.

Lemma is_nan_sub_r (x y : float) : is_nan y = true -> is_nan (x - y) = true.
Proof.
  rewrite !is_nan_spec, sub_spec. intros ->. destruct (Prim2SF x); reflexivity.
Qed.

Lemma is_nan_abs (x : float) : is_nan x = true -> is_nan (abs x) = true.
Proof. rewrite !is_nan_spec, abs_spec. intros ->. reflexivity. Qed.

Lemma is_nan_div_l (x y : float) : is_nan x = true -> is_nan (x / y) = true.
Proof. rewrite !is_nan_spec, div_spec. intros ->. reflexivity. Qed.

Lemma is_nan_mul_l (x y : float) : is_nan x = true -> is_nan (x * y) = true.
Proof. rewrite !is_nan_spec, mul_spec. intros ->. reflexivity. Qed.

Lemma is_nan_canberra_term (y x : float) :
  is_nan x = true -> is_nan (canberra_term y x) = true.
Proof.
  intros Hx. unfold canberra_term. apply is_nan_div_l, is_nan_abs, is_nan_sub_r, Hx.
Qed.

Lemma is_nan_canberra_from (l : list (float * float)) :
  forall acc : float,
    is_nan acc = true ->
    is_nan (foldl (fun acc yx => acc + canberra_term yx.1 yx.2)%float acc l) = true.
Proof.
  induction l as [|yx l IH]; intros acc Hacc; [exact Hacc|].
  cbn [foldl]. apply IH, is_nan_add_l, Hacc.
Qed.

Lemma is_nan_canberra_distance (ys xs : list float) (j : nat) (x : float) :
  xs !! j = Some x -> is_nan x = true -> j < length ys ->
  is_nan (canberra_distance ys xs) = true.
Proof.
  unfold canberra_distance. generalize 0%float as acc.
  revert xs j. induction ys as [|y ys IH]; intros xs j acc Hx Hnan Hj; [cbn in Hj; lia|].
  destruct xs as [|x0 xs]; [rewrite lookup_nil in Hx; discriminate|].
  cbn [zip zip_with foldl fst snd]. destruct j as [|j].
  - cbn in Hx. inversion Hx; subst.
    apply is_nan_canberra_from, is_nan_add_r, is_nan_canberra_term, Hnan.
  - cbn in Hx, Hj. apply (IH xs j); [exact Hx|exact Hnan|lia].
Qed.

(** ** One donor in the ranking *)

Lemma stored_row_store_double (vs : list value) (xs : list float) :
  Forall2 stored vs xs -> row_store_double vs = Ok xs.
Proof.
  induction 1 as [|v x vs xs Hv _ IH]; [reflexivity|].
  cbn [row_store_double]. rewrite IH.
  destruct Hv as [->|[-> ->]]; reflexivity.
Qed.

Lemma Forall2_result_functional {A B} (f : A -> result B) (l : list A) (k k' : list B) :
  Forall2 (fun a b => f a = Ok b) l k ->
  Forall2 (fun a b => f a = Ok b) l k' ->
  k = k'.
Proof.
  intros H. revert k'. induction H as [|a b l k Hab _ IH]; intros k' H'.
  - inversion H'. reflexivity.
  - inversion H' as [|? b' ? k'' Hab' Hrest]; subst.
    f_equal; [congruence|apply IH; exact Hrest].
Qed.

Lemma ranking_entry argsort (client_data : dict) (w : world) (pool : list dict)
    (curves : list curve_point) (rows : list (list float))
    (ranking : list float) (indices : list nat) (k i : nat) (d : dict) :
  self w = built pool curves rows ->
  Forall2 (fun d row => continuous_row d = Ok row) pool rows ->
  (get_similar_donors argsort client_data w).1 = Ok (ranking, indices) ->
  indices !! k = Some i ->
  pool !! i = Some d ->
  exists lr, donor_lr w client_data d = Ok lr /\ ranking !! k = Some lr.
Proof.
  intros Hself Hrows Hrun Hk Hi.
  rewrite (get_similar_donors_run argsort client_data w pool curves rows) in Hrun
    by assumption.
  cbn [fst] in Hrun. apply similar_donors_inv in Hrun as (lrs & Hlrs & _ & Hrk).
  destruct (Forall2_lookup_l _ _ _ _ _ Hrk Hk) as (lr & Hlr & Hilr).
  destruct (Forall2_lookup_l _ _ _ _ _ Hlrs Hi) as (lr' & Hlr' & Hd).
  exists lr. split; [congruence|exact Hlr].
Qed.

Lemma get_lr_nan_run (score : float) (w : world) (pool : list dict) (pt : curve_point)
    (curves : list curve_point) (rows : list (list float)) :
  self w = built pool (pt :: curves) rows ->
  is_nan score = true ->
  get_lr score w
  = (if (pt.2.2 =? 0)%float then Raise ZeroDivisionError else Ok (pt.2.1 / pt.2.2)%float, w).
Proof.
  intros Hself Hnan.
  apply (get_lr_run score w (fst <$> pt :: curves) (pt :: curves) 0 pt).
  - rewrite Hself. reflexivity.
  - rewrite Hself. reflexivity.
  - cbn [fmap list_fmap argmin]. rewrite is_nan_abs_sub by exact Hnan. reflexivity.
  - reflexivity.
Qed.

(** * Part III: the properties *)

(** C7.  After [__init__], [can_recommend] returns [False], and raises
    nothing, whenever the donor list or the curves could not be downloaded
    ([None]), or one of the eight required fields is missing from the profile
    or is [None] there. *)
Theorem can_recommend_false_when_unusable
    (donors : option (list dict)) (curves : option (list curve_point))
    (w0 : world) (client_data : dict) :
  donors = None \/ curves = None
  \/ (exists f, f ∈ CATEGORICAL_FEATURES ++ CONTINUOUS_FEATURES
        /\ (client_data !! f = None \/ client_data !! f = Some VNone)) ->
  (can_recommend client_data (init donors curves w0).2).1 = Ok false.
Proof.
  intros Hbad. destruct (init_payload donors curves w0) as [Hp Hc].
  rewrite (can_recommend_run _ _ _ _ Hp Hc).
  destruct donors as [pool|]; [|reflexivity].
  destruct curves as [cs|]; [|reflexivity].
  destruct Hbad as [?|[?|(f & Hf & Hmiss)]]; try discriminate.
  rewrite (has_required_fields_false _ f Hf Hmiss). reflexivity.
Qed.


Lemma can_recommend_false_when_unusable_witness :
  (can_recommend Example.profile_without_locale Example.ready).1 = Ok false
  /\ (can_recommend Example.profile (init None (Some Example.curve) Example.fresh_world).2).1
     = Ok false
  /\ (can_recommend Example.profile (init (Some Example.pool) None Example.fresh_world).2).1
     = Ok false.
Proof.
  split; [|split].
  - apply (can_recommend_false_when_unusable (Some Example.pool) (Some Example.curve)
             Example.fresh_world Example.profile_without_locale).
    right; right. exists "locale". split; [|left; reflexivity].
    apply list_elem_of_In. vm_compute. tauto.
  - apply (can_recommend_false_when_unusable None (Some Example.curve)
             Example.fresh_world Example.profile).
    left. reflexivity.
  - apply (can_recommend_false_when_unusable (Some Example.pool) None
             Example.fresh_world Example.profile).
    right; left. reflexivity.
Defined.

(** C1.  What the code does with an empty donor list: the list is there, so
    [can_recommend] looks at the profile only and returns [True] for a complete
    one; [recommend] then computes the (empty) distances and fails on
    [donor_set_ranking[0]]. *)
Theorem empty_pool_is_accepted argsort (curves : list curve_point) (w0 : world)
    (client_data : dict) (limit : Z) (y : list float) :
  has_required_fields client_data = true ->
  client_continuous client_data = Ok y ->
  (can_recommend client_data (init (Some []) (Some curves) w0).2).1 = Ok true
  /\ (recommend argsort client_data limit (init (Some []) (Some curves) w0).2).1
     = Raise IndexError.
Proof.
  intros Hfields Hy.
  destruct (init_empty_pool curves w0) as (w & Hinit & Hself & Hheap).
  rewrite Hinit. cbn [snd]. split.
  - rewrite (can_recommend_run _ _ (Some []) (Some curves)) by (rewrite Hself; reflexivity).
    rewrite Hfields. reflexivity.
  - rewrite (recommend_run argsort client_data limit w [] curves []).
    2: exact Hself.
    2: constructor.
    2: { intros d r Hd. inversion Hd. }
    unfold recommend_outcome.
    destruct (similar_donors_empty_pool argsort w client_data y Hy) as [[indices ->] | ->];
      reflexivity.
Qed.

(** ** The returned list *)


Lemma empty_pool_is_accepted_witness :
  (can_recommend Example.profile Example.ready_empty).1 = Ok true
  /\ (recommend stable_argsort Example.profile 10 Example.ready_empty).1 = Raise IndexError.
Proof.
  apply (empty_pool_is_accepted stable_argsort Example.curve Example.fresh_world
           Example.profile 10 [10; 2; 3; 40; 5]%float); reflexivity.
Defined.

(** C6.  On a built object with a non-empty curve, [get_lr] returns
    numerator / denominator of the curve point whose score is nearest to the
    given score in absolute difference; among equally near points it is the
    first in the order of the curve, which need not be sorted.  (The
    differences are numbers, not NaN, and no denominator is zero.) *)
Theorem get_lr_nearest_point (pool : list dict) (curves : list curve_point)
    (w0 w : world) (score : float) :
  init (Some pool) (Some curves) w0 = (Ok tt, w) ->
  curves <> [] ->
  Forall (fun pt : curve_point => is_nan (abs (score - pt.1)) = false) curves ->
  Forall (fun pt : curve_point => (pt.2.2 =? 0)%float = false) curves ->
  exists k pt,
    curves !! k = Some pt
    /\ get_lr score w = (Ok (pt.2.1 / pt.2.2)%float, w)
    /\ (forall j pj, curves !! j = Some pj ->
          (abs (score - pt.1) <=? abs (score - pj.1))%float = true)
    /\ (forall j pj, j < k -> curves !! j = Some pj ->
          (abs (score - pt.1) <? abs (score - pj.1))%float = true).
Proof.
  intros Hinit Hne Hnan Hden.
  apply init_ok in Hinit as (rows & _ & Hself & _).
  destruct (argmin_first_least ((fun c => abs (score - c)%float) <$> (fst <$> curves)))
    as (k & Hk & xk & Hxk & Hle & Hlt).
  { destruct curves; [congruence|discriminate]. }
  { rewrite Forall_fmap, Forall_fmap. exact Hnan. }
  rewrite !list_lookup_fmap in Hxk.
  destruct (curves !! k) as [pt|] eqn:Hpt; [|discriminate].
  cbn in Hxk. inversion Hxk; subst xk; clear Hxk.
  exists k, pt. split; [exact Hpt|]. split; [|split].
  - rewrite (get_lr_run score w (fst <$> curves) curves k pt);
      [|rewrite Hself; reflexivity|rewrite Hself; reflexivity|exact Hk|exact Hpt].
    rewrite Forall_lookup in Hden. rewrite (Hden k pt Hpt). reflexivity.
  - intros j pj Hj. apply (Hle j). rewrite !list_lookup_fmap, Hj. reflexivity.
  - intros j pj Hjk Hj. apply (Hlt j); [exact Hjk|].
    rewrite !list_lookup_fmap, Hj. reflexivity.
Qed.

Lemma get_lr_nearest_point_witness :
  exists k pt,
    Example.curve !! k = Some pt
    /\ get_lr 0.25 Example.ready = (Ok (pt.2.1 / pt.2.2)%float, Example.ready)
    /\ (forall j pj, Example.curve !! j = Some pj ->
          (abs (0.25 - pt.1) <=? abs (0.25 - pj.1))%float = true)
    /\ (forall j pj, j < k -> Example.curve !! j = Some pj ->
          (abs (0.25 - pt.1) <? abs (0.25 - pj.1))%float = true).
Proof.
  apply (get_lr_nearest_point Example.pool Example.curve Example.fresh_world
           Example.ready 0.25).
  - vm_compute. reflexivity.
  - discriminate.
  - repeat constructor.
  - repeat constructor.
Defined.

(** C10.  [can_recommend] and [recommend] leave the object as it was: the
    donor list, the curves, the two feature matrices and the cached scores
    are the same afterwards, whatever the outcome.  Every list object that
    was there keeps its contents, and the list that [recommend] returns is a
    new object, so it shares nothing with the donor records. *)
Theorem methods_leave_the_object_as_it_was argsort (client_data : dict) (limit : Z)
    (w : world) :
  (self (can_recommend client_data w).2 = self w
   /\ heap (can_recommend client_data w).2 = heap w)
  /\ (self (recommend argsort client_data limit w).2 = self w
      /\ (forall l, is_Some (heap w !! l) ->
            heap (recommend argsort client_data limit w).2 !! l = heap w !! l)
      /\ (forall r, (recommend argsort client_data limit w).1 = Ok r ->
            heap w !! r = None)).
Proof.
  split.
  - destruct (can_recommend client_data w) as [res w'] eqn:Hrun.
    exact (can_recommend_frame _ _ _ _ Hrun).
  - destruct (recommend argsort client_data limit w) as [res w'] eqn:Hrun.
    destruct (recommend_frame _ _ _ _ _ _ Hrun) as (Hs & Hh & Hr).
    cbn [fst snd]. split; [exact Hs|]. split; [exact Hh|].
    intros r ->. apply (Hr r eq_refl).
Qed.

(** C2.  For a positive [limit], the list that [recommend] returns has at
    most [limit] entries, whatever the donors and the profile; so the
    similarity recommender keeps the bound of the interface, and a manager
    whose recommenders all keep it returns at most [limit] identifiers. *)
Theorem recommend_returns_at_most_limit argsort (limit : Z) :
  (0 < limit)%Z ->
  (forall client_data w r w',
      recommend argsort client_data limit w = (Ok r, w') ->
      exists l, heap w' !! r = Some l /\ (Z.of_nat (length l) <= limit)%Z)
  /\ bounded limit (similarity_recommender argsort)
  /\ (forall (W : Type) (mgr : RecommendationManager W) client_id wt out wt',
        Forall (bounded limit) (recommenders mgr) ->
        manager_recommend mgr client_id limit wt = (Ok out, wt') ->
        (Z.of_nat (length out) <= limit)%Z).
Proof.
  intros Hlimit.
  assert (Hrec : forall client_data w r w',
    recommend argsort client_data limit w = (Ok r, w') ->
    exists l, heap w' !! r = Some l /\ (Z.of_nat (length l) <= limit)%Z).
  { intros client_data w r w' Hrun.
    destruct (recommend_frame _ _ _ _ _ _ Hrun) as (_ & _ & Hr).
    destruct (Hr r eq_refl) as (_ & l & Hl).
    exists (slice_to l limit). split; [exact Hl|]. apply slice_to_length. lia. }
  split; [exact Hrec|]. split.
  - intros client_data w out w' Hrun. cbn [similarity_recommender r_recommend] in Hrun.
    rewrite bind_run in Hrun.
    destruct (recommend argsort client_data limit w) as [[r|e] w1] eqn:Hr; [|discriminate].
    destruct (Hrec _ _ _ _ Hr) as (l & Hl & Hlen).
    unfold list_read, gets in Hrun. rewrite Hl in Hrun. inversion Hrun; subst. exact Hlen.
  - intros W mgr client_id wt out wt' Hall Hrun. unfold manager_recommend in Hrun.
    rewrite bind_run in Hrun. unfold call at 1 in Hrun.
    destruct (profile_fetcher_get mgr client_id wt.1) as [[[client_info|]|e] w1];
      [| |discriminate].
    + eapply recommend_loop_bounded; [| exact Hall | exact Hrun]. lia.
    + inversion Hrun; subst. cbn. lia.
Qed.

Lemma recommend_returns_at_most_limit_witness :
  exists l,
    heap (recommend stable_argsort Example.profile 5 Example.ready).2 !! 5%positive = Some l
    /\ (Z.of_nat (length l) <= 5)%Z.
Proof.
  assert (H5 : (0 < 5)%Z) by lia.
  destruct (recommend_returns_at_most_limit stable_argsort 5 H5) as [Hrec _].
  apply (Hrec Example.profile Example.ready 5%positive). vm_compute. reflexivity.
Defined.

(** C3.  On a built object, and for a profile with text in its three
    categorical features (as the specification types a profile), every
    identifier of the list that [recommend] returns is an add-on of a donor
    whose likelihood ratio is greater than 1.0.  When the donor list is not
    empty and no donor has a likelihood ratio above 1.0, [recommend] returns
    the empty list and raises nothing. *)
Theorem only_good_donors_contribute argsort (pool : list dict) (curves : list curve_point)
    (w0 w : world) (client_data : dict) (limit : Z) :
  init (Some pool) (Some curves) w0 = (Ok tt, w) ->
  closed (heap w) pool ->
  text_categories client_data ->
  (forall r w',
      recommend argsort client_data limit w = (Ok r, w') ->
      exists l, heap w' !! r = Some l
        /\ forall a, a ∈ l ->
             exists d lr items,
               d ∈ pool /\ donor_lr w client_data d = Ok lr /\ (1 <? lr)%float = true
               /\ active_addons (heap w) d = Ok items /\ a ∈ items)
  /\ (pool <> [] ->
      (forall keys, argsort keys ≡ₚ seq 0 (length keys)) ->
      (forall d, d ∈ pool ->
         exists lr, donor_lr w client_data d = Ok lr /\ (1 <? lr)%float = false) ->
      exists r w',
        recommend argsort client_data limit w = (Ok r, w') /\ heap w' !! r = Some []).
Proof.
  intros Hinit Hclosed Htext.
  apply init_ok in Hinit as (rows & Hrows & Hself & _).
  rewrite (recommend_run argsort client_data limit w pool curves rows) by assumption.
  unfold recommend_outcome. split.
  - intros r w' Hrun.
    destruct (similar_donors argsort w client_data pool) as [[ranking indices]|e] eqn:Hsd;
      [|discriminate].
    destruct ranking as [|top ranking]; [discriminate|]. cbv zeta in Hrun.
    destruct (gather pool (heap w) limit [] (select_good (top :: ranking) indices))
      as [[[]|e] acc] eqn:Hg; [|discriminate].
    inversion Hrun; subst r w'; clear Hrun. cbn [with_heap heap].
    exists (slice_to acc limit). split; [apply lookup_insert_eq|].
    intros a Ha. apply slice_to_elem_of in Ha.
    assert (Ha' : a ∈ (gather pool (heap w) limit []
                         (select_good (top :: ranking) indices)).2)
      by (rewrite Hg; exact Ha).
    apply gather_elem_of in Ha' as [Hnil|(i & d & items & Hi & Hd & Hitems & Hin)].
    { inversion Hnil. }
    apply select_good_elem_of in Hi as (k & lr & Hk & Hlr & Hgood).
    apply similar_donors_inv in Hsd as (lrs & Hlrs & _ & Hrk).
    destruct (Forall2_lookup_l _ _ _ _ _ Hrk Hk) as (lr' & Hlr' & Hi).
    assert (lr' = lr) by congruence. subst lr'.
    destruct (Forall2_lookup_l _ _ _ _ _ Hlrs Hd) as (lr' & Hlr'' & Hdlr).
    assert (lr' = lr) by congruence. subst lr'.
    exists d, lr, items. repeat split; auto.
    eapply list_elem_of_lookup_2; eauto.
  - intros Hne Hperm Hall.
    destruct (Forall_exists_Forall2
                (fun d lr => donor_lr w client_data d = Ok lr /\ (1 <? lr)%float = false) pool)
      as [lrs Hlrs].
    { apply Forall_forall. exact Hall. }
    destruct (similar_donors_total argsort w client_data pool lrs Hne Hperm)
      as (top & ranking & -> & Hin).
    { eapply Forall2_impl; [exact Hlrs|]. intros d lr [H _]. exact H. }
    cbv zeta. rewrite select_good_none.
    + cbn [gather]. do 2 eexists. split; [reflexivity|].
      cbn [with_heap heap]. rewrite lookup_insert_eq.
      unfold slice_to. destruct (limit <? 0)%Z; rewrite take_nil; reflexivity.
    + eapply Forall_impl; [exact Hin|]. intros x Hx.
      apply list_elem_of_lookup in Hx as [i Hi].
      destruct (Forall2_lookup_r _ _ _ _ _ Hlrs Hi) as (d & _ & _ & Hx). exact Hx.
Qed.

Lemma only_good_donors_contribute_witness :
  (exists l,
     heap (recommend stable_argsort Example.profile 5 Example.ready).2 !! 5%positive = Some l
     /\ forall a, a ∈ l ->
          exists d lr items,
            d ∈ Example.pool /\ donor_lr Example.ready Example.profile d = Ok lr
            /\ (1 <? lr)%float = true
            /\ active_addons (heap Example.ready) d = Ok items /\ a ∈ items)
  /\ (exists r w',
        recommend stable_argsort Example.far_profile 5 Example.ready = (Ok r, w')
        /\ heap w' !! r = Some []).
Proof.
  split.
  - apply (only_good_donors_contribute stable_argsort Example.pool Example.curve
             Example.fresh_world Example.ready Example.profile 5).
    + vm_compute. reflexivity.
    + apply closedb_closed. vm_compute. reflexivity.
    + apply text_categories_spelled. exists "Berlin", "de", "Linux". reflexivity.
    + vm_compute. reflexivity.
  - apply (only_good_donors_contribute stable_argsort Example.pool Example.curve
             Example.fresh_world Example.ready Example.far_profile 5).
    + vm_compute. reflexivity.
    + apply closedb_closed. vm_compute. reflexivity.
    + apply text_categories_spelled. exists "Tokyo", "ja", "BSD". reflexivity.
    + discriminate.
    + intros keys. apply stable_argsort_sorts.
    + intros d Hd. unfold Example.pool in Hd.
      repeat (apply elem_of_cons in Hd as [->|Hd]);
        [eexists; split; vm_compute; reflexivity ..|].
      inversion Hd.
Defined.

(** C9.  On a built object, for a positive [limit] and a profile with text in
    its three categorical features, the list that [recommend] returns is the
    first [limit] entries of the concatenation of the whole [active_addons]
    lists of the donors whose likelihood ratio is above 1.0, all of them and
    in the order of the ranking, which holds every donor once and is
    descending in the likelihood ratio.  The working list holds whole
    batches: the loop stops only once its length exceeds [limit] (or the
    donors are used up), and it was within [limit] before the last batch.
    Nothing is reordered or removed, so duplicates stay. *)
Theorem recommend_is_truncated_concatenation argsort (pool : list dict)
    (curves : list curve_point) (w0 w w' : world) (client_data : dict) (limit : Z)
    (r : loc) :
  init (Some pool) (Some curves) w0 = (Ok tt, w) ->
  closed (heap w) pool ->
  sorts argsort ->
  (0 < limit)%Z ->
  text_categories client_data ->
  recommend argsort client_data limit w = (Ok r, w') ->
  exists lrs indices,
    Forall2 (fun d lr => donor_lr w client_data d = Ok lr) pool lrs
    /\ ranks lrs indices
    /\ heap w' !! r
       = Some (take (Z.to_nat limit)
                 (concat (addons_at (heap w) pool <$> good_donors lrs indices)))
    /\ exists r0 k,
         k <= length (good_donors lrs indices)
         /\ heap w' !! r0
            = Some (concat (addons_at (heap w) pool <$> take k (good_donors lrs indices)))
         /\ (k = length (good_donors lrs indices)
             \/ (limit < Z.of_nat (length (concat (addons_at (heap w) pool
                                             <$> take k (good_donors lrs indices)))))%Z)
         /\ forall j, j < k ->
              (Z.of_nat (length (concat (addons_at (heap w) pool
                                   <$> take j (good_donors lrs indices))))
               <= limit)%Z.
Proof.
  intros Hinit Hclosed Hsorts Hlimit Htext Hrun.
  apply init_ok in Hinit as (rows & Hrows & Hself & _).
  destruct (recommend_ranked argsort client_data limit w w' pool curves rows r
              Hself Hrows Hclosed Hrun)
    as (lrs & acc & Hlrs & Hg & _ & (r0 & _ & Hr0) & Hr).
  exists lrs, (argsort (opp <$> lrs)).
  split; [exact Hlrs|]. split; [apply sorts_ranks, Hsorts|]. split.
  - rewrite Hr. f_equal.
    rewrite (gather_slice pool (heap w) limit (good_donors lrs (argsort (opp <$> lrs))) [] acc)
      by (first [exact Hg | lia]).
    reflexivity.
  - apply gather_batches in Hg as (k & Hk & Hacc & Hstop & Hbelow). cbn [app] in *.
    exists r0, k. split; [exact Hk|]. split; [rewrite Hr0, Hacc; reflexivity|]. split.
    + rewrite <- Hacc. exact Hstop.
    + intros [|j] Hj; [rewrite take_0; cbn; lia|]. apply Hbelow. lia.
Qed.

Lemma recommend_is_truncated_concatenation_witness :
  exists lrs indices,
    Forall2 (fun d lr => donor_lr Example.ready Example.profile d = Ok lr) Example.pool lrs
    /\ ranks lrs indices
    /\ heap (recommend stable_argsort Example.profile 5 Example.ready).2 !! 5%positive
       = Some (take (Z.to_nat 5)
                 (concat (addons_at (heap Example.ready) Example.pool
                            <$> good_donors lrs indices)))
    /\ exists r0 k,
         k <= length (good_donors lrs indices)
         /\ heap (recommend stable_argsort Example.profile 5 Example.ready).2 !! r0
            = Some (concat (addons_at (heap Example.ready) Example.pool
                              <$> take k (good_donors lrs indices)))
         /\ (k = length (good_donors lrs indices)
             \/ (5 < Z.of_nat (length (concat (addons_at (heap Example.ready) Example.pool
                                         <$> take k (good_donors lrs indices)))))%Z)
         /\ forall j, j < k ->
              (Z.of_nat (length (concat (addons_at (heap Example.ready) Example.pool
                                   <$> take j (good_donors lrs indices))))
               <= 5)%Z.
Proof.
  apply (recommend_is_truncated_concatenation stable_argsort Example.pool Example.curve
           Example.fresh_world Example.ready
           (recommend stable_argsort Example.profile 5 Example.ready).2
           Example.profile 5 5%positive).
  - vm_compute. reflexivity.
  - apply closedb_closed. vm_compute. reflexivity.
  - apply stable_argsort_sorts.
  - lia.
  - apply text_categories_spelled. exists "Berlin", "de", "Linux". reflexivity.
  - vm_compute. reflexivity.
Defined.

(** C8.  [recommend] is deterministic.  On a built object, a call on any
    world with the same object and the same add-on lists of the donors has
    the same outcome: the same exception, or a list with the same identifiers
    in the same order.  In particular a second call, on the world that the
    first one left, returns what the first returned. *)
Theorem recommend_is_deterministic argsort (pool : list dict) (curves : list curve_point)
    (w0 w : world) (client_data : dict) (limit : Z) :
  init (Some pool) (Some curves) w0 = (Ok tt, w) ->
  closed (heap w) pool ->
  (forall w2,
      self w2 = self w ->
      closed (heap w2) pool ->
      (forall d, d ∈ pool -> active_addons (heap w2) d = active_addons (heap w) d) ->
      returned (recommend argsort client_data limit w2)
      = returned (recommend argsort client_data limit w))
  /\ returned (recommend argsort client_data limit
                 (recommend argsort client_data limit w).2)
     = returned (recommend argsort client_data limit w).
Proof.
  intros Hinit Hclosed.
  apply init_ok in Hinit as (rows & Hrows & Hself & _).
  assert (Hgen : forall w2,
    self w2 = self w ->
    closed (heap w2) pool ->
    (forall d, d ∈ pool -> active_addons (heap w2) d = active_addons (heap w) d) ->
    returned (recommend argsort client_data limit w2)
    = returned (recommend argsort client_data limit w)).
  { intros w2 Hs2 Hc2 Hh2.
    rewrite (returned_recommend argsort client_data limit w2 pool curves rows);
      [|rewrite Hs2; exact Hself|exact Hrows|exact Hc2].
    rewrite (returned_recommend argsort client_data limit w pool curves rows) by assumption.
    apply recommendation_agree; assumption. }
  split; [exact Hgen|].
  destruct (recommend_frame argsort client_data limit w
              (recommend argsort client_data limit w).2
              (recommend argsort client_data limit w).1) as (Hs & Hh & _).
  { apply surjective_pairing. }
  apply Hgen.
  - exact Hs.
  - eapply closed_agree; eauto.
  - eapply active_addons_agree; eauto.
Qed.

Lemma recommend_is_deterministic_witness :
  returned (recommend stable_argsort Example.profile 5
              (recommend stable_argsort Example.profile 5 Example.ready).2)
  = returned (recommend stable_argsort Example.profile 5 Example.ready).
Proof.
  apply (recommend_is_deterministic stable_argsort Example.pool Example.curve
           Example.fresh_world Example.ready Example.profile 5).
  - vm_compute. reflexivity.
  - apply closedb_closed. vm_compute. reflexivity.
Defined.

(** C5.  On a built object, for a profile that has text in its three
    categorical features and numbers in its five continuous features, the
    score that [get_lr] is given for a donor, and that ranks the donor, is
    (canberra + 0.001) * hamming.  The Canberra distance is the sum of the
    terms |y - x| / (|y| + |x|) over the five continuous values of client and
    donor, added in the order of [CONTINUOUS_FEATURES]; the donor's values are
    the numbers of its record (NaN for a missing one).  The Hamming distance
    is the share of the three categorical features in which the donor record
    does not hold the client's text, the values compared as they are: a
    number or [None] in the donor record differs from every text. *)
Theorem ranking_uses_composite_distance argsort (pool : list dict)
    (curves : list curve_point) (w0 w : world) (client_data : dict)
    (ranking : list float) (indices : list nat) (c1 c2 c3 : string) (ys : list float) :
  init (Some pool) (Some curves) w0 = (Ok tt, w) ->
  dict_get client_data <$> CATEGORICAL_FEATURES = [VStr c1; VStr c2; VStr c3] ->
  dict_get client_data <$> CONTINUOUS_FEATURES = VNum <$> ys ->
  (get_similar_donors argsort client_data w).1 = Ok (ranking, indices) ->
  exists lrs,
    Forall2 (fun d lr =>
         exists xs,
           Forall2 stored (dict_get d <$> CONTINUOUS_FEATURES) xs
           /\ (get_lr (composite_distance ys xs (differing_categories d c1 c2 c3)) w).1
              = Ok lr) pool lrs
    /\ indices = argsort (opp <$> lrs)
    /\ Forall2 (fun i r => lrs !! i = Some r) indices ranking.
Proof.
  intros Hinit Hcat Hcont Hrun.
  apply init_ok in Hinit as (rows & Hrows & Hself & _).
  rewrite (get_similar_donors_run argsort client_data w pool curves rows) in Hrun
    by assumption.
  cbn [fst] in Hrun. apply similar_donors_inv in Hrun as (lrs & Hlrs & Hidx & Hrk).
  exists lrs. split; [|split; assumption].
  clear Hrk Hidx Hself. revert rows Hrows.
  induction Hlrs as [|d lr pool lrs Hd _ IH]; intros rows Hrows; [constructor|].
  inversion Hrows as [|? xs ? rows' Hxs Hrows']; subst.
  constructor; [|eapply IH; eauto].
  exists xs. split; [apply row_store_double_stored; exact Hxs|].
  unfold donor_lr in Hd.
  rewrite (donor_distance_spelled client_data d c1 c2 c3 ys xs Hcat Hcont Hxs),
    result_bind_ok in Hd.
  exact Hd.
Qed.

Lemma ranking_uses_composite_distance_witness :
  exists lrs,
    Forall2 (fun d lr =>
         exists xs,
           Forall2 stored (dict_get d <$> CONTINUOUS_FEATURES) xs
           /\ (get_lr (composite_distance [10; 2; 3; 40; 5]%float xs
                         (differing_categories d "Berlin" "de" "Linux"))
                 Example.ready).1 = Ok lr) Example.pool lrs
    /\ [0; 1; 2] = stable_argsort (opp <$> lrs)
    /\ Forall2 (fun i r => lrs !! i = Some r) [0; 1; 2] [9; 9; 0.25]%float.
Proof.
  apply (ranking_uses_composite_distance stable_argsort Example.pool Example.curve
           Example.fresh_world Example.ready Example.profile).
  - vm_compute. reflexivity.
  - reflexivity.
  - reflexivity.
  - vm_compute. reflexivity.
Defined.

(** C4.  The manager fetches the profile first.  Without a profile it
    returns the empty list and calls no recommender.  With a profile it asks
    the recommenders in the order of the tuple; at the first that answers
    [True] it calls [recommend] of that one and returns its outcome as it is,
    an empty list too, with no call of a later recommender; when all answer
    [False] it returns the empty list.  The trace lists every call made. *)
Theorem manager_returns_first_match {W : Type} (mgr : RecommendationManager W)
    (client_id : string) (limit : Z) (w w1 : W) (t : list event) :
  (profile_fetcher_get mgr client_id w = (Ok None, w1) ->
   manager_recommend mgr client_id limit (w, t)
   = (Ok [], (w1, t ++ [CallGet client_id])))
  /\ (forall client_info pre r post w2 w3 w4 out,
        profile_fetcher_get mgr client_id w = (Ok (Some client_info), w1) ->
        recommenders mgr = pre ++ r :: post ->
        declines client_info pre w1 w2 ->
        r_can_recommend r client_info w2 = (Ok true, w3) ->
        r_recommend r client_info limit w3 = (out, w4) ->
        manager_recommend mgr client_id limit (w, t)
        = (out,
           (w4, t ++ [CallGet client_id]
                  ++ can_recommend_calls client_info 0 (length pre)
                  ++ [CallCanRecommend (length pre) client_info;
                      selected_record client_id r;
                      CallRecommend (length pre) client_info limit]
                  ++ (if out is Ok [] then [no_recommendations_record client_id r] else []))))
  /\ (forall client_info w2,
        profile_fetcher_get mgr client_id w = (Ok (Some client_info), w1) ->
        declines client_info (recommenders mgr) w1 w2 ->
        manager_recommend mgr client_id limit (w, t)
        = (Ok [],
           (w2, t ++ [CallGet client_id]
                  ++ can_recommend_calls client_info 0 (length (recommenders mgr))
                  ++ [no_recommender_record client_id]))).
Proof.
  split; [|split].
  - intros Hget. unfold manager_recommend. rewrite bind_run.
    erewrite call_run by exact Hget. reflexivity.
  - intros client_info pre r post w2 w3 w4 out Hget Hrs Hdec Hcan Hrec.
    unfold manager_recommend. rewrite bind_run.
    erewrite call_run by exact Hget. cbv iota. rewrite Hrs.
    rewrite (recommend_loop_declines client_id client_info limit pre (r :: post) 0 w1 w2)
      by exact Hdec.
    rewrite (recommend_loop_selected client_id client_info limit r post _ w2 w3 w4 _ out)
      by assumption.
    cbn [Nat.add]. rewrite <- !app_assoc. reflexivity.
  - intros client_info w2 Hget Hdec.
    unfold manager_recommend. rewrite bind_run.
    erewrite call_run by exact Hget. cbv iota.
    rewrite <- (app_nil_r (recommenders mgr)) at 1.
    rewrite (recommend_loop_declines client_id client_info limit (recommenders mgr) [] 0 w1 w2)
      by exact Hdec.
    rewrite recommend_loop_nil, <- !app_assoc. reflexivity.
Qed.

Lemma manager_returns_first_match_witness :
  manager_recommend Example.manager "unknown" 5 (Example.ready, [])
  = (Ok [], (Example.ready, [CallGet "unknown"]))
  /\ (manager_recommend Example.manager "near" 5 (Example.ready, [])).1
     = Ok ["a1"; "a2"; "a3"; "b1"; "b2"]
  /\ (manager_recommend Example.manager "far" 5 (Example.ready, [])).1 = Ok []
  /\ (manager_recommend Example.manager "far" 5 (Example.ready, [])).2.2
     = [CallGet "far";
        CallCanRecommend 0 Example.far_profile;
        CallCanRecommend 1 Example.far_profile;
        selected_record "far" (similarity_recommender stable_argsort);
        CallRecommend 1 Example.far_profile 5;
        no_recommendations_record "far" (similarity_recommender stable_argsort)].
Proof.
  assert (Hdec : forall client_info,
            declines client_info [Example.never] Example.ready Example.ready).
  { intros client_info. apply (declines_cons _ _ _ _ Example.ready);
      [reflexivity | constructor]. }
  split; [|split; [|split]].
  - apply (manager_returns_first_match Example.manager "unknown" 5
             Example.ready Example.ready []).
    reflexivity.
  - destruct (manager_returns_first_match Example.manager "near" 5
                Example.ready Example.ready []) as (_ & Hsel & _).
    rewrite (Hsel Example.profile [Example.never] (similarity_recommender stable_argsort)
               [Example.fallback] Example.ready Example.ready
               (r_recommend (similarity_recommender stable_argsort)
                  Example.profile 5 Example.ready).2
               (r_recommend (similarity_recommender stable_argsort)
                  Example.profile 5 Example.ready).1
               eq_refl eq_refl (Hdec _) eq_refl (surjective_pairing _)).
    vm_compute. reflexivity.
  - destruct (manager_returns_first_match Example.manager "far" 5
                Example.ready Example.ready []) as (_ & Hsel & _).
    rewrite (Hsel Example.far_profile [Example.never]
               (similarity_recommender stable_argsort)
               [Example.fallback] Example.ready Example.ready
               (r_recommend (similarity_recommender stable_argsort)
                  Example.far_profile 5 Example.ready).2
               (r_recommend (similarity_recommender stable_argsort)
                  Example.far_profile 5 Example.ready).1
               eq_refl eq_refl (Hdec _) eq_refl (surjective_pairing _)).
    vm_compute. reflexivity.
  - destruct (manager_returns_first_match Example.manager "far" 5
                Example.ready Example.ready []) as (_ & Hsel & _).
    rewrite (Hsel Example.far_profile [Example.never]
               (similarity_recommender stable_argsort)
               [Example.fallback] Example.ready Example.ready
               (r_recommend (similarity_recommender stable_argsort)
                  Example.far_profile 5 Example.ready).2
               (r_recommend (similarity_recommender stable_argsort)
                  Example.far_profile 5 Example.ready).1
               eq_refl eq_refl (Hdec _) eq_refl (surjective_pairing _)).
    vm_compute. reflexivity.
Defined.

(** * Part IV: further properties of the code *)

(** X1.  [__init__] with both payloads returns for donor records whose
    continuous features are numbers, missing or [None].  It leaves
    [num_donors] at the length of the donor list, one row per donor, in the
    order of the list, in each of the two matrices (the numbers, with NaN
    where a feature is missing or [None], and the categorical values as they
    are), and the scores of the curve in [lr_curves_cache]; it logs nothing
    and touches no list object. *)
Theorem init_builds_the_caches (pool : list dict) (curves : list curve_point) (w0 : world) :
  Forall (fun d => forall f, f ∈ CONTINUOUS_FEATURES ->
            d !! f = None \/ d !! f = Some VNone \/ exists x, d !! f = Some (VNum x)) pool ->
  exists w,
    init (Some pool) (Some curves) w0 = (Ok tt, w)
    /\ self w
       = {| donors_pool := Some (Some pool);
            lr_curves := Some (Some curves);
            num_donors := Some (length pool);
            continuous_features :=
              Some ((fun d => number_or_nan d <$> CONTINUOUS_FEATURES) <$> pool);
            categorical_features :=
              Some ((fun d => dict_get d <$> CATEGORICAL_FEATURES) <$> pool);
            lr_curves_cache := Some (fst <$> curves) |}
    /\ heap w = heap w0 /\ logged w = logged w0.
Proof.
  intros Hall.
  destruct (init_run pool curves w0 _ (Forall2_continuous_row pool Hall)) as [w Hinit].
  exists w. split; [exact Hinit|].
  apply init_ok in Hinit as (rows & Hrows & Hself & Hh & Hl).
  rewrite (rows_number_or_nan pool rows Hall Hrows) in Hself.
  split; [exact Hself|]. split; assumption.
Qed.

Lemma init_builds_the_caches_witness :
  exists w,
    init (Some NaNCases.pool) (Some Example.curve) Example.fresh_world = (Ok tt, w)
    /\ self w
       = {| donors_pool := Some (Some NaNCases.pool);
            lr_curves := Some (Some Example.curve);
            num_donors := Some (length NaNCases.pool);
            continuous_features :=
              Some ((fun d => number_or_nan d <$> CONTINUOUS_FEATURES) <$> NaNCases.pool);
            categorical_features :=
              Some ((fun d => dict_get d <$> CATEGORICAL_FEATURES) <$> NaNCases.pool);
            lr_curves_cache := Some (fst <$> Example.curve) |}
    /\ heap w = heap Example.fresh_world /\ logged w = logged Example.fresh_world.
Proof.
  apply (init_builds_the_caches NaNCases.pool Example.curve Example.fresh_world).
  unfold NaNCases.pool.
  constructor; [|constructor; [|constructor]];
    intros f Hf; unfold CONTINUOUS_FEATURES in Hf;
    repeat (apply elem_of_cons in Hf as [->|Hf]); try (inversion Hf; fail);
    first [ left; vm_compute; reflexivity
          | right; right; eexists; vm_compute; reflexivity ].
Defined.

(** X2.  A donor record without a number in a continuous feature is kept, and
    its NaN decides its rank alone: for every profile with text in the
    categorical features and numbers in the continuous ones, the Canberra
    distance to that donor is NaN, and the likelihood ratio at its place in
    the ranking is the one of the first point of the curve, whatever the
    profile. *)
Theorem donor_without_a_number argsort (pool : list dict) (pt : curve_point)
    (curves : list curve_point) (w0 w : world) (client_data : dict)
    (ranking : list float) (indices : list nat) (c1 c2 c3 : string) (ys : list float)
    (k i : nat) (d : dict) (f : string) :
  init (Some pool) (Some (pt :: curves)) w0 = (Ok tt, w) ->
  dict_get client_data <$> CATEGORICAL_FEATURES = [VStr c1; VStr c2; VStr c3] ->
  dict_get client_data <$> CONTINUOUS_FEATURES = VNum <$> ys ->
  (get_similar_donors argsort client_data w).1 = Ok (ranking, indices) ->
  indices !! k = Some i ->
  pool !! i = Some d ->
  f ∈ CONTINUOUS_FEATURES ->
  d !! f = None \/ d !! f = Some VNone ->
  (pt.2.2 =? 0)%float = false
  /\ ranking !! k = Some (pt.2.1 / pt.2.2)%float.
Proof.
  intros Hinit Hcat Hcont Hrun Hk Hi Hf Hmiss.
  apply init_ok in Hinit as (rows & Hrows & Hself & _).
  destruct (ranking_entry argsort client_data w pool (pt :: curves) rows ranking indices
              k i d Hself Hrows Hrun Hk Hi) as (lr & Hlr & Hrk).
  destruct (Forall2_lookup_l _ _ _ _ _ Hrows Hi) as (xs & _ & Hxs).
  unfold donor_lr in Hlr.
  rewrite (donor_distance_spelled client_data d c1 c2 c3 ys xs Hcat Hcont Hxs),
    result_bind_ok in Hlr.
  assert (Hnan : is_nan (composite_distance ys xs (differing_categories d c1 c2 c3)) = true).
  { unfold composite_distance. apply is_nan_mul_l, is_nan_add_l.
    apply list_elem_of_lookup in Hf as [j Hj].
    pose proof (row_store_double_stored _ _ Hxs) as Hst.
    assert (Hv : (dict_get d <$> CONTINUOUS_FEATURES) !! j = Some VNone).
    { rewrite list_lookup_fmap, Hj. cbn. unfold dict_get.
      destruct Hmiss as [-> | ->]; reflexivity. }
    destruct (Forall2_lookup_l _ _ _ _ _ Hst Hv) as (x & Hx & [Hnum|[_ ->]]);
      [discriminate|].
    apply (is_nan_canberra_distance ys xs j nan Hx eq_refl).
    apply lookup_lt_Some in Hj.
    assert (Hlen : length (VNum <$> ys) = length CONTINUOUS_FEATURES)
      by (rewrite <- Hcont, length_fmap; reflexivity).
    rewrite length_fmap in Hlen. lia. }
  rewrite (get_lr_nan_run _ w pool pt curves rows Hself Hnan) in Hlr. cbn [fst] in Hlr.
  destruct (pt.2.2 =? 0)%float; [discriminate|].
  inversion Hlr; subst. split; [reflexivity|exact Hrk].
Qed.

Lemma donor_without_a_number_witness :
  ((0.8 =? 0)%float = false)
  /\ [(0.9 / 0.1)%float; (0.2 / 0.8)%float] !! 1 = Some (0.2 / 0.8)%float.
Proof.
  apply (donor_without_a_number stable_argsort NaNCases.pool (1, (0.2, 0.8))%float
           [(0, (0.9, 0.1)); (0.5, (0.6, 0.3))]%float Example.fresh_world NaNCases.ready
           Example.profile [(0.9 / 0.1)%float; (0.2 / 0.8)%float] [0; 1]
           "Berlin" "de" "Linux" [10; 2; 3; 40; 5]%float 1 1
           (delete "total_uri" (Example.donor "Berlin" "en" "Linux" 10 2 3 40 5 2%positive))
           "total_uri").
  - vm_compute. reflexivity.
  - reflexivity.
  - reflexivity.
  - vm_compute. reflexivity.
  - reflexivity.
  - reflexivity.
  - apply list_elem_of_In. cbn. tauto.
  - left. vm_compute. reflexivity.
Defined.

(** X3.  When a download failed ([None] for the donor list or for the
    curves), [__init__] raises nothing: it assigns the two payload attributes,
    logs one error for each missing payload, donors first, builds no cache
    and touches no list object.  On an object that was new, [get_lr] and
    [recommend] then raise [AttributeError]: only [can_recommend] stands
    between the caller and the missing caches. *)
Theorem init_without_payload (donors : option (list dict))
    (curves : option (list curve_point)) (w0 : world) :
  donors = None \/ curves = None ->
  exists w,
    init donors curves w0 = (Ok tt, w)
    /\ self w = upd_lr_curves curves (upd_donors_pool donors (self w0))
    /\ heap w = heap w0
    /\ logged w = logged w0 ++ (if donors is None then [donors_error] else [])
                            ++ (if curves is None then [curves_error] else [])
    /\ (self w0 = new_object ->
        (forall score, (get_lr score w).1 = Raise AttributeError)
        /\ forall argsort client_data limit,
             (recommend argsort client_data limit w).1 = Raise AttributeError).
Proof.
  intros Hnone.
  assert (Hrun : exists w,
    init donors curves w0 = (Ok tt, w)
    /\ self w = upd_lr_curves curves (upd_donors_pool donors (self w0))
    /\ heap w = heap w0
    /\ logged w = logged w0 ++ (if donors is None then [donors_error] else [])
                            ++ (if curves is None then [curves_error] else [])).
  { destruct donors as [pool|], curves as [cs|];
      try (destruct Hnone; discriminate);
      (eexists; split; [reflexivity|]);
      cbn; rewrite <- ?app_assoc, ?app_nil_r; repeat split; reflexivity. }
  destruct Hrun as (w & Hinit & Hself & Hheap & Hlog).
  exists w. split; [exact Hinit|]. split; [exact Hself|]. split; [exact Hheap|].
  split; [exact Hlog|]. intros Hnew. split.
  - intros score. unfold get_lr. rewrite bind_run. unfold attr at 1.
    rewrite Hself, Hnew. reflexivity.
  - intros argsort client_data limit. unfold recommend, get_similar_donors.
    rewrite !bind_run. unfold attr at 1. rewrite Hself, Hnew. reflexivity.
Qed.

Lemma init_without_payload_witness :
  exists w,
    init None (Some Example.curve) Example.fresh_world = (Ok tt, w)
    /\ self w = upd_lr_curves (Some Example.curve) (upd_donors_pool None new_object)
    /\ heap w = Example.lists
    /\ logged w = [donors_error]
    /\ ((forall score, (get_lr score w).1 = Raise AttributeError)
        /\ forall argsort client_data limit,
             (recommend argsort client_data limit w).1 = Raise AttributeError).
Proof.
  destruct (init_without_payload None (Some Example.curve) Example.fresh_world
              (or_introl eq_refl)) as (w & H1 & H2 & H3 & H4 & H5).
  exists w. split; [exact H1|]. split; [exact H2|]. split; [exact H3|].
  split; [exact H4|]. apply H5. reflexivity.
Defined.

(** X4.  After [__init__], [can_recommend] returns [True] exactly when both
    payloads were downloaded and each of the eight required fields is in the
    profile with a value other than [None].  It logs one error when the
    payloads are there and the profile is not complete, and nothing
    otherwise. *)
Theorem can_recommend_exactly (donors : option (list dict))
    (curves : option (list curve_point)) (w0 : world) (client_data : dict) :
  ((can_recommend client_data (init donors curves w0).2).1 = Ok true
   <-> donors <> None /\ curves <> None
       /\ forall f, f ∈ CATEGORICAL_FEATURES ++ CONTINUOUS_FEATURES ->
            exists v, client_data !! f = Some v /\ v <> VNone)
  /\ logged (can_recommend client_data (init donors curves w0).2).2
     = logged (init donors curves w0).2
       ++ (if donors is None then []
           else if curves is None then []
           else if has_required_fields client_data then [] else [unusable_error]).
Proof.
  destruct (init_payload donors curves w0) as [Hp Hc].
  rewrite (can_recommend_run _ _ _ _ Hp Hc).
  rewrite <- has_required_fields_true.
  destruct donors as [pool|]; [|split; [split; [discriminate|tauto]|]];
    [|cbn; rewrite app_nil_r; reflexivity].
  destruct curves as [cs|]; [|split; [split; [discriminate|tauto]|]];
    [|cbn; rewrite app_nil_r; reflexivity].
  destruct (has_required_fields client_data); cbn [fst snd].
  - split; [split; [intros _; repeat split; congruence|reflexivity]|].
    rewrite app_nil_r. reflexivity.
  - split; [split; [discriminate|intros (_ & _ & ?); discriminate]|]. reflexivity.
Qed.

(** X5.  [recommend] hands one record to the logger, a warning that carries
    the best likelihood ratio, exactly when it got a ranking and the best
    likelihood ratio is below 2.0; otherwise it logs nothing, whether it
    returns a list or raises. *)
Theorem recommend_warns_below_two argsort (client_data : dict) (limit : Z) (w w' : world)
    (res : result loc) :
  recommend argsort client_data limit w = (res, w') ->
  logged w'
  = logged w
    ++ match (get_similar_donors argsort client_data w).1 with
       | Ok (top :: _, _) => if (top <? 2)%float then [low_similarity_warning top] else []
       | _ => []
       end.
Proof.
  intros Hrun. unfold recommend in Hrun. rewrite bind_run in Hrun.
  destruct (reads_self_get_similar_donors argsort client_data) as [Hw _].
  specialize (Hw w).
  destruct (get_similar_donors argsort client_data w) as [[[ranking indices]|e] w0];
    cbn [fst snd] in *; subst w0;
    [|inversion Hrun; subst; rewrite app_nil_r; reflexivity].
  rewrite bind_run in Hrun. unfold index at 1 in Hrun.
  destruct ranking as [|top ranking];
    [inversion Hrun; subst; rewrite app_nil_r; reflexivity|].
  cbn [lookup list_lookup] in Hrun. rewrite ret_run, bind_run in Hrun.
  set (w1 := if (top <? 2)%float
             then with_logged (fun l => l ++ [low_similarity_warning top]) w else w).
  assert (Hlog : ((if (top <? 2)%float
                   then logger WARNING
                     "Addons recommended with very low similarity score, perhaps donor set is unrepresentative"
                     [("maximum_similarity", VNum top)]
                   else mret tt) : M world unit) w = (Ok tt, w1))
    by (subst w1; destruct (top <? 2)%float; reflexivity).
  rewrite Hlog in Hrun.
  assert (Hl1 : logged w1
                = logged w ++ if (top <? 2)%float then [low_similarity_warning top] else [])
    by (subst w1; destruct (top <? 2)%float; [reflexivity|rewrite app_nil_r; reflexivity]).
  rewrite <- Hl1. clear Hlog Hl1.
  rewrite bind_run in Hrun. unfold list_new at 1 in Hrun. rewrite bind_run in Hrun.
  match type of Hrun with context [extend_loop ?r0 limit ?idxs ?w2] =>
    destruct (extend_loop r0 limit idxs w2) as [[[]|e] w3] eqn:Hloop;
    apply extend_loop_frame in Hloop; cbn [with_heap self heap logged] in Hloop;
    destruct Hloop as (_ & Hl3 & _)
  end.
  - unfold list_slice_to in Hrun. rewrite bind_run in Hrun.
    unfold list_read, gets, list_new in Hrun. inversion Hrun; subst. exact Hl3.
  - inversion Hrun; subst. exact Hl3.
Qed.

Lemma recommend_warns_below_two_witness :
  logged (recommend stable_argsort Example.far_profile 5 Example.ready).2
  = logged Example.ready
    ++ match (get_similar_donors stable_argsort Example.far_profile Example.ready).1 with
       | Ok (top :: _, _) => if (top <? 2)%float then [low_similarity_warning top] else []
       | _ => []
       end.
Proof.
  apply (recommend_warns_below_two stable_argsort Example.far_profile 5 Example.ready
           (recommend stable_argsort Example.far_profile 5 Example.ready).2
           (recommend stable_argsort Example.far_profile 5 Example.ready).1).
  apply surjective_pairing.
Defined.

(** X6.  An empty calibration curve is not caught by [can_recommend] either:
    on an object built from a non-empty donor list and the empty curve,
    [can_recommend] returns [True] for a complete profile, and [recommend]
    raises [ValueError], from [argmin] of an empty array in [get_lr]. *)
Theorem empty_curve_is_accepted argsort (pool : list dict) (w0 w : world)
    (client_data : dict) (limit : Z) (y : list float) :
  init (Some pool) (Some []) w0 = (Ok tt, w) ->
  pool <> [] ->
  has_required_fields client_data = true ->
  client_continuous client_data = Ok y ->
  (can_recommend client_data w).1 = Ok true
  /\ (forall score, (get_lr score w).1 = Raise ValueError)
  /\ (recommend argsort client_data limit w).1 = Raise ValueError.
Proof.
  intros Hinit Hne Hfields Hy.
  apply init_ok in Hinit as (rows & Hrows & Hself & _).
  assert (Hlr : forall score, (get_lr score w).1 = Raise ValueError).
  { intros score. unfold get_lr. rewrite bind_run.
    rewrite (attr_run _ _ []) by (rewrite Hself; reflexivity). reflexivity. }
  split; [|split; [exact Hlr|]].
  - rewrite (can_recommend_run _ _ (Some pool) (Some [])) by (rewrite Hself; reflexivity).
    rewrite Hfields. reflexivity.
  - unfold recommend. rewrite bind_run.
    rewrite (get_similar_donors_run argsort client_data w pool [] rows) by assumption.
    unfold similar_donors. rewrite Hy, result_bind_ok.
    destruct Hrows as [|d row pool rows Hd _]; [congruence|].
    assert (Hdd : exists x, donor_distance client_data d = Ok x)
      by (unfold donor_distance; rewrite Hy, Hd; eexists; reflexivity).
    destruct Hdd as [x Hx].
    cbn [mapM]. rewrite (donor_lr_run w client_data d x Hx), Hlr. reflexivity.
Qed.

Lemma empty_curve_is_accepted_witness :
  (can_recommend Example.profile (init (Some Example.pool) (Some []) Example.fresh_world).2).1
  = Ok true
  /\ (forall score,
        (get_lr score (init (Some Example.pool) (Some []) Example.fresh_world).2).1
        = Raise ValueError)
  /\ (recommend stable_argsort Example.profile 10
        (init (Some Example.pool) (Some []) Example.fresh_world).2).1 = Raise ValueError.
Proof.
  apply (empty_curve_is_accepted stable_argsort Example.pool Example.fresh_world
           (init (Some Example.pool) (Some []) Example.fresh_world).2
           Example.profile 10 [10; 2; 3; 40; 5]%float).
  - vm_compute. reflexivity.
  - discriminate.
  - reflexivity.
  - reflexivity.
Defined.

(** X7.  On a built object, when the curve point that is nearest to the score
    (the first one among equally near points) has a zero denominator, [get_lr]
    raises [ZeroDivisionError]; minus zero counts as zero. *)
Theorem get_lr_zero_denominator (pool : list dict) (curves : list curve_point)
    (w0 w : world) (score : float) (k : nat) (pt : curve_point) :
  init (Some pool) (Some curves) w0 = (Ok tt, w) ->
  Forall (fun p : curve_point => is_nan (abs (score - p.1)) = false) curves ->
  curves !! k = Some pt ->
  first_least ((fun p : curve_point => abs (score - p.1)%float) <$> curves) k ->
  (pt.2.2 =? 0)%float = true ->
  get_lr score w = (Raise ZeroDivisionError, w).
Proof.
  intros Hinit Hnan Hpt Hfl Hzero.
  apply init_ok in Hinit as (rows & _ & Hself & _).
  assert (Hmap : (fun c => abs (score - c)%float) <$> (fst <$> curves)
                 = (fun p : curve_point => abs (score - p.1)%float) <$> curves).
  { rewrite <- list_fmap_compose. reflexivity. }
  destruct (argmin_first_least ((fun c => abs (score - c)%float) <$> (fst <$> curves)))
    as (k' & Hk' & Hfl').
  { destruct curves; [rewrite lookup_nil in Hpt; discriminate|discriminate]. }
  { rewrite Hmap, Forall_fmap. exact Hnan. }
  rewrite Hmap in Hfl'. assert (k' = k) by (eapply first_least_unique; eauto). subst k'.
  rewrite (get_lr_run score w (fst <$> curves) curves k pt);
    [|rewrite Hself; reflexivity|rewrite Hself; reflexivity|exact Hk'|exact Hpt].
  rewrite Hzero. reflexivity.
Qed.

Lemma get_lr_zero_denominator_witness :
  get_lr 0.4
    (init (Some Example.pool) (Some [(1, (0.2, 0.8)); (0.5, (0.6, -0))]%float)
       Example.fresh_world).2
  = (Raise ZeroDivisionError,
     (init (Some Example.pool) (Some [(1, (0.2, 0.8)); (0.5, (0.6, -0))]%float)
        Example.fresh_world).2).
Proof.
  apply (get_lr_zero_denominator Example.pool [(1, (0.2, 0.8)); (0.5, (0.6, -0))]%float
           Example.fresh_world _ 0.4 1 (0.5, (0.6, -0))%float).
  - vm_compute. reflexivity.
  - repeat constructor.
  - reflexivity.
  - exists (abs (0.4 - 0.5))%float. split; [reflexivity|]. split.
    + intros [|[|j]] xj Hj; cbn in Hj; inversion Hj; subst; reflexivity.
    + intros [|j] xj Hlt Hj; [|lia]. cbn in Hj. inversion Hj; subst. reflexivity.
  - reflexivity.
Defined.

(** X8.  On a built object, for a profile with text in its three categorical
    features, and when [argsort] returns a permutation of the positions,
    [get_similar_donors] returns every donor once: the indices are a
    permutation of the positions of the donor list, there is one likelihood
    ratio per donor, and the ratio at a rank is the one computed for the donor
    whose index is at that rank. *)
Theorem ranking_pairs_each_donor argsort (pool : list dict) (curves : list curve_point)
    (w0 w : world) (client_data : dict) (ranking : list float) (indices : list nat) :
  init (Some pool) (Some curves) w0 = (Ok tt, w) ->
  text_categories client_data ->
  (forall keys, argsort keys ≡ₚ seq 0 (length keys)) ->
  (get_similar_donors argsort client_data w).1 = Ok (ranking, indices) ->
  indices ≡ₚ seq 0 (length pool)
  /\ length ranking = length pool
  /\ forall k i, indices !! k = Some i ->
       exists d lr,
         pool !! i = Some d /\ donor_lr w client_data d = Ok lr /\ ranking !! k = Some lr.
Proof.
  intros Hinit Htext Hperm Hrun.
  apply init_ok in Hinit as (rows & Hrows & Hself & _).
  rewrite (get_similar_donors_run argsort client_data w pool curves rows) in Hrun
    by assumption.
  cbn [fst] in Hrun. apply similar_donors_inv in Hrun as (lrs & Hlrs & -> & Hrk).
  pose proof (Forall2_length _ _ _ Hlrs) as Hlen.
  assert (Hp : argsort (opp <$> lrs) ≡ₚ seq 0 (length pool))
    by (rewrite (Hperm (opp <$> lrs)), length_fmap, Hlen; reflexivity).
  split; [exact Hp|]. split.
  - rewrite <- (Forall2_length _ _ _ Hrk), Hp, length_seq. reflexivity.
  - intros k i Hk.
    destruct (Forall2_lookup_l _ _ _ _ _ Hrk Hk) as (lr & Hlr & Hi).
    destruct (Forall2_lookup_r _ _ _ _ _ Hlrs Hi) as (d & Hd & Hdlr).
    exists d, lr. auto.
Qed.

Lemma ranking_pairs_each_donor_witness :
  [0; 1; 2] ≡ₚ seq 0 (length Example.pool)
  /\ length [9%float; 9%float; 0.25%float] = length Example.pool
  /\ forall k i, [0; 1; 2] !! k = Some i ->
       exists d lr,
         Example.pool !! i = Some d
         /\ donor_lr Example.ready Example.profile d = Ok lr
         /\ [9%float; 9%float; 0.25%float] !! k = Some lr.
Proof.
  apply (ranking_pairs_each_donor stable_argsort Example.pool Example.curve
           Example.fresh_world Example.ready Example.profile).
  - vm_compute. reflexivity.
  - apply text_categories_spelled. exists "Berlin", "de", "Linux". reflexivity.
  - intros keys. apply stable_argsort_sorts.
  - vm_compute. reflexivity.
Defined.

(** X9.  [limit] need not be positive.  On a built object, for a profile with
    text in its three categorical features, with [limit = 0] the list that
    [recommend] returns is empty.  With a negative [limit] the loop stops
    after the first donor it reads, so the result is the add-ons of the first
    donor of the ranking whose likelihood ratio is above 1.0, without their
    last [-limit] entries (Python's [[:limit]]), and empty when no donor has
    such a ratio. *)
Theorem recommend_with_limit_not_positive argsort (pool : list dict)
    (curves : list curve_point) (w0 w w' : world) (client_data : dict) (limit : Z)
    (r : loc) :
  init (Some pool) (Some curves) w0 = (Ok tt, w) ->
  closed (heap w) pool ->
  sorts argsort ->
  text_categories client_data ->
  (limit <= 0)%Z ->
  recommend argsort client_data limit w = (Ok r, w') ->
  exists lrs indices,
    Forall2 (fun d lr => donor_lr w client_data d = Ok lr) pool lrs
    /\ ranks lrs indices
    /\ heap w' !! r
       = Some (if (limit =? 0)%Z then []
               else match good_donors lrs indices with
                    | [] => []
                    | i :: _ =>
                        take (length (addons_at (heap w) pool i) - Z.to_nat (- limit))
                          (addons_at (heap w) pool i)
                    end).
Proof.
  intros Hinit Hclosed Hsorts Htext Hlimit Hrun.
  apply init_ok in Hinit as (rows & Hrows & Hself & _).
  destruct (recommend_ranked argsort client_data limit w w' pool curves rows r
              Hself Hrows Hclosed Hrun)
    as (lrs & acc & Hlrs & Hg & _ & _ & Hr).
  exists lrs, (argsort (opp <$> lrs)).
  split; [exact Hlrs|]. split; [apply sorts_ranks, Hsorts|].
  rewrite Hr. f_equal.
  destruct (limit =? 0)%Z eqn:Hz.
  - apply Z.eqb_eq in Hz. subst limit. rewrite slice_to_take by lia. reflexivity.
  - apply Z.eqb_neq in Hz.
    destruct (good_donors lrs (argsort (opp <$> lrs))) as [|i rest]; cbn [gather] in Hg.
    + inversion Hg; subst. apply slice_to_nil.
    + unfold addons_at. destruct (pool !! i) as [d|]; [|discriminate].
      destruct (active_addons (heap w) d) as [items|e]; [|discriminate].
      cbn [app] in Hg.
      destruct (limit <? Z.of_nat (length items))%Z eqn:Hcmp;
        [|apply Z.ltb_ge in Hcmp; lia].
      inversion Hg; subst acc. unfold slice_to.
      destruct (limit <? 0)%Z eqn:Hn; [|apply Z.ltb_ge in Hn; lia]. f_equal. lia.
Qed.

Lemma recommend_with_limit_not_positive_witness :
  (exists lrs indices,
     Forall2 (fun d lr => donor_lr Example.ready Example.profile d = Ok lr) Example.pool lrs
     /\ ranks lrs indices
     /\ heap (recommend stable_argsort Example.profile 0 Example.ready).2 !! 5%positive
        = Some (if (0 =? 0)%Z then []
                else match good_donors lrs indices with
                     | [] => []
                     | i :: _ =>
                         take (length (addons_at (heap Example.ready) Example.pool i)
                               - Z.to_nat (- 0))
                           (addons_at (heap Example.ready) Example.pool i)
                     end))
  /\ (exists lrs indices,
        Forall2 (fun d lr => donor_lr Example.ready Example.profile d = Ok lr)
          Example.pool lrs
        /\ ranks lrs indices
        /\ heap (recommend stable_argsort Example.profile (-1) Example.ready).2 !! 5%positive
           = Some (if (-1 =? 0)%Z then []
                   else match good_donors lrs indices with
                        | [] => []
                        | i :: _ =>
                            take (length (addons_at (heap Example.ready) Example.pool i)
                                  - Z.to_nat (- -1))
                              (addons_at (heap Example.ready) Example.pool i)
                        end)).
Proof.
  split.
  - apply (recommend_with_limit_not_positive stable_argsort Example.pool Example.curve
             Example.fresh_world Example.ready
             (recommend stable_argsort Example.profile 0 Example.ready).2
             Example.profile 0 5%positive).
    + vm_compute. reflexivity.
    + apply closedb_closed. vm_compute. reflexivity.
    + apply stable_argsort_sorts.
    + apply text_categories_spelled. exists "Berlin", "de", "Linux". reflexivity.
    + lia.
    + vm_compute. reflexivity.
  - apply (recommend_with_limit_not_positive stable_argsort Example.pool Example.curve
             Example.fresh_world Example.ready
             (recommend stable_argsort Example.profile (-1) Example.ready).2
             Example.profile (-1) 5%positive).
    + vm_compute. reflexivity.
    + apply closedb_closed. vm_compute. reflexivity.
    + apply stable_argsort_sorts.
    + apply text_categories_spelled. exists "Berlin", "de", "Linux". reflexivity.
    + lia.
    + vm_compute. reflexivity.
Defined.

(** X10.  On a built object, for a profile with text in its three categorical
    features, when the first donor of the ranking whose likelihood ratio is
    above 1.0 has no [active_addons] key, [recommend] raises [KeyError]. *)
Theorem recommend_raises_on_missing_addons argsort (pool : list dict)
    (curves : list curve_point) (w0 w : world) (client_data : dict) (limit : Z)
    (lrs : list float) (i : nat) (rest : list nat) (d : dict) :
  init (Some pool) (Some curves) w0 = (Ok tt, w) ->
  closed (heap w) pool ->
  sorts argsort ->
  text_categories client_data ->
  Forall2 (fun d lr => donor_lr w client_data d = Ok lr) pool lrs ->
  good_donors lrs (argsort (opp <$> lrs)) = i :: rest ->
  pool !! i = Some d ->
  d !! "active_addons" = None ->
  (recommend argsort client_data limit w).1 = Raise KeyError.
Proof.
  intros Hinit Hclosed Hsorts Htext Hlrs Hgood Hi Hd.
  apply init_ok in Hinit as (rows & Hrows & Hself & _).
  rewrite (recommend_run argsort client_data limit w pool curves rows) by assumption.
  unfold recommend_outcome.
  assert (Hne : pool <> []) by (intros ->; rewrite lookup_nil in Hi; discriminate).
  destruct (similar_donors_total argsort w client_data pool lrs Hne
              (fun keys => proj1 (Hsorts keys)) Hlrs) as (top & ranking & Hsd & _).
  rewrite Hsd. cbv zeta.
  apply similar_donors_inv in Hsd as (lrs' & Hlrs' & Hidx & Hrk).
  assert (lrs' = lrs) by (eapply Forall2_result_functional; eauto). subst lrs'.
  rewrite (select_good_good_donors lrs) by exact Hrk.
  rewrite Hgood. cbn [gather]. rewrite Hi. unfold active_addons. rewrite Hd. reflexivity.
Qed.

Lemma recommend_raises_on_missing_addons_witness :
  (recommend stable_argsort Example.profile 5
     (init (Some [Example.record "Berlin" "de" "Linux" 10 2 3 40 5])
        (Some Example.curve) Example.fresh_world).2).1 = Raise KeyError.
Proof.
  apply (recommend_raises_on_missing_addons stable_argsort
           [Example.record "Berlin" "de" "Linux" 10 2 3 40 5] Example.curve
           Example.fresh_world _ Example.profile 5 [(0.9 / 0.1)%float] 0 []
           (Example.record "Berlin" "de" "Linux" 10 2 3 40 5)).
  - vm_compute. reflexivity.
  - apply closedb_closed. vm_compute. reflexivity.
  - apply stable_argsort_sorts.
  - apply text_categories_spelled. exists "Berlin", "de", "Linux". reflexivity.
  - constructor; [vm_compute; reflexivity|constructor].
  - vm_compute. reflexivity.
  - reflexivity.
  - reflexivity.
Defined.

(** X11.  On a built object, for [limit >= 0] and a profile with text in its
    three categorical features, the list that [recommend] returns has exactly
    [limit] entries when the donors whose likelihood ratio is above 1.0 have
    that many add-ons together, and all of their add-ons otherwise. *)
Theorem recommend_length_is_the_minimum argsort (pool : list dict)
    (curves : list curve_point) (w0 w w' : world) (client_data : dict) (limit : Z)
    (r : loc) :
  init (Some pool) (Some curves) w0 = (Ok tt, w) ->
  closed (heap w) pool ->
  sorts argsort ->
  text_categories client_data ->
  (0 <= limit)%Z ->
  recommend argsort client_data limit w = (Ok r, w') ->
  exists lrs indices l,
    Forall2 (fun d lr => donor_lr w client_data d = Ok lr) pool lrs
    /\ ranks lrs indices
    /\ heap w' !! r = Some l
    /\ length l
       = Nat.min (Z.to_nat limit)
           (length (concat (addons_at (heap w) pool <$> good_donors lrs indices))).
Proof.
  intros Hinit Hclosed Hsorts Htext Hlimit Hrun.
  apply init_ok in Hinit as (rows & Hrows & Hself & _).
  destruct (recommend_ranked argsort client_data limit w w' pool curves rows r
              Hself Hrows Hclosed Hrun)
    as (lrs & acc & Hlrs & Hg & _ & _ & Hr).
  exists lrs, (argsort (opp <$> lrs)), (slice_to acc limit).
  split; [exact Hlrs|]. split; [apply sorts_ranks, Hsorts|]. split; [exact Hr|].
  rewrite (gather_slice pool (heap w) limit (good_donors lrs (argsort (opp <$> lrs))) [] acc)
    by (first [exact Hg | lia]).
  cbn [app]. apply length_take.
Qed.

Lemma recommend_length_is_the_minimum_witness :
  exists lrs indices l,
    Forall2 (fun d lr => donor_lr Example.ready Example.profile d = Ok lr) Example.pool lrs
    /\ ranks lrs indices
    /\ heap (recommend stable_argsort Example.profile 10 Example.ready).2 !! 5%positive
       = Some l
    /\ length l
       = Nat.min (Z.to_nat 10)
           (length (concat (addons_at (heap Example.ready) Example.pool
                              <$> good_donors lrs indices))).
Proof.
  apply (recommend_length_is_the_minimum stable_argsort Example.pool Example.curve
           Example.fresh_world Example.ready
           (recommend stable_argsort Example.profile 10 Example.ready).2
           Example.profile 10 5%positive).
  - vm_compute. reflexivity.
  - apply closedb_closed. vm_compute. reflexivity.
  - apply stable_argsort_sorts.
  - apply text_categories_spelled. exists "Berlin", "de", "Linux". reflexivity.
  - lia.
  - vm_compute. reflexivity.
Defined.

(** X12.  Asking for fewer gives a prefix of asking for more: on a built
    object, for [0 <= limit1 <= limit2], the list that [recommend] returns for
    [limit1] is a prefix of the one it returns for [limit2]. *)
Theorem recommend_is_monotone_in_limit argsort (pool : list dict)
    (curves : list curve_point) (w0 w w1 w2 : world) (client_data : dict)
    (limit1 limit2 : Z) (r1 r2 : loc) :
  init (Some pool) (Some curves) w0 = (Ok tt, w) ->
  closed (heap w) pool ->
  (0 <= limit1 <= limit2)%Z ->
  recommend argsort client_data limit1 w = (Ok r1, w1) ->
  recommend argsort client_data limit2 w = (Ok r2, w2) ->
  exists l1 l2,
    heap w1 !! r1 = Some l1 /\ heap w2 !! r2 = Some l2 /\ l1 `prefix_of` l2.
Proof.
  intros Hinit Hclosed Hlimits Hrun1 Hrun2.
  apply init_ok in Hinit as (rows & Hrows & Hself & _).
  rewrite (recommend_run argsort client_data limit1 w pool curves rows) in Hrun1
    by assumption.
  rewrite (recommend_run argsort client_data limit2 w pool curves rows) in Hrun2
    by assumption.
  unfold recommend_outcome in Hrun1, Hrun2.
  destruct (similar_donors argsort w client_data pool) as [[ranking indices]|e];
    [|discriminate].
  destruct ranking as [|top ranking]; [discriminate|]. cbv zeta in Hrun1, Hrun2.
  set (good := select_good (top :: ranking) indices) in *.
  destruct (gather pool (heap w) limit1 [] good) as [[[]|e] acc1] eqn:Hg1; [|discriminate].
  destruct (gather pool (heap w) limit2 [] good) as [[[]|e] acc2] eqn:Hg2; [|discriminate].
  inversion Hrun1; subst r1 w1; clear Hrun1.
  inversion Hrun2; subst r2 w2; clear Hrun2. cbn [with_heap heap].
  rewrite !lookup_insert_eq. do 2 eexists. split; [reflexivity|]. split; [reflexivity|].
  rewrite (gather_slice pool (heap w) limit1 good [] acc1) by (auto; lia).
  rewrite (gather_slice pool (heap w) limit2 good [] acc2) by (auto; lia).
  cbn [app].
  replace (Z.to_nat limit1) with (Nat.min (Z.to_nat limit1) (Z.to_nat limit2)) by lia.
  rewrite <- take_take. apply prefix_take.
Qed.

Lemma recommend_is_monotone_in_limit_witness :
  exists l1 l2,
    heap (recommend stable_argsort Example.profile 2 Example.ready).2 !! 5%positive = Some l1
    /\ heap (recommend stable_argsort Example.profile 5 Example.ready).2 !! 5%positive
       = Some l2
    /\ l1 `prefix_of` l2.
Proof.
  apply (recommend_is_monotone_in_limit stable_argsort Example.pool Example.curve
           Example.fresh_world Example.ready _ _ Example.profile 2 5).
  - vm_compute. reflexivity.
  - apply closedb_closed. vm_compute. reflexivity.
  - lia.
  - vm_compute. reflexivity.
  - vm_compute. reflexivity.
Defined.

(** X14.  The categorical features take precedence, and the constant 0.001
    does not keep the product from being zero: on a built object, for a
    profile with text in its categorical features and numbers in its
    continuous ones, a donor whose record holds the client's three texts gets
    the score zero whatever the continuous values are (their Canberra
    distance plus 0.001 being finite), so the likelihood ratio at its place in
    the ranking is the one that [get_lr] gives for zero. *)
Theorem equal_categories_give_distance_zero argsort (pool : list dict)
    (curves : list curve_point) (w0 w : world) (client_data : dict)
    (ranking : list float) (indices : list nat) (c1 c2 c3 : string) (ys xs : list float)
    (k i : nat) (d : dict) :
  init (Some pool) (Some curves) w0 = (Ok tt, w) ->
  dict_get client_data <$> CATEGORICAL_FEATURES = [VStr c1; VStr c2; VStr c3] ->
  dict_get client_data <$> CONTINUOUS_FEATURES = VNum <$> ys ->
  (get_similar_donors argsort client_data w).1 = Ok (ranking, indices) ->
  indices !! k = Some i ->
  pool !! i = Some d ->
  dict_get d <$> CATEGORICAL_FEATURES = [VStr c1; VStr c2; VStr c3] ->
  Forall2 stored (dict_get d <$> CONTINUOUS_FEATURES) xs ->
  (abs (canberra_distance ys xs + 0.001) <? infinity)%float = true ->
  exists score lr,
    (score =? 0)%float = true
    /\ (get_lr score w).1 = Ok lr
    /\ ranking !! k = Some lr.
Proof.
  intros Hinit Hcat Hcont Hrun Hk Hi Hsame Hxs Hfin.
  apply init_ok in Hinit as (rows & Hrows & Hself & _).
  destruct (ranking_entry argsort client_data w pool curves rows ranking indices
              k i d Hself Hrows Hrun Hk Hi) as (lr & Hlr & Hrk).
  unfold donor_lr in Hlr.
  rewrite (donor_distance_spelled client_data d c1 c2 c3 ys xs Hcat Hcont
             (stored_row_store_double _ _ Hxs)), result_bind_ok in Hlr.
  exists (composite_distance ys xs (differing_categories d c1 c2 c3)), lr.
  split; [|split; assumption].
  unfold CATEGORICAL_FEATURES in Hsame. cbn [fmap list_fmap] in Hsame.
  inversion Hsame as [[H1 H2 H3]].
  unfold composite_distance, differing_categories. rewrite H1, H2, H3.
  rewrite !bool_decide_eq_true_2 by reflexivity. cbn [Nat.add hamming_share].
  apply mul_zero_finite. exact Hfin.
Qed.

Lemma equal_categories_give_distance_zero_witness :
  exists score lr,
    (score =? 0)%float = true
    /\ (get_lr score Example.ready).1 = Ok lr
    /\ [9; 0.25; 0.25]%float !! 0 = Some lr.
Proof.
  apply (equal_categories_give_distance_zero stable_argsort Example.pool Example.curve
           Example.fresh_world Example.ready
           (Example.record "Paris" "fr" "Mac" 1 2 3 4 5)
           [9; 0.25; 0.25]%float [2; 0; 1] "Paris" "fr" "Mac"
           [1; 2; 3; 4; 5]%float [100; 20; 30; 400; 50]%float 0 2
           (Example.donor "Paris" "fr" "Mac" 100 20 30 400 50 3%positive)).
  - vm_compute. reflexivity.
  - reflexivity.
  - reflexivity.
  - vm_compute. reflexivity.
  - reflexivity.
  - reflexivity.
  - reflexivity.
  - repeat constructor; left; reflexivity.
  - vm_compute. reflexivity.
Defined.

(** X15.  The manager catches nothing.  When the profile fetcher raises, the
    manager raises the same exception and calls no recommender.  When the
    recommenders before some position decline and [can_recommend] of the one
    at that position raises, the manager raises the same exception: it asks no
    later recommender, calls no [recommend] and logs nothing. *)
Theorem manager_propagates_exceptions {W : Type} (mgr : RecommendationManager W)
    (client_id : string) (limit : Z) (w w1 : W) (t : list event) (e : exn) :
  (profile_fetcher_get mgr client_id w = (Raise e, w1) ->
   manager_recommend mgr client_id limit (w, t)
   = (Raise e, (w1, t ++ [CallGet client_id])))
  /\ (forall client_info pre r post w2 w3,
        profile_fetcher_get mgr client_id w = (Ok (Some client_info), w1) ->
        recommenders mgr = pre ++ r :: post ->
        declines client_info pre w1 w2 ->
        r_can_recommend r client_info w2 = (Raise e, w3) ->
        manager_recommend mgr client_id limit (w, t)
        = (Raise e,
           (w3, t ++ [CallGet client_id]
                  ++ can_recommend_calls client_info 0 (length pre)
                  ++ [CallCanRecommend (length pre) client_info]))).
Proof.
  split.
  - intros Hget. unfold manager_recommend. rewrite bind_run.
    erewrite call_run by exact Hget. reflexivity.
  - intros client_info pre r post w2 w3 Hget Hrs Hdec Hcan.
    unfold manager_recommend. rewrite bind_run.
    erewrite call_run by exact Hget. cbv iota. rewrite Hrs.
    rewrite (recommend_loop_declines client_id client_info limit pre (r :: post) 0 w1 w2)
      by exact Hdec.
    rewrite (recommend_loop_raise client_id client_info limit r post _ w2 w3 _ e Hcan).
    cbn [Nat.add]. rewrite <- !app_assoc. reflexivity.
Qed.

Lemma manager_propagates_exceptions_witness :
  manager_recommend Cases.manager "near" 5 (Example.ready, [])
  = (Raise KeyError,
     (Example.ready,
      [] ++ [CallGet "near"]
         ++ can_recommend_calls Example.profile 0 (length [Example.never])
         ++ [CallCanRecommend (length [Example.never]) Example.profile])).
Proof.
  destruct (manager_propagates_exceptions Cases.manager "near" 5 Example.ready Example.ready
              [] KeyError) as [_ Hcan].
  apply (Hcan Example.profile [Example.never] Cases.broken [Example.fallback]
           Example.ready Example.ready).
  - reflexivity.
  - reflexivity.
  - apply (declines_cons _ _ _ _ Example.ready); [reflexivity | constructor].
  - reflexivity.
Defined.

(** X16.  Every run of a request has one shape, whatever the fetcher and the
    recommenders do.  The manager calls [get] first; when that raises or
    returns no profile it calls nothing else.  Otherwise the recommenders
    before some position of the tuple are asked in order, each once and with
    the fetched profile, and answer [False]; then either none is left, and the
    manager logs that and returns the empty list; or [can_recommend] of the
    recommender at that position raises, and the manager raises the same; or
    it answers [True], and the manager logs the selection, calls its
    [recommend] once with the fetched profile and the limit, and returns its
    outcome.  Nothing is called after that. *)
Theorem manager_calls_in_order {W : Type} (mgr : RecommendationManager W)
    (client_id : string) (limit : Z) (w w' : W) (t t' : list event)
    (res : result (list string)) :
  manager_recommend mgr client_id limit (w, t) = (res, (w', t')) ->
  exists got w1,
    profile_fetcher_get mgr client_id w = (got, w1)
    /\ match got with
       | Raise e => res = Raise e /\ w' = w1 /\ t' = t ++ [CallGet client_id]
       | Ok None => res = Ok [] /\ w' = w1 /\ t' = t ++ [CallGet client_id]
       | Ok (Some client_info) =>
           exists evs,
             t' = t ++ CallGet client_id :: evs
             /\ loop_run client_id client_info limit 0 (recommenders mgr) w1 res w' evs
       end.
Proof.
  intros Hrun. unfold manager_recommend in Hrun. rewrite bind_run in Hrun.
  destruct (profile_fetcher_get mgr client_id w) as [[[client_info|]|e] w1] eqn:Hget;
    erewrite call_run in Hrun by exact Hget; cbv iota in Hrun;
    eexists _, w1; (split; [reflexivity|]).
  - apply recommend_loop_inv in Hrun as (evs & -> & Hev).
    exists evs. split; [rewrite <- app_assoc; reflexivity|exact Hev].
  - inversion Hrun; subst. repeat split; reflexivity.
  - inversion Hrun; subst. repeat split; reflexivity.
Qed.

Lemma manager_calls_in_order_witness :
  exists got w1,
    profile_fetcher_get Example.manager "far" Example.ready = (got, w1)
    /\ match got with
       | Raise e =>
           (manager_recommend Example.manager "far" 5 (Example.ready, [])).1 = Raise e
           /\ (manager_recommend Example.manager "far" 5 (Example.ready, [])).2.1 = w1
           /\ (manager_recommend Example.manager "far" 5 (Example.ready, [])).2.2
              = [] ++ [CallGet "far"]
       | Ok None =>
           (manager_recommend Example.manager "far" 5 (Example.ready, [])).1 = Ok []
           /\ (manager_recommend Example.manager "far" 5 (Example.ready, [])).2.1 = w1
           /\ (manager_recommend Example.manager "far" 5 (Example.ready, [])).2.2
              = [] ++ [CallGet "far"]
       | Ok (Some client_info) =>
           exists evs,
             (manager_recommend Example.manager "far" 5 (Example.ready, [])).2.2
             = [] ++ CallGet "far" :: evs
             /\ loop_run "far" client_info 5 0 (recommenders Example.manager) w1
                  (manager_recommend Example.manager "far" 5 (Example.ready, [])).1
                  (manager_recommend Example.manager "far" 5 (Example.ready, [])).2.1 evs
       end.
Proof.
  apply (manager_calls_in_order Example.manager "far" 5 Example.ready).
  rewrite <- !surjective_pairing. reflexivity.
Defined.

(** X17.  [LocaleRecommender.can_recommend] raises nothing and changes
    nothing.  It returns [True] exactly when the table was downloaded, the
    [locale] of the profile is text, and the table has a non-empty list for
    that locale. *)
Theorem locale_can_recommend_exactly (s : Locale.LocaleRecommender)
    (per_locale : option (gmap string (list string))) (client_data : dict) :
  Locale.top_addons_per_locale s = Some per_locale ->
  exists b : bool,
    Locale.can_recommend client_data s = (Ok b, s)
    /\ (b = true
        <-> exists m l a addons,
              per_locale = Some m
              /\ client_data !! "locale" = Some (VStr l)
              /\ m !! l = Some (a :: addons)).
Proof.
  intros Hs. eexists. split; [apply (locale_can_recommend_run s per_locale); exact Hs|].
  unfold dict_get. split.
  - destruct per_locale as [m|]; [|discriminate].
    destruct (client_data !! "locale") as [[| |l|]|]; try discriminate.
    cbn [from_option id].
    destruct (m !! l) as [[|a addons]|] eqn:Hl; try discriminate.
    intros _. exists m, l, a, addons. auto.
  - intros (m & l & a & addons & -> & -> & Hl). cbn [from_option id]. rewrite Hl. reflexivity.
Qed.

Lemma locale_can_recommend_exactly_witness :
  exists b : bool,
    Locale.can_recommend Example.profile LocaleCases.loaded = (Ok b, LocaleCases.loaded)
    /\ (b = true
        <-> exists m l a addons,
              Some LocaleCases.table = Some m
              /\ Example.profile !! "locale" = Some (VStr l)
              /\ m !! l = Some (a :: addons)).
Proof.
  apply (locale_can_recommend_exactly LocaleCases.loaded). reflexivity.
Defined.

(** X18.  After [can_recommend] returned [True], [recommend] of the locale
    recommender with a positive [limit] returns a list that is not empty: the
    first [limit] add-ons of the list of the locale, all of them when there
    are fewer.  The object is left as it was. *)
Theorem locale_recommend_after_can_recommend (s s' : Locale.LocaleRecommender)
    (client_data : dict) (limit : Z) :
  Locale.can_recommend client_data s = (Ok true, s') ->
  (0 < limit)%Z ->
  exists m l addons,
    Locale.top_addons_per_locale s = Some (Some m)
    /\ client_data !! "locale" = Some (VStr l)
    /\ m !! l = Some addons
    /\ Locale.recommend client_data limit s' = (Ok (take (Z.to_nat limit) addons), s)
    /\ take (Z.to_nat limit) addons <> [].
Proof.
  intros Hcan Hlimit.
  destruct (Locale.top_addons_per_locale s) as [per_locale|] eqn:Hs.
  2: { unfold Locale.can_recommend in Hcan. rewrite bind_run in Hcan.
       unfold Locale.attr at 1 in Hcan. rewrite Hs in Hcan. discriminate. }
  rewrite (locale_can_recommend_run s per_locale client_data Hs) in Hcan.
  inversion Hcan as [[Hb Hs']]. subst s'. clear Hcan.
  rewrite (locale_recommend_run s per_locale client_data limit Hs).
  unfold dict_get in *.
  destruct per_locale as [m|]; [|discriminate].
  destruct (client_data !! "locale") as [[| |l|]|] eqn:Hloc; try discriminate.
  cbn [from_option id] in *.
  destruct (m !! l) as [[|a addons]|] eqn:Hl; try discriminate.
  exists m, l, (a :: addons).
  do 3 (split; [first [reflexivity | assumption]|]).
  rewrite slice_to_take by lia. split; [reflexivity|].
  destruct (Z.to_nat limit) eqn:Hn; [lia|]. discriminate.
Qed.

Lemma locale_recommend_after_can_recommend_witness :
  exists m l addons,
    Locale.top_addons_per_locale LocaleCases.loaded = Some (Some m)
    /\ Example.profile !! "locale" = Some (VStr l)
    /\ m !! l = Some addons
    /\ Locale.recommend Example.profile 2 LocaleCases.loaded
       = (Ok (take (Z.to_nat 2) addons), LocaleCases.loaded)
    /\ take (Z.to_nat 2) addons <> [].
Proof.
  apply (locale_recommend_after_can_recommend LocaleCases.loaded LocaleCases.loaded
           Example.profile 2).
  - vm_compute. reflexivity.
  - lia.
Defined.

(** X19.  [recommend] of the locale recommender does not repeat the tests of
    [can_recommend].  After a failed download, where [can_recommend] returns
    [False], it raises [AttributeError].  With the table, it returns the empty
    list for a profile without a [locale], with [None] or a number for it, or
    with a locale that the table does not have; for a locale with an empty
    list it returns that; the outcome never has more than [limit] entries for
    [limit >= 0]. *)
Theorem locale_recommend_without_can_recommend (s : Locale.LocaleRecommender)
    (client_data : dict) (limit : Z) :
  (Locale.top_addons_per_locale s = Some None ->
   Locale.can_recommend client_data s = (Ok false, s)
   /\ Locale.recommend client_data limit s = (Raise AttributeError, s))
  /\ (forall m,
        Locale.top_addons_per_locale s = Some (Some m) ->
        Locale.can_recommend client_data s = (Ok false, s) ->
        (forall r, client_data !! "locale" <> Some (VList r)) ->
        Locale.recommend client_data limit s = (Ok [], s))
  /\ ((0 <= limit)%Z -> bounded limit locale_recommender).
Proof.
  split; [|split].
  - intros Hs. split.
    + rewrite (locale_can_recommend_run s None client_data Hs). reflexivity.
    + rewrite (locale_recommend_run s None client_data limit Hs). reflexivity.
  - intros m Hs Hcan Hlist.
    rewrite (locale_can_recommend_run s (Some m) client_data Hs) in Hcan.
    rewrite (locale_recommend_run s (Some m) client_data limit Hs).
    unfold dict_get in *.
    destruct (client_data !! "locale") as [[| |l|r]|]; cbn [from_option id] in *;
      rewrite ?slice_to_nil; try reflexivity.
    + destruct (m !! l) as [[|a addons]|]; cbn [from_option id]; rewrite ?slice_to_nil;
        [reflexivity|discriminate|reflexivity].
    + destruct (Hlist r). reflexivity.
  - intros Hlimit client_data' s0 out s1 Hrun.
    cbn [locale_recommender r_recommend] in Hrun. unfold Locale.recommend in Hrun.
    rewrite bind_run in Hrun.
    destruct (Locale.get (dict_get client_data' "locale") s0) as [[addons|e] s2];
      [|discriminate].
    inversion Hrun; subst. apply slice_to_length. exact Hlimit.
Qed.

Lemma locale_recommend_without_can_recommend_witness :
  (Locale.can_recommend Example.profile LocaleCases.failed = (Ok false, LocaleCases.failed)
   /\ Locale.recommend Example.profile 5 LocaleCases.failed
      = (Raise AttributeError, LocaleCases.failed))
  /\ Locale.recommend Example.far_profile 5 LocaleCases.loaded = (Ok [], LocaleCases.loaded).
Proof.
  destruct (locale_recommend_without_can_recommend LocaleCases.failed Example.profile 5)
    as (Hfailed & _ & _).
  destruct (locale_recommend_without_can_recommend LocaleCases.loaded Example.far_profile 5)
    as (_ & Hloaded & _).
  split.
  - apply Hfailed. reflexivity.
  - apply (Hloaded LocaleCases.table).
    + reflexivity.
    + vm_compute. reflexivity.
    + intros r. vm_compute. discriminate.
Defined.

(** X20.  The similarity recommender and the locale recommender in the order
    of the default tuple: for a profile that lacks a required field of the
    similarity recommender but has a locale with add-ons in the table, the
    manager asks the similarity recommender, which logs the unusable profile
    and declines, then selects the locale recommender and returns the first
    [limit] add-ons of that locale; it logs no "No recommendations". *)
Theorem manager_falls_back_to_locale argsort
    (mgr : RecommendationManager (world * Locale.LocaleRecommender))
    (client_id : string) (limit : Z) (ws0 : world * Locale.LocaleRecommender)
    (w : world) (s : Locale.LocaleRecommender) (t : list event) (client_info : dict)
    (pool : list dict) (curves : list curve_point) (m : gmap string (list string))
    (l : string) (a : string) (addons : list string) :
  recommenders mgr = similarity_then_locale argsort ->
  profile_fetcher_get mgr client_id ws0 = (Ok (Some client_info), (w, s)) ->
  donors_pool (self w) = Some (Some pool) ->
  lr_curves (self w) = Some (Some curves) ->
  has_required_fields client_info = false ->
  Locale.top_addons_per_locale s = Some (Some m) ->
  client_info !! "locale" = Some (VStr l) ->
  m !! l = Some (a :: addons) ->
  (0 < limit)%Z ->
  manager_recommend mgr client_id limit (ws0, t)
  = (Ok (take (Z.to_nat limit) (a :: addons)),
     ((with_logged (fun lg => lg ++ [unusable_error]) w, s),
      t ++ [CallGet client_id;
            CallCanRecommend 0 client_info;
            CallCanRecommend 1 client_info;
            selected_record client_id (recommender_on_snd (S := world) locale_recommender);
            CallRecommend 1 client_info limit])).
Proof.
  intros Hrs Hget Hpool Hcurves Hfields Hs Hloc Hl Hlimit.
  unfold manager_recommend. rewrite bind_run.
  erewrite call_run by exact Hget. cbv iota. rewrite Hrs. unfold similarity_then_locale.
  set (w1 := with_logged (fun lg => lg ++ [unusable_error]) w).
  assert (Hdec : declines client_info
                   [recommender_on_fst (T := Locale.LocaleRecommender)
                      (similarity_recommender argsort)] (w, s) (w1, s)).
  { apply (declines_cons _ _ _ _ (w1, s)); [|constructor].
    cbn [recommender_on_fst r_can_recommend similarity_recommender].
    apply on_fst_run.
    rewrite (can_recommend_run client_info w (Some pool) (Some curves) Hpool Hcurves).
    rewrite Hfields. reflexivity. }
  rewrite (recommend_loop_declines client_id client_info limit
             [recommender_on_fst (similarity_recommender argsort)]
             [recommender_on_snd locale_recommender] 0 (w, s) (w1, s) _ Hdec).
  rewrite (recommend_loop_selected client_id client_info limit
             (recommender_on_snd locale_recommender) [] _ (w1, s) (w1, s) (w1, s) _
             (Ok (take (Z.to_nat limit) (a :: addons)))).
  - destruct (Z.to_nat limit) eqn:Hn; [lia|]. cbn [take].
    rewrite <- !app_assoc. reflexivity.
  - cbn [recommender_on_snd r_can_recommend locale_recommender]. apply on_snd_run.
    rewrite (locale_can_recommend_run s (Some m) client_info Hs).
    unfold dict_get. rewrite Hloc. cbn [from_option id]. rewrite Hl. reflexivity.
  - cbn [recommender_on_snd r_recommend locale_recommender]. apply on_snd_run.
    rewrite (locale_recommend_run s (Some m) client_info limit Hs).
    unfold dict_get. rewrite Hloc. cbn [from_option id]. rewrite Hl. cbn [from_option id].
    rewrite slice_to_take by lia. reflexivity.
Qed.

Lemma manager_falls_back_to_locale_witness :
  manager_recommend LocaleCases.manager "id" 2
    ((Example.ready, LocaleCases.loaded), [])
  = (Ok (take (Z.to_nat 2) ["d1"; "d2"; "d3"]),
     ((with_logged (fun lg => lg ++ [unusable_error]) Example.ready, LocaleCases.loaded),
      [] ++ [CallGet "id";
             CallCanRecommend 0 LocaleCases.partial_profile;
             CallCanRecommend 1 LocaleCases.partial_profile;
             selected_record "id" (recommender_on_snd (S := world) locale_recommender);
             CallRecommend 1 LocaleCases.partial_profile 2])).
Proof.
  apply (manager_falls_back_to_locale stable_argsort LocaleCases.manager "id" 2
           (Example.ready, LocaleCases.loaded) Example.ready LocaleCases.loaded []
           LocaleCases.partial_profile Example.pool Example.curve LocaleCases.table "de").
  - reflexivity.
  - reflexivity.
  - vm_compute. reflexivity.
  - vm_compute. reflexivity.
  - vm_compute. reflexivity.
  - reflexivity.
  - vm_compute. reflexivity.
  - vm_compute. reflexivity.
  - lia.
Defined.

(** X21.  [recommend] does not test the profile.  Called on a built object
    for a profile in which a continuous feature is missing or [None], it
    raises [ValueError]: the client row is no array of numbers, and [cdist]
    refuses it before any distance is computed.  It logs nothing and creates
    no list. *)
Theorem recommend_raises_on_missing_number argsort (pool : list dict)
    (curves : list curve_point) (w0 w : world) (client_data : dict) (limit : Z) (f : string) :
  init (Some pool) (Some curves) w0 = (Ok tt, w) ->
  closed (heap w) pool ->
  f ∈ CONTINUOUS_FEATURES ->
  client_data !! f = None \/ client_data !! f = Some VNone ->
  recommend argsort client_data limit w = (Raise ValueError, w).
Proof.
  intros Hinit Hclosed Hf Hmiss.
  apply init_ok in Hinit as (rows & Hrows & Hself & _).
  rewrite (recommend_run argsort client_data limit w pool curves rows) by assumption.
  unfold recommend_outcome, similar_donors, client_continuous.
  rewrite (row_as_double_refused _ VNone); [reflexivity| |discriminate].
  apply list_elem_of_fmap. exists f. split; [|exact Hf]. unfold dict_get.
  destruct Hmiss as [-> | ->]; reflexivity.
Qed.

Lemma recommend_raises_on_missing_number_witness :
  recommend stable_argsort (delete "total_uri" Example.profile) 5 Example.ready
  = (Raise ValueError, Example.ready).
Proof.
  apply (recommend_raises_on_missing_number stable_argsort Example.pool Example.curve
           Example.fresh_world Example.ready _ 5 "total_uri").
  - vm_compute. reflexivity.
  - apply closedb_closed. vm_compute. reflexivity.
  - apply list_elem_of_In. cbn. tauto.
  - left. vm_compute. reflexivity.
Defined.

(** X22.  The two methods read the profile through [get] on the eight feature
    names only: two profiles that give the same values there, a missing field
    counting as [None], get the same answer from [can_recommend] and the same
    outcome from [recommend], on any object. *)
Theorem profile_is_read_through_eight_fields argsort (client_data client_data' : dict)
    (limit : Z) (w : world) :
  (forall f, f ∈ CATEGORICAL_FEATURES ++ CONTINUOUS_FEATURES ->
     dict_get client_data f = dict_get client_data' f) ->
  can_recommend client_data w = can_recommend client_data' w
  /\ recommend argsort client_data limit w = recommend argsort client_data' limit w.
Proof.
  intros Hsame.
  assert (Hin : forall f, In f (CATEGORICAL_FEATURES ++ CONTINUOUS_FEATURES) ->
                  dict_get client_data f = dict_get client_data' f)
    by (intros f Hf; apply Hsame, list_elem_of_In, Hf).
  cbn [CATEGORICAL_FEATURES CONTINUOUS_FEATURES app In] in Hin.
  pose proof (Hin "geo_city" ltac:(tauto)) as H1.
  pose proof (Hin "locale" ltac:(tauto)) as H2.
  pose proof (Hin "os" ltac:(tauto)) as H3.
  pose proof (Hin "subsession_length" ltac:(tauto)) as H4.
  pose proof (Hin "bookmark_count" ltac:(tauto)) as H5.
  pose proof (Hin "tab_open_count" ltac:(tauto)) as H6.
  pose proof (Hin "total_uri" ltac:(tauto)) as H7.
  pose proof (Hin "unique_tlds" ltac:(tauto)) as H8.
  split.
  - unfold can_recommend, CATEGORICAL_FEATURES, CONTINUOUS_FEATURES.
    cbn [app forallb]. rewrite H1, H2, H3, H4, H5, H6, H7, H8. reflexivity.
  - unfold recommend, get_similar_donors, CATEGORICAL_FEATURES, CONTINUOUS_FEATURES.
    cbn [fmap list_fmap]. rewrite H1, H2, H3, H4, H5, H6, H7, H8. reflexivity.
Qed.

Lemma profile_is_read_through_eight_fields_witness :
  can_recommend (<["client_id" := VStr "x"]> Example.profile) Example.ready
  = can_recommend Example.profile Example.ready
  /\ recommend stable_argsort (<["client_id" := VStr "x"]> Example.profile) 5 Example.ready
     = recommend stable_argsort Example.profile 5 Example.ready.
Proof.
  apply (profile_is_read_through_eight_fields stable_argsort).
  intros f Hf. apply list_elem_of_In in Hf. cbn in Hf.
  destruct Hf as [<-|[<-|[<-|[<-|[<-|[<-|[<-|[<-|[]]]]]]]]]; vm_compute; reflexivity.
Defined.

(** X23.  For a score that is NaN, every difference to a curve score is NaN,
    and [argmin] returns the first position: on a built object [get_lr] then
    uses the first point of the curve, whatever its score. *)
Theorem get_lr_of_nan_uses_first_point (pool : list dict) (pt : curve_point)
    (curves : list curve_point) (w0 w : world) (score : float) :
  init (Some pool) (Some (pt :: curves)) w0 = (Ok tt, w) ->
  is_nan score = true ->
  get_lr score w
  = (if (pt.2.2 =? 0)%float then Raise ZeroDivisionError else Ok (pt.2.1 / pt.2.2)%float, w).
Proof.
  intros Hinit Hnan.
  apply init_ok in Hinit as (rows & _ & Hself & _).
  apply (get_lr_run score w (fst <$> pt :: curves) (pt :: curves) 0 pt).
  - rewrite Hself. reflexivity.
  - rewrite Hself. reflexivity.
  - cbn [fmap list_fmap argmin]. rewrite is_nan_abs_sub by exact Hnan. reflexivity.
  - reflexivity.
Qed.

Lemma get_lr_of_nan_uses_first_point_witness :
  get_lr nan Example.ready = (Ok (0.2 / 0.8)%float, Example.ready).
Proof.
  apply (get_lr_of_nan_uses_first_point Example.pool (1, (0.2, 0.8))%float
           [(0, (0.9, 0.1)); (0.5, (0.6, 0.3))]%float Example.fresh_world Example.ready nan).
  - vm_compute. reflexivity.
  - vm_compute. reflexivity.
Defined.

(** X24.  An empty donor list fails the whole request.  When the manager
    reaches a similarity recommender that was built from an empty donor list,
    for a complete profile with numbers for the continuous features, it
    selects that recommender, and the [IndexError] of its [recommend] leaves
    the manager: no later recommender is asked. *)
Theorem empty_pool_fails_the_request argsort (mgr : RecommendationManager world)
    (client_id : string) (limit : Z) (w0 w1 w : world) (t : list event)
    (client_info : dict) (pre post : list (BaseRecommender world))
    (curves : list curve_point) (y : list float) :
  profile_fetcher_get mgr client_id w0 = (Ok (Some client_info), w1) ->
  recommenders mgr = pre ++ similarity_recommender argsort :: post ->
  declines client_info pre w1 w ->
  self w = built [] curves [] ->
  has_required_fields client_info = true ->
  client_continuous client_info = Ok y ->
  manager_recommend mgr client_id limit (w0, t)
  = (Raise IndexError,
     (w, t ++ [CallGet client_id]
           ++ can_recommend_calls client_info 0 (length pre)
           ++ [CallCanRecommend (length pre) client_info;
               selected_record client_id (similarity_recommender argsort);
               CallRecommend (length pre) client_info limit])).
Proof.
  intros Hget Hrs Hdec Hself Hfields Hy.
  unfold manager_recommend. rewrite bind_run.
  erewrite call_run by exact Hget. cbv iota. rewrite Hrs.
  rewrite (recommend_loop_declines client_id client_info limit pre
             (similarity_recommender argsort :: post) 0 w1 w) by exact Hdec.
  rewrite (recommend_loop_selected client_id client_info limit
             (similarity_recommender argsort) post _ w w w _ (Raise IndexError)).
  - cbn [Nat.add]. rewrite app_nil_r, <- !app_assoc. reflexivity.
  - cbn [similarity_recommender r_can_recommend].
    rewrite (can_recommend_run client_info w (Some []) (Some curves))
      by (rewrite Hself; reflexivity).
    rewrite Hfields. reflexivity.
  - cbn [similarity_recommender r_recommend]. rewrite bind_run.
    rewrite (recommend_empty_pool argsort client_info limit w curves y Hself Hy).
    reflexivity.
Qed.

Lemma empty_pool_fails_the_request_witness :
  manager_recommend Example.manager "near" 5 (Example.ready_empty, [])
  = (Raise IndexError,
     (Example.ready_empty,
      [] ++ [CallGet "near"]
         ++ can_recommend_calls Example.profile 0 (length [Example.never])
         ++ [CallCanRecommend (length [Example.never]) Example.profile;
             selected_record "near" (similarity_recommender stable_argsort);
             CallRecommend (length [Example.never]) Example.profile 5])).
Proof.
  apply (empty_pool_fails_the_request stable_argsort Example.manager "near" 5
           Example.ready_empty Example.ready_empty Example.ready_empty []
           Example.profile [Example.never] [Example.fallback] Example.curve
           [10; 2; 3; 40; 5]%float).
  - reflexivity.
  - reflexivity.
  - apply (declines_cons _ _ _ _ Example.ready_empty); [reflexivity | constructor].
  - vm_compute. reflexivity.
  - vm_compute. reflexivity.
  - vm_compute. reflexivity.
Defined.
